(** * gliff-py: the gallery / tile / annotation consistency layer

    A shallow embedding of [gliff.py] (classes [Project] and [Gliff]) and of
    the parts of the Python runtime it leans on: JSON-shaped values, the
    built-in operations on them, [json.dumps] / [json.loads], UTF-8,
    [base64.b64decode], and the narrow interface of the remote store. *)

From Stdlib Require Import String Ascii Bool Arith ZArith NArith Lia List DecimalN.
Import ListNotations.

Set Implicit Arguments.

(** ** Python values *)

Module Py.

(** A Python [str] is a sequence of code points; [bytes] a sequence of
    octets. *)
Definition pystr := list N.
Definition bytes := list N.

(** [py "abc"] is the Python literal ["abc"]. *)
Definition py (s : string) : pystr := map N_of_ascii (list_ascii_of_string s).

Definition pystr_eqb (a b : pystr) : bool :=
  if list_eq_dec N.eq_dec a b then true else false.

(** The values that [json.loads] produces and [json.dumps] accepts.  Dicts
    keep insertion order (as CPython does), so they are association lists;
    a float is carried as the numeric literal that denotes it, since no
    operation of this program computes with one. *)
#[local] Unset Elimination Schemes.
Inductive json : Type :=
| JNull
| JBool (b : bool)
| JInt (n : Z)
| JFloat (literal : pystr)
| JStr (s : pystr)
| JArr (items : list json)
| JObj (fields : list (pystr * json)).
#[local] Set Elimination Schemes.

Definition dict := list (pystr * json).

(** The exception classes that occur; all of them derive from [Exception]. *)
Inductive exn : Type :=
| KeyError
| IndexError
| TypeError
| AttributeError
| ValueError
| UnicodeDecodeError
| UnicodeEncodeError
| JSONDecodeError
| RecursionError
| BinasciiError
| UnidentifiedImageError
| RemoteError.

Inductive result (A : Type) : Type :=
| Ok (a : A)
| Raise (e : exn).
Arguments Ok {A} a.
Arguments Raise {A} e.

Definition rbind {A B} (r : result A) (k : A -> result B) : result B :=
  match r with
  | Ok a => k a
  | Raise e => Raise e
  end.

Declare Scope py_scope.
Delimit Scope py_scope with py.
Notation "x <-- r ;; k" := (rbind r (fun x => k))
  (at level 61, r at next level, right associativity) : py_scope.
Local Open Scope py_scope.

(** *** Dict primitives *)

Fixpoint dict_get (d : dict) (k : pystr) : option json :=
  match d with
  | [] => None
  | (k', v) :: rest => if pystr_eqb k' k then Some v else dict_get rest k
  end.

Definition dict_mem (d : dict) (k : pystr) : bool :=
  match dict_get d k with Some _ => true | None => false end.

(** [d[k] = v]: an existing key keeps its position, a new one goes last. *)
Fixpoint dict_set (d : dict) (k : pystr) (v : json) : dict :=
  match d with
  | [] => [(k, v)]
  | (k', v') :: rest =>
      if pystr_eqb k' k then (k', v) :: rest else (k', v') :: dict_set rest k v
  end.

(** [d.update(other)] for a dict [other]: its items are stored one by one, in
    order. *)
Definition dict_update (d other : dict) : dict :=
  fold_left (fun acc kv => dict_set acc (fst kv) (snd kv)) other d.

Definition dict_keys (d : dict) : list pystr := map fst d.

(** *** Built-in operations on values *)

(** [len(v)] *)
Definition py_len (v : json) : result nat :=
  match v with
  | JStr s => Ok (length s)
  | JArr l => Ok (length l)
  | JObj d => Ok (length d)
  | _ => Raise TypeError
  end.

(** [v[k]] for a [str] key [k] *)
Definition getitem (v : json) (k : pystr) : result json :=
  match v with
  | JObj d => match dict_get d k with
              | Some x => Ok x
              | None => Raise KeyError
              end
  | _ => Raise TypeError
  end.

(** [v[i]] for a non-negative [int] index [i] *)
Definition getitem_nat (v : json) (i : nat) : result json :=
  match v with
  | JArr l => match nth_error l i with
              | Some x => Ok x
              | None => Raise IndexError
              end
  | JStr s => match nth_error s i with
              | Some c => Ok (JStr [c])
              | None => Raise IndexError
              end
  | JObj _ => Raise KeyError
  | _ => Raise TypeError
  end.

(** [v[-1]] *)
Definition getitem_last (v : json) : result json :=
  match v with
  | JArr l => match rev l with
              | x :: _ => Ok x
              | [] => Raise IndexError
              end
  | JStr s => match rev s with
              | c :: _ => Ok (JStr [c])
              | [] => Raise IndexError
              end
  | JObj _ => Raise KeyError
  | _ => Raise TypeError
  end.

(** [v is None] *)
Definition is_none (v : json) : bool :=
  match v with JNull => true | _ => false end.

(** [v == s] for a [str] [s] *)
Definition eq_str (v : json) (s : pystr) : bool :=
  match v with JStr s' => pystr_eqb s' s | _ => false end.

Fixpoint is_prefix (p s : pystr) : bool :=
  match p, s with
  | [], _ => true
  | _ :: _, [] => false
  | a :: p', b :: s' => N.eqb a b && is_prefix p' s'
  end.

Fixpoint is_substring (p s : pystr) : bool :=
  is_prefix p s || match s with
                   | [] => false
                   | _ :: s' => is_substring p s'
                   end.

(** [k in v] for a [str] [k] *)
Definition contains_str (v : json) (k : pystr) : result bool :=
  match v with
  | JObj d => Ok (dict_mem d k)
  | JArr l => Ok (existsb (fun x => eq_str x k) l)
  | JStr s => Ok (is_substring k s)
  | _ => Raise TypeError
  end.

(** The items a [for] loop over [v] visits. *)
Definition iterate (v : json) : result (list json) :=
  match v with
  | JArr l => Ok l
  | JObj d => Ok (map JStr (dict_keys d))
  | JStr s => Ok (map (fun c => JStr [c]) s)
  | _ => Raise TypeError
  end.

(** Truth value of [v] in a condition. *)
Definition truthy (v : json) : bool :=
  match v with
  | JNull => false
  | JBool b => b
  | JInt n => negb (Z.eqb n 0)
  | JFloat _ => true
  | JStr s => negb (Nat.eqb (length s) 0)
  | JArr l => negb (Nat.eqb (length l) 0)
  | JObj d => negb (Nat.eqb (length d) 0)
  end.

End Py.
Export Py.
Local Open Scope py_scope.

(** ** Text codecs of the runtime: UTF-8 and JSON *)

Module Codec.

Definition ch (a : ascii) : N := N_of_ascii a.

(** The double quote. *)
Definition dquote : N := 34%N.

Definition is_surrogate (c : N) : bool := (0xD800 <=? c)%N && (c <=? 0xDFFF)%N.
Definition is_high_surrogate (c : N) : bool := (0xD800 <=? c)%N && (c <=? 0xDBFF)%N.
Definition is_low_surrogate (c : N) : bool := (0xDC00 <=? c)%N && (c <=? 0xDFFF)%N.

(** *** [str.encode()] and [bytes.decode()], both UTF-8 and strict *)

Definition utf8_char (c : N) : option bytes :=
  if (c <? 0x80)%N then Some [c]
  else if (c <? 0x800)%N then Some [0xC0 + c / 64; 0x80 + c mod 64]%N
  else if (c <? 0x10000)%N then
    if is_surrogate c then None
    else Some [0xE0 + c / 4096; 0x80 + (c / 64) mod 64; 0x80 + c mod 64]%N
  else if (c <? 0x110000)%N then
    Some [0xF0 + c / 262144; 0x80 + (c / 4096) mod 64;
          0x80 + (c / 64) mod 64; 0x80 + c mod 64]%N
  else None.

Fixpoint str_encode (s : pystr) : result bytes :=
  match s with
  | [] => Ok []
  | c :: rest =>
      match utf8_char c with
      | None => Raise UnicodeEncodeError
      | Some bs => tl <-- str_encode rest ;; Ok (bs ++ tl)
      end
  end.

Definition is_cont (b : N) : bool := (0x80 <=? b)%N && (b <? 0xC0)%N.

Definition push (c : N) (r : result pystr) : result pystr :=
  s <-- r ;; Ok (c :: s).

Fixpoint bytes_decode (bs : bytes) : result pystr :=
  match bs with
  | [] => Ok []
  | b0 :: r =>
      if (b0 <? 0x80)%N then push b0 (bytes_decode r)
      else if (b0 <? 0xC2)%N then Raise UnicodeDecodeError
      else if (b0 <? 0xE0)%N then
        match r with
        | b1 :: r1 =>
            if is_cont b1
            then push ((b0 - 0xC0) * 64 + (b1 - 0x80))%N (bytes_decode r1)
            else Raise UnicodeDecodeError
        | _ => Raise UnicodeDecodeError
        end
      else if (b0 <? 0xF0)%N then
        match r with
        | b1 :: b2 :: r2 =>
            let c := ((b0 - 0xE0) * 4096 + (b1 - 0x80) * 64 + (b2 - 0x80))%N in
            if is_cont b1 && is_cont b2 && (0x800 <=? c)%N && negb (is_surrogate c)
            then push c (bytes_decode r2)
            else Raise UnicodeDecodeError
        | _ => Raise UnicodeDecodeError
        end
      else if (b0 <? 0xF5)%N then
        match r with
        | b1 :: b2 :: b3 :: r3 =>
            let c := ((b0 - 0xF0) * 262144 + (b1 - 0x80) * 4096
                      + (b2 - 0x80) * 64 + (b3 - 0x80))%N in
            if is_cont b1 && is_cont b2 && is_cont b3
               && (0x10000 <=? c)%N && (c <? 0x110000)%N
            then push c (bytes_decode r3)
            else Raise UnicodeDecodeError
        | _ => Raise UnicodeDecodeError
        end
      else Raise UnicodeDecodeError
  end.

(** *** [json.dumps(v, separators=(",", ":"))]

    [ensure_ascii] keeps its default, so the text is ASCII: every character
    outside [' '..'~'], and the quote and the backslash, is escaped. *)

Fixpoint chars_of_uint (d : Decimal.uint) : pystr :=
  match d with
  | Decimal.Nil => []
  | Decimal.D0 d => ch "0" :: chars_of_uint d
  | Decimal.D1 d => ch "1" :: chars_of_uint d
  | Decimal.D2 d => ch "2" :: chars_of_uint d
  | Decimal.D3 d => ch "3" :: chars_of_uint d
  | Decimal.D4 d => ch "4" :: chars_of_uint d
  | Decimal.D5 d => ch "5" :: chars_of_uint d
  | Decimal.D6 d => ch "6" :: chars_of_uint d
  | Decimal.D7 d => ch "7" :: chars_of_uint d
  | Decimal.D8 d => ch "8" :: chars_of_uint d
  | Decimal.D9 d => ch "9" :: chars_of_uint d
  end.

(** [int.__repr__] *)
Definition int_repr (n : Z) : pystr :=
  (if (n <? 0)%Z then [ch "-"] else []) ++ chars_of_uint (N.to_uint (Z.abs_N n)).

Definition hexdigit (n : N) : N := if (n <? 10)%N then (48 + n)%N else (87 + n)%N.

(** ['\\u{0:04x}'.format(n)] *)
Definition u_escape (n : N) : pystr :=
  [ch "\"; ch "u"; hexdigit (n / 4096); hexdigit ((n / 256) mod 16);
   hexdigit ((n / 16) mod 16); hexdigit (n mod 16)]%N.

Definition escape_char (c : N) : pystr :=
  if (c =? dquote)%N then [ch "\"; dquote]
  else if (c =? ch "\")%N then [ch "\"; ch "\"]
  else if (c =? 8)%N then [ch "\"; ch "b"]
  else if (c =? 12)%N then [ch "\"; ch "f"]
  else if (c =? 10)%N then [ch "\"; ch "n"]
  else if (c =? 13)%N then [ch "\"; ch "r"]
  else if (c =? 9)%N then [ch "\"; ch "t"]
  else if (0x20 <=? c)%N && (c <=? 0x7E)%N then [c]
  else if (c <? 0x10000)%N then u_escape c
  else u_escape (0xD800 + (c - 0x10000) / 1024)
       ++ u_escape (0xDC00 + (c - 0x10000) mod 1024).

Definition encode_basestring_ascii (s : pystr) : pystr :=
  dquote :: flat_map escape_char s ++ [dquote].

(** A float is printed by [float.__repr__], which is not modelled: the
    literal is emitted as it stands, and the statements about encoded text
    below are about float-free values. *)
Fixpoint dumps (v : json) : pystr :=
  match v with
  | JNull => py "null"
  | JBool true => py "true"
  | JBool false => py "false"
  | JInt n => int_repr n
  | JFloat lit => lit
  | JStr s => encode_basestring_ascii s
  | JArr l =>
      ch "[" ::
      (fix items (l : list json) : pystr :=
         match l with
         | [] => []
         | [x] => dumps x
         | x :: rest => dumps x ++ ch "," :: items rest
         end) l ++ [ch "]"]
  | JObj d =>
      ch "{" ::
      (fix members (d : list (pystr * json)) : pystr :=
         match d with
         | [] => []
         | [(k, x)] => encode_basestring_ascii k ++ ch ":" :: dumps x
         | (k, x) :: rest =>
             encode_basestring_ascii k ++ ch ":" :: dumps x ++ ch "," :: members rest
         end) d ++ [ch "}"]
  end.

(** *** [json.loads(s)], with the default (strict) decoder

    The scanner reads a value at the head of the text and returns it with
    the text that follows. *)

Inductive parsed (A : Type) : Type :=
| Parsed (a : A) (rest : pystr)
| Malformed
| OutOfFuel.
Arguments Parsed {A} a rest.
Arguments Malformed {A}.
Arguments OutOfFuel {A}.

Definition is_ws (c : N) : bool :=
  (c =? 32)%N || (c =? 9)%N || (c =? 10)%N || (c =? 13)%N.

Fixpoint skip_ws (s : pystr) : pystr :=
  match s with
  | c :: r => if is_ws c then skip_ws r else s
  | [] => []
  end.

Definition is_digit (c : N) : bool := (48 <=? c)%N && (c <=? 57)%N.

Fixpoint span_digits (s : pystr) : pystr * pystr :=
  match s with
  | c :: r =>
      if is_digit c then let (ds, rest) := span_digits r in (c :: ds, rest)
      else ([], s)
  | [] => ([], [])
  end.

Definition digit_cons (c : N) (d : Decimal.uint) : Decimal.uint :=
  match (c - 48)%N with
  | 0 => Decimal.D0 d | 1 => Decimal.D1 d | 2 => Decimal.D2 d
  | 3 => Decimal.D3 d | 4 => Decimal.D4 d | 5 => Decimal.D5 d
  | 6 => Decimal.D6 d | 7 => Decimal.D7 d | 8 => Decimal.D8 d
  | _ => Decimal.D9 d
  end%N.

Definition uint_of_chars (s : pystr) : Decimal.uint :=
  fold_right digit_cons Decimal.Nil s.

(** The number pattern: an optional minus sign, then either a single zero or
    a non-zero digit followed by digits; after it a fraction (a dot and at
    least one digit) and an exponent (e or E, an optional sign, at least one
    digit), each taken only where it matches in full. *)
Definition scan_integer (s : pystr) : option (bool * pystr * pystr) :=
  let (neg, s1) := match s with
                   | c :: r => if (c =? ch "-")%N then (true, r) else (false, s)
                   | [] => (false, s)
                   end in
  match s1 with
  | d :: r =>
      if (d =? ch "0")%N then Some (neg, [d], r)
      else if is_digit d then let (ds, rest) := span_digits r in Some (neg, d :: ds, rest)
      else None
  | [] => None
  end.

Definition scan_frac (s : pystr) : pystr * pystr :=
  match s with
  | c :: r =>
      if (c =? ch ".")%N then
        match span_digits r with
        | ([], _) => ([], s)
        | (ds, rest) => (c :: ds, rest)
        end
      else ([], s)
  | [] => ([], s)
  end.

Definition scan_exp (s : pystr) : pystr * pystr :=
  match s with
  | c :: r =>
      if (c =? ch "e")%N || (c =? ch "E")%N then
        let (sign, r1) := match r with
                          | g :: r' => if (g =? ch "-")%N || (g =? ch "+")%N
                                       then ([g], r') else ([], r)
                          | [] => ([], r)
                          end in
        match span_digits r1 with
        | ([], _) => ([], s)
        | (ds, rest) => (c :: sign ++ ds, rest)
        end
      else ([], s)
  | [] => ([], s)
  end.

Definition scan_number (s : pystr) : option (json * pystr) :=
  match scan_integer s with
  | None => None
  | Some (neg, integer, r) =>
      let (frac, r1) := scan_frac r in
      let (exp, r2) := scan_exp r1 in
      match frac, exp with
      | [], [] =>
          let n := Z.of_N (N.of_uint (uint_of_chars integer)) in
          Some (JInt (if neg then (- n)%Z else n), r2)
      | _, _ =>
          Some (JFloat ((if neg then [ch "-"] else []) ++ integer ++ frac ++ exp), r2)
      end
  end.

Definition hexval (c : N) : option N :=
  if (48 <=? c)%N && (c <=? 57)%N then Some (c - 48)%N
  else if (97 <=? c)%N && (c <=? 102)%N then Some (c - 87)%N
  else if (65 <=? c)%N && (c <=? 70)%N then Some (c - 55)%N
  else None.

Definition hex4 (a b c d : N) : option N :=
  match hexval a, hexval b, hexval c, hexval d with
  | Some x, Some y, Some z, Some w => Some (((x * 16 + y) * 16 + z) * 16 + w)%N
  | _, _, _, _ => None
  end.

Definition unescape (e : N) : option N :=
  if (e =? dquote)%N then Some (dquote)
  else if (e =? ch "\")%N then Some (ch "\")
  else if (e =? ch "/")%N then Some (ch "/")
  else if (e =? ch "b")%N then Some 8%N
  else if (e =? ch "f")%N then Some 12%N
  else if (e =? ch "n")%N then Some 10%N
  else if (e =? ch "r")%N then Some 13%N
  else if (e =? ch "t")%N then Some 9%N
  else None.

Definition cons_char (c : N) (r : option (pystr * pystr)) : option (pystr * pystr) :=
  match r with
  | Some (s, rest) => Some (c :: s, rest)
  | None => None
  end.

(** [scanstring], entered after the opening quote.  [None] stands for the
    [JSONDecodeError] of an unterminated string, a raw control character or
    a bad escape. *)
Fixpoint scanstring (s : pystr) : option (pystr * pystr) :=
  match s with
  | [] => None
  | c :: r =>
      if (c =? dquote)%N then Some ([], r)
      else if (c =? ch "\")%N then
        match r with
        | [] => None
        | e :: r1 =>
            if (e =? ch "u")%N then
              match r1 with
              | h1 :: h2 :: h3 :: h4 :: r2 =>
                  match hex4 h1 h2 h3 h4 with
                  | None => None
                  | Some uni =>
                      if is_high_surrogate uni then
                        match r2 with
                        | b :: u :: r3 =>
                            if (b =? ch "\")%N && (u =? ch "u")%N then
                              match r3 with
                              | k1 :: k2 :: k3 :: k4 :: r4 =>
                                  match hex4 k1 k2 k3 k4 with
                                  | None => None
                                  | Some uni2 =>
                                      if is_low_surrogate uni2
                                      then cons_char
                                             (0x10000 + ((uni - 0xD800) * 1024
                                                         + (uni2 - 0xDC00)))%N
                                             (scanstring r4)
                                      else cons_char uni (scanstring r2)
                                  end
                              | _ => None
                              end
                            else cons_char uni (scanstring r2)
                        | _ => cons_char uni (scanstring r2)
                        end
                      else cons_char uni (scanstring r2)
                  end
              | _ => None
              end
            else
              match unescape e with
              | Some c' => cons_char c' (scanstring r1)
              | None => None
              end
        end
      else if (c <? 32)%N then None
      else cons_char c (scanstring r)
  end.

(** [dict(pairs)]: a repeated key keeps its first position and its last
    value. *)
Definition dict_of_pairs (pairs : list (pystr * json)) : dict :=
  dict_update [] pairs.

(** [scan_once], with the array and the object loops.  The fuel bounds the
    depth of the recursion. *)
Fixpoint scan_once (fuel : nat) (s : pystr) {struct fuel} : parsed json :=
  match fuel with
  | O => OutOfFuel
  | S f =>
      match s with
      | [] => Malformed
      | c :: r =>
          if (c =? dquote)%N then
            match scanstring r with
            | Some (str, rest) => Parsed (JStr str) rest
            | None => Malformed
            end
          else if (c =? ch "{")%N then
            match skip_ws r with
            | c1 :: r1 =>
                if (c1 =? ch "}")%N then Parsed (JObj []) r1
                else if (c1 =? dquote)%N then
                  match object_items f r1 with
                  | Parsed pairs rest => Parsed (JObj (dict_of_pairs pairs)) rest
                  | Malformed => Malformed
                  | OutOfFuel => OutOfFuel
                  end
                else Malformed
            | [] => Malformed
            end
          else if (c =? ch "[")%N then
            match skip_ws r with
            | c1 :: r1 =>
                if (c1 =? ch "]")%N then Parsed (JArr []) r1
                else
                  match array_items f (c1 :: r1) with
                  | Parsed vs rest => Parsed (JArr vs) rest
                  | Malformed => Malformed
                  | OutOfFuel => OutOfFuel
                  end
            | [] => Malformed
            end
          else if is_prefix (py "null") s then Parsed JNull (skipn 4 s)
          else if is_prefix (py "true") s then Parsed (JBool true) (skipn 4 s)
          else if is_prefix (py "false") s then Parsed (JBool false) (skipn 5 s)
          else
            match scan_number s with
            | Some (v, rest) => Parsed v rest
            | None =>
                if is_prefix (py "NaN") s then Parsed (JFloat (py "NaN")) (skipn 3 s)
                else if is_prefix (py "Infinity") s
                then Parsed (JFloat (py "Infinity")) (skipn 8 s)
                else if is_prefix (py "-Infinity") s
                then Parsed (JFloat (py "-Infinity")) (skipn 9 s)
                else Malformed
            end
      end
  end

with array_items (fuel : nat) (s : pystr) {struct fuel} : parsed (list json) :=
  match fuel with
  | O => OutOfFuel
  | S f =>
      match scan_once f s with
      | Parsed v r =>
          match skip_ws r with
          | c :: r1 =>
              if (c =? ch "]")%N then Parsed [v] r1
              else if (c =? ch ",")%N then
                match array_items f (skip_ws r1) with
                | Parsed vs rest => Parsed (v :: vs) rest
                | Malformed => Malformed
                | OutOfFuel => OutOfFuel
                end
              else Malformed
          | [] => Malformed
          end
      | Malformed => Malformed
      | OutOfFuel => OutOfFuel
      end
  end

with object_items (fuel : nat) (s : pystr) {struct fuel}
  : parsed (list (pystr * json)) :=
  match fuel with
  | O => OutOfFuel
  | S f =>
      match scanstring s with
      | None => Malformed
      | Some (key, r) =>
          match skip_ws r with
          | c :: r1 =>
              if (c =? ch ":")%N then
                match scan_once f (skip_ws r1) with
                | Parsed v r2 =>
                    match skip_ws r2 with
                    | c2 :: r3 =>
                        if (c2 =? ch "}")%N then Parsed [(key, v)] r3
                        else if (c2 =? ch ",")%N then
                          match skip_ws r3 with
                          | c3 :: r4 =>
                              if (c3 =? dquote)%N then
                                match object_items f r4 with
                                | Parsed kvs rest => Parsed ((key, v) :: kvs) rest
                                | Malformed => Malformed
                                | OutOfFuel => OutOfFuel
                                end
                              else Malformed
                          | [] => Malformed
                          end
                        else Malformed
                    | [] => Malformed
                    end
                | Malformed => Malformed
                | OutOfFuel => OutOfFuel
                end
              else Malformed
          | [] => Malformed
          end
      end
  end.

(** [json.loads]: a leading byte-order mark is refused, white space may
    surround the value, and nothing else may follow it.  The limits of the
    interpreter (the depth of its stack, the digits of an integer literal)
    are not modelled: the scanner gets fuel that always suffices, as
    [loads_never_exhausts] shows, so [RecursionError] does not arise. *)
Definition loads (s : pystr) : result json :=
  if is_prefix [0xFEFF%N] s then Raise JSONDecodeError
  else
    match scan_once (2 * length s + 1) (skip_ws s) with
    | Parsed v rest =>
        match skip_ws rest with
        | [] => Ok v
        | _ :: _ => Raise JSONDecodeError
        end
    | Malformed => Raise JSONDecodeError
    | OutOfFuel => Raise RecursionError
    end.

End Codec.

(** ** The remote store and the state of a session

    The store is reached through the collection manager and the item
    manager of the Etebase client; only what [gliff.py] calls is modelled. *)

Module Store.

(** A collection (project) and an item, as the client holds them. *)
Record Collection : Type := mkCollection {
  uid : pystr;
  content : bytes
}.

Record Item : Type := mkItem {
  item_uid : pystr;
  meta : dict;
  item_content : bytes
}.

(** An item manager is scoped to one collection. *)
Definition ItemManager := pystr.

Record Etebase : Type := mkEtebase {
  collections : list Collection;
  items : list (pystr * Item);      (* owning collection, item *)
  fetched : list pystr;             (* collection fetches served, latest first *)
  minted : nat;                     (* item uids handed out so far *)
  uid_source : nat -> pystr         (* the uid the n-th created item gets *)
}.

Fixpoint find_collection (cs : list Collection) (u : pystr) : option Collection :=
  match cs with
  | [] => None
  | c :: rest => if pystr_eqb (uid c) u then Some c else find_collection rest u
  end.

Fixpoint put_collection (cs : list Collection) (c : Collection) : list Collection :=
  match cs with
  | [] => [c]
  | c' :: rest =>
      if pystr_eqb (uid c') (uid c) then c :: rest else c' :: put_collection rest c
  end.

Fixpoint find_item (its : list (pystr * Item)) (owner u : pystr) : option Item :=
  match its with
  | [] => None
  | (o, it) :: rest =>
      if pystr_eqb o owner && pystr_eqb (item_uid it) u then Some it
      else find_item rest owner u
  end.

Fixpoint put_item (its : list (pystr * Item)) (owner : pystr) (it : Item)
  : list (pystr * Item) :=
  match its with
  | [] => [(owner, it)]
  | (o, it') :: rest =>
      if pystr_eqb o owner && pystr_eqb (item_uid it') (item_uid it)
      then (o, it) :: rest
      else (o, it') :: put_item rest owner it
  end.

End Store.
Export Store.

(** The attributes of an object of class [Project]; its [project_manager]
    is the store's collection manager. *)
Record Project : Type := mkProject {
  project : option Collection;
  item_manager : option ItemManager
}.

Inductive log_entry : Type :=
| LogWarning (msg : string)
| LogError (msg : string) (cause : option exn).

(** What a call can read and change: the [Gliff] object's [project]
    attribute, the store behind the account, the clock and the log.  Of the
    log only warnings and errors are kept. *)
Record World : Type := mkWorld {
  gliff_project : option Project;
  server : Etebase;
  clock : nat -> Z;                (* the successive readings of [time.time()], in ms *)
  ticks : nat;
  logged : list log_entry          (* latest first *)
}.

(** Statements run in a world, return or raise, and leave a world behind;
    what was written before an exception stays written. *)
Definition M (A : Type) : Type := World -> result A * World.

Definition ret {A} (a : A) : M A := fun w => (Ok a, w).
Definition raise {A} (e : exn) : M A := fun w => (Raise e, w).
Definition bind {A B} (c : M A) (k : A -> M B) : M B :=
  fun w => match c w with
           | (Ok a, w') => k a w'
           | (Raise e, w') => (Raise e, w')
           end.
Definition lift {A} (r : result A) : M A := fun w => (r, w).

(** [try: c  except <handler>] *)
Definition try_except {A} (c : M A) (handler : exn -> M A) : M A :=
  fun w => match c w with
           | (Ok a, w') => (Ok a, w')
           | (Raise e, w') => handler e w'
           end.

Notation "x <- c ;; k" := (bind c (fun x => k))
  (at level 61, c at next level, right associativity) : py_scope.
Notation "c ;;; k" := (bind c (fun _ => k))
  (at level 61, right associativity) : py_scope.

Definition get_world : M World := fun w => (Ok w, w).
Definition put_world (w : World) : M unit := fun _ => (Ok tt, w).

Definition log (e : log_entry) : M unit :=
  fun w => (Ok tt, mkWorld (gliff_project w) (server w) (clock w) (ticks w)
                           (e :: logged w)).

Definition set_server (s : Etebase) : M unit :=
  fun w => (Ok tt, mkWorld (gliff_project w) s (clock w) (ticks w) (logged w)).

Definition set_gliff_project (p : option Project) : M unit :=
  fun w => (Ok tt, mkWorld p (server w) (clock w) (ticks w) (logged w)).

(** [x.attr] on an optional object: [AttributeError] on [None]. *)
Definition deref {A} (o : option A) : M A :=
  match o with
  | Some a => ret a
  | None => raise AttributeError
  end.

(** *** The calls into the Etebase client *)

Module Client.

(** [CollectionManager.fetch(uid)] *)
Definition fetch_collection (u : pystr) : M Collection :=
  w <- get_world ;;
  let s := server w in
  set_server (mkEtebase (collections s) (items s) (u :: fetched s) (minted s)
                        (uid_source s)) ;;;
  match find_collection (collections s) u with
  | Some c => ret c
  | None => raise RemoteError
  end.

(** [CollectionManager.transaction(collection)] *)
Definition transaction_collection (c : Collection) : M unit :=
  w <- get_world ;;
  let s := server w in
  set_server (mkEtebase (put_collection (collections s) c) (items s) (fetched s)
                        (minted s) (uid_source s)).

(** [ItemManager.create(meta, content)]: a new item with a uid of its own,
    not yet uploaded. *)
Definition create_item (im : ItemManager) (m : dict) (c : bytes) : M Item :=
  w <- get_world ;;
  let s := server w in
  set_server (mkEtebase (collections s) (items s) (fetched s) (S (minted s))
                        (uid_source s)) ;;;
  ret (mkItem (uid_source s (minted s)) m c).

(** [ItemManager.transaction([item])] *)
Definition transaction_item (im : ItemManager) (it : Item) : M unit :=
  w <- get_world ;;
  let s := server w in
  set_server (mkEtebase (collections s) (put_item (items s) im it) (fetched s)
                        (minted s) (uid_source s)).

(** [ItemManager.fetch(item_uid)] *)
Definition fetch_item (im : ItemManager) (u : pystr) : M Item :=
  w <- get_world ;;
  match find_item (items (server w)) im u with
  | Some it => ret it
  | None => raise RemoteError
  end.

End Client.

(** ** class [Project] *)

Module Project.

Definition self : M Project :=
  w <- get_world ;; deref (gliff_project w).

Definition _fetch_project (project_uid : pystr) : M Collection :=
  Client.fetch_collection project_uid.

Definition _fetch_item_manager (p : Collection) : M ItemManager :=
  ret (uid p).

(** Fetch project data if project is not set or has changed. *)
Definition _fetch_project_data (project_uid : pystr) : M unit :=
  this <- self ;;
  if match project this with
     | None => true
     | Some p => negb (pystr_eqb (uid p) project_uid)
     end
  then
    p <- _fetch_project project_uid ;;
    set_gliff_project (Some (mkProject (Some p) (item_manager this))) ;;;
    im <- _fetch_item_manager p ;;
    set_gliff_project (Some (mkProject (Some p) (Some im)))
  else ret tt.

(** The [content] property: [None] while no project is loaded. *)
Definition content : M (option bytes) :=
  this <- self ;;
  ret (match project this with
       | Some p => Some (Store.content p)
       | None => None
       end).

(** The [content] setter. *)
Definition set_content (new_content : bytes) : M unit :=
  this <- self ;;
  match project this with
  | Some p =>
      let p' := mkCollection (uid p) new_content in
      set_gliff_project (Some (mkProject (Some p') (item_manager this))) ;;;
      Client.transaction_collection p'
  | None => ret tt
  end.

End Project.

(** ** Images: [base64.b64decode] and the calls into PIL *)

Module Base64.

Definition b64val (c : N) : option N :=
  if (65 <=? c)%N && (c <=? 90)%N then Some (c - 65)%N
  else if (97 <=? c)%N && (c <=? 122)%N then Some (c - 71)%N
  else if (48 <=? c)%N && (c <=? 57)%N then Some (c + 4)%N
  else if (c =? 43)%N then Some 62%N
  else if (c =? 47)%N then Some 63%N
  else None.

(** [binascii.a2b_base64] in its default, non-strict mode: characters
    outside the alphabet are skipped, a pad sequence that completes a quad
    ends the input, and an incomplete quad at the end is an error. *)
Fixpoint a2b_base64 (s : bytes) (quad_pos : nat) (leftchar : N) (pads : nat)
  : result bytes :=
  match s with
  | [] => if Nat.eqb quad_pos 0 then Ok [] else Raise BinasciiError
  | c :: r =>
      if (c =? 61)%N then
        if Nat.leb 2 quad_pos then
          if Nat.leb 4 (quad_pos + S pads) then Ok []
          else a2b_base64 r quad_pos leftchar (S pads)
        else a2b_base64 r quad_pos leftchar pads
      else
        match b64val c with
        | None => a2b_base64 r quad_pos leftchar pads
        | Some v =>
            match quad_pos with
            | 0 => a2b_base64 r 1 v 0
            | 1 => tl <-- a2b_base64 r 2 (N.land v 0x0f) 0 ;;
                   Ok (N.land (N.lor (N.shiftl leftchar 2) (N.shiftr v 4)) 0xff :: tl)
            | 2 => tl <-- a2b_base64 r 3 (N.land v 0x03) 0 ;;
                   Ok (N.land (N.lor (N.shiftl leftchar 4) (N.shiftr v 2)) 0xff :: tl)
            | _ => tl <-- a2b_base64 r 0 0%N 0 ;;
                   Ok (N.land (N.lor (N.shiftl leftchar 6) v) 0xff :: tl)
            end
        end
  end.

(** [base64.b64decode(s)] for a [str]: it must be ASCII. *)
Definition b64decode (s : pystr) : result bytes :=
  if forallb (fun c => (c <? 128)%N) s then a2b_base64 s 0 0%N 0
  else Raise ValueError.

(** The character for a six-bit value. *)
Definition b64char (v : N) : N :=
  if (v <? 26)%N then (65 + v)%N
  else if (v <? 52)%N then (71 + v)%N
  else if (v <? 62)%N then (v - 4)%N
  else if (v =? 62)%N then 43%N
  else 47%N.

(** [base64.b64encode(b)]: three octets give four characters, and a last
    group of one or two octets is padded. *)
Fixpoint b64encode (b : bytes) : bytes :=
  match b with
  | [] => []
  | [x] =>
      [b64char (N.shiftr x 2); b64char (N.shiftl (N.land x 3) 4); 61%N; 61%N]
  | [x; y] =>
      [b64char (N.shiftr x 2);
       b64char (N.lor (N.shiftl (N.land x 3) 4) (N.shiftr y 4));
       b64char (N.shiftl (N.land y 15) 2); 61%N]
  | x :: y :: z :: rest =>
      b64char (N.shiftr x 2)
      :: b64char (N.lor (N.shiftl (N.land x 3) 4) (N.shiftr y 4))
      :: b64char (N.lor (N.shiftl (N.land y 15) 2) (N.shiftr z 6))
      :: b64char (N.land z 63)
      :: b64encode rest
  end.

End Base64.

Module Pil.

(** A raster: its [(width, height)] and its bands, mode ["L"] with one band
    or mode ["RGB"] with three. *)
Inductive Image : Type :=
| ImageL (size : N * N) (grey : list N)
| ImageRGB (size : N * N) (red green blue : list N).

Definition size_of (i : Image) : N * N :=
  match i with
  | ImageL s _ => s
  | ImageRGB s _ _ _ => s
  end.

(** [img.convert("RGB")] *)
Definition convert_rgb (i : Image) : Image :=
  match i with
  | ImageL s g => ImageRGB s g g g
  | ImageRGB _ _ _ _ => i
  end.

(** [img.getchannel(n)] *)
Definition getchannel (i : Image) (n : nat) : result Image :=
  match i, n with
  | ImageL s g, 0 => Ok (ImageL s g)
  | ImageRGB s r _ _, 0 => Ok (ImageL s r)
  | ImageRGB s _ g _, 1 => Ok (ImageL s g)
  | ImageRGB s _ _ b, 2 => Ok (ImageL s b)
  | _, _ => Raise ValueError
  end.

Definition size_eqb (a b : N * N) : bool :=
  N.eqb (fst a) (fst b) && N.eqb (snd a) (snd b).

(** [Image.merge("RGB", (r, g, b))] *)
Definition merge_rgb (r g b : Image) : result Image :=
  match r, g, b with
  | ImageL s1 p1, ImageL s2 p2, ImageL s3 p3 =>
      if size_eqb s1 s2 && size_eqb s1 s3 then Ok (ImageRGB s1 p1 p2 p3)
      else Raise ValueError
  | _, _, _ => Raise ValueError
  end.

End Pil.
Export Pil.

(** ** class [Gliff] *)

Module Gliff.

Import Codec.

(** Extract and decode project's or item's content, from binary to Dict. *)
Definition _decode_content (content : bytes) : M json :=
  try_except
    (lift (s <-- bytes_decode content ;; loads s))
    (fun e => match e with
              | JSONDecodeError =>
                  log (LogWarning "Error while accessing the project's content") ;;;
                  ret JNull
              | _ => raise e
              end).

(** Encode project's or item's content, from Dict to binary. *)
Definition _encode_content (decoded_content : json) : result bytes :=
  str_encode (dumps decoded_content).

Definition get_current_time : M Z :=
  w <- get_world ;;
  put_world (mkWorld (gliff_project w) (server w) (clock w) (S (ticks w)) (logged w)) ;;;
  ret (clock w (ticks w)).

(** Check whether an annotation is empty.  The three tests are joined by
    [&], so each of them is evaluated. *)
Definition is_empty_annotation (annotation : json) : result bool :=
  a <-- (spline <-- getitem annotation (py "spline") ;;
         coordinates <-- getitem spline (py "coordinates") ;;
         n <-- py_len coordinates ;;
         Ok (Nat.eqb n 0)) ;;
  b <-- (strokes <-- getitem annotation (py "brushStrokes") ;;
         n <-- py_len strokes ;;
         Ok (Nat.eqb n 0)) ;;
  c <-- (box <-- getitem annotation (py "boundingBox") ;;
         coordinates <-- getitem box (py "coordinates") ;;
         top_left <-- getitem coordinates (py "topLeft") ;;
         x <-- getitem top_left (py "x") ;;
         Ok (is_none x)) ;;
  Ok (a && b && c).

Definition space_time_origin : json :=
  JObj [(py "z", JInt 0); (py "t", JInt 0)].

Definition default_brush : json :=
  JObj [(py "radius", JFloat (py "0.5")); (py "type", JStr (py "paint"));
        (py "color", JStr (py "rgba(170, 0, 0, 0.5)")); (py "is3D", JBool false)].

Definition create_brush_stroke (coordinates space_time_info brush : json) : json :=
  JObj [(py "coordinates", coordinates); (py "spaceTimeInfo", space_time_info);
        (py "brush", brush)].

Definition create_spline (coordinates space_time_info : json) (is_closed : bool) : json :=
  JObj [(py "coordinates", coordinates); (py "spaceTimeInfo", space_time_info);
        (py "isClosed", JBool is_closed)].

Definition create_bounding_box (top_left bottom_right space_time_info : json) : json :=
  JObj [(py "coordinates",
         JObj [(py "topLeft", top_left); (py "bottomRight", bottom_right)]);
        (py "spaceTimeInfo", space_time_info)].

Definition create_xypoint (x y : json) : json :=
  JObj [(py "x", x); (py "y", y)].

(** The defaults of [create_annotation] for [spline] and [bounding_box]. *)
Definition default_spline : json :=
  create_spline (JArr []) space_time_origin false.

Definition default_bounding_box : json :=
  create_bounding_box (create_xypoint JNull JNull) (create_xypoint JNull JNull)
                      space_time_origin.

Definition create_annotation (toolbox : pystr) (labels : list pystr)
    (spline bounding_box brush_strokes parameters : json) : json :=
  JObj [(py "toolbox", JStr toolbox); (py "labels", JArr (map JStr labels));
        (py "spline", spline); (py "boundingBox", bounding_box);
        (py "brushStrokes", brush_strokes); (py "parameters", parameters)].

Definition _has_project : M bool :=
  w <- get_world ;;
  match gliff_project w with
  | None =>
      log (LogWarning "Please log in to a STORE account to use this method.") ;;;
      ret false
  | Some _ => ret true
  end.

(** Retrieve a project's item; [None] without a session or when the fetch
    raises. *)
Definition get_project_item (project_uid : pystr) (item_uid : json) : M (option Item) :=
  ok <- _has_project ;;
  if negb ok then ret None
  else
    Project._fetch_project_data project_uid ;;;
    try_except
      (this <- Project.self ;;
       im <- deref (item_manager this) ;;
       u <- lift (match item_uid with JStr u => Ok u | _ => Raise TypeError end) ;;
       item <- Client.fetch_item im u ;;
       ret (Some item))
      (fun e => log (LogError "error while fetching image" (Some e)) ;;; ret None).

(** Create gallery tile with data to update. *)
Definition _create_tile_update (image_labels : option (list pystr))
    (metadata annotation_uid audit_uid annotation_complete : dict) : dict :=
  let tile := [(py "fileInfo", JObj metadata);
               (py "annotationUID", JObj annotation_uid);
               (py "auditUID", JObj audit_uid);
               (py "annotationComplete", JObj annotation_complete)] in
  match image_labels with
  | Some labels => dict_set tile (py "imageLabels") (JArr (map JStr labels))
  | None => tile
  end.

(** Create new gallery tile. *)
Definition _create_new_tile (image_item_uid thumbnail : pystr)
    (image_labels : list pystr)
    (metadata annotation_uid audit_uid annotation_complete : dict) : json :=
  JObj [(py "id", JStr image_item_uid);
        (py "thumbnail", JStr thumbnail);
        (py "imageLabels", JArr (map JStr image_labels));
        (py "fileInfo", JObj metadata);
        (py "imageUID", JStr image_item_uid);
        (py "annotationUID", JObj annotation_uid);
        (py "auditUID", JObj audit_uid);
        (py "annotationComplete", JObj annotation_complete)].

Definition _get_gallery : M json :=
  c <- Project.content ;;
  b <- deref c ;;                     (* [None.decode()] *)
  _decode_content b.

Fixpoint find_tile_from (i : nat) (tiles : list json) (id : pystr)
  : result (option nat) :=
  match tiles with
  | [] => Ok None
  | tile :: rest =>
      tid <-- getitem tile (py "id") ;;
      if eq_str tid id then Ok (Some i) else find_tile_from (S i) rest id
  end.

(** Get the index for the gallery tile corresponding to the image item. *)
Definition _find_gallery_tile (gallery : json) (id : pystr) : result (option nat) :=
  tiles <-- iterate gallery ;;
  find_tile_from 0 tiles id.

Definition _set_gallery (gallery : json) : M unit :=
  b <- lift (_encode_content gallery) ;;
  Project.set_content b.

(** A keyword parameter that defaults to [None]. *)
Definition kwarg (kwargs : dict) (name : string) : json :=
  match dict_get kwargs (py name) with
  | Some v => v
  | None => JNull
  end.

(** [target.update(other)]; the [other] that reach it here are the dicts
    that [_create_tile_update] builds. *)
Definition method_update (target other : json) : result json :=
  match target, other with
  | JObj d, JObj o => Ok (JObj (dict_update d o))
  | JObj _, _ => Raise TypeError
  | _, _ => Raise AttributeError
  end.

Definition update_field (tile : dict) (field : string) (patch : json) : result dict :=
  old <-- getitem (JObj tile) (py field) ;;
  new <-- method_update old patch ;;
  Ok (dict_set tile (py field) new).

(** The local function [update_tile(tile, metadata=None, annotationUID=None,
    auditUID=None, annotationComplete=None, imageLabels=None, **kwargs)],
    called as [update_tile(tile, **tile_data)]: each parameter takes the
    entry of [tile_data] that bears its name, and the other entries land in
    [kwargs], which the body does not read. *)
Definition update_tile (tile : dict) (tile_data : dict) : result dict :=
  let metadata := kwarg tile_data "metadata" in
  let annotationUID := kwarg tile_data "annotationUID" in
  let auditUID := kwarg tile_data "auditUID" in
  let annotationComplete := kwarg tile_data "annotationComplete" in
  let imageLabels := kwarg tile_data "imageLabels" in
  tile <-- (if negb (is_none metadata)
            then update_field tile "fileInfo" metadata else Ok tile) ;;
  tile <-- (if negb (is_none annotationUID)
            then update_field tile "annotationUID" annotationUID else Ok tile) ;;
  tile <-- (if negb (is_none auditUID)
            then update_field tile "auditUID" auditUID else Ok tile) ;;
  tile <-- (if negb (is_none annotationComplete)
            then
              let tile := if negb (dict_mem tile (py "annotationComplete"))
                          then dict_set tile (py "annotationComplete") (JObj [])
                          else tile in
              update_field tile "annotationComplete" annotationComplete
            else Ok tile) ;;
  Ok (if negb (is_none imageLabels)
      then dict_set tile (py "imageLabels") imageLabels else tile).

(** [gallery[tile_index]] where the index is what [_find_gallery_tile]
    returned. *)
Definition getitem_index (gallery : json) (tile_index : option nat) : result json :=
  match tile_index with
  | Some i => getitem_nat gallery i
  | None => match gallery with
            | JObj _ => Raise KeyError
            | _ => Raise TypeError
            end
  end.

(** [{**v}] *)
Definition dict_copy (v : json) : result dict :=
  match v with
  | JObj d => Ok d
  | _ => Raise TypeError
  end.

Fixpoint list_set (l : list json) (i : nat) (x : json) : option (list json) :=
  match l, i with
  | [], _ => None
  | _ :: rest, 0 => Some (x :: rest)
  | y :: rest, S j => match list_set rest j x with
                      | Some rest' => Some (y :: rest')
                      | None => None
                      end
  end.

(** [gallery[tile_index] = tile]; an index that is a number was found in a
    list. *)
Definition setitem_index (gallery : json) (tile_index : option nat) (tile : json)
  : result json :=
  match gallery, tile_index with
  | JArr l, Some i => match list_set l i tile with
                      | Some l' => Ok (JArr l')
                      | None => Raise IndexError
                      end
  | _, _ => Raise TypeError
  end.

(** Update a tile in the STORE project. *)
Definition _update_gallery_tile (item_uid : pystr) (tile_data : dict) : M unit :=
  try_except
    (gallery <- _get_gallery ;;
     tile_index <- lift (_find_gallery_tile gallery item_uid) ;;
     old <- lift (getitem_index gallery tile_index) ;;
     copy <- lift (dict_copy old) ;;
     tile <- lift (update_tile copy tile_data) ;;
     gallery <- lift (setitem_index gallery tile_index (JObj tile)) ;;
     _set_gallery gallery)
    (fun e => log (LogError "Error while updating a gallery's tile" (Some e))).

(** [for i in range(n)], collecting what the body yields. *)
Fixpoint for_range {A} (n i : nat) (body : nat -> result A) : result (list A) :=
  match n with
  | O => Ok []
  | S n' => x <-- body i ;; xs <-- for_range n' (S i) body ;; Ok (x :: xs)
  end.

Section WithImageCodec.

(** [Image.open(BytesIO(b))], the decoder of the raster formats PIL knows;
    it raises [UnidentifiedImageError] on anything else. *)
Variable image_open : bytes -> result Image.

(** Convert a base64-encoded image into a PIL Image object. *)
Definition base64_to_pil_image (img_base64 : pystr) : result Image :=
  img_bytes <-- Base64.b64decode img_base64 ;;
  img <-- image_open img_bytes ;;
  Ok (convert_rgb img).

(** [base64_to_pil_image(decoded_content[i_slice][i_channel])] *)
Definition decode_channel (decoded_content : json) (i_slice i_channel : nat)
  : result Image :=
  row <-- getitem_nat decoded_content i_slice ;;
  x <-- getitem_nat row i_channel ;;
  match x with
  | JStr s => base64_to_pil_image s
  | _ => Raise TypeError
  end.

Definition decode_slice (decoded_content : json) (i_slice : nat)
  : result (list Image) :=
  row <-- getitem_nat decoded_content i_slice ;;
  m <-- py_len row ;;
  for_range m 0 (decode_channel decoded_content i_slice).

(** [[img.getchannel(i) for i, img in enumerate(images)]] *)
Fixpoint channels_from (i : nat) (images : list Image) : result (list Image) :=
  match images with
  | [] => Ok []
  | img :: rest =>
      c <-- getchannel img i ;; cs <-- channels_from (S i) rest ;; Ok (c :: cs)
  end.

(** Get the image data from an image item. *)
Definition get_image_data (project_uid item_uid : pystr) : M (option Image) :=
  ok <- _has_project ;;
  if negb ok then ret None
  else
    Project._fetch_project_data project_uid ;;;
    try_except
      (item <- get_project_item project_uid (JStr item_uid) ;;
       it <- deref item ;;
       decoded_content <- _decode_content (item_content it) ;;
       image_data <- lift (n <-- py_len decoded_content ;;
                           for_range n 0 (decode_slice decoded_content)) ;;
       first <- lift (match image_data with
                      | x :: _ => Ok x
                      | [] => Raise IndexError
                      end) ;;
       match first with
       | [img] => ret (Some img)
       | [_; _; _] =>
           cs <- lift (channels_from 0 first) ;;
           match cs with
           | [red; green; blue] =>
               image_pil <- lift (merge_rgb red green blue) ;;
               ret (Some image_pil)
           | _ => raise ValueError
           end
       | _ =>
           log (LogError "Images with {num_channels} channels are not supported." None) ;;;
           ret None
       end)
      (fun e =>
         log (LogError "Error while fetching an item's image data" (Some e)) ;;;
         ret None).

End WithImageCodec.

Fixpoint find_annotation_uid (tiles : list json) (image_item_uid username : pystr)
  : result json :=
  match tiles with
  | [] => Ok JNull
  | tile :: rest =>
      tid <-- getitem tile (py "id") ;;
      if eq_str tid image_item_uid then
        uids <-- getitem tile (py "annotationUID") ;;
        present <-- contains_str uids username ;;
        if present then getitem uids username
        else find_annotation_uid rest image_item_uid username
      else find_annotation_uid rest image_item_uid username
  end.

(** The uid of the annotation item of [username] for the image, or [None]. *)
Definition _get_annotation_uid (project_uid image_item_uid username : pystr) : M json :=
  ok <- _has_project ;;
  if negb ok then ret JNull
  else
    Project._fetch_project_data project_uid ;;;
    gallery <- _get_gallery ;;
    tiles <- lift (iterate gallery) ;;
    lift (find_annotation_uid tiles image_item_uid username).

(** Create, encrypt and upload a new annotation item. *)
Definition _create_annotation_item (project_uid image_item_uid username : pystr)
    (annotations : list json) (metadata : dict) : M json :=
  ok <- _has_project ;;
  if negb ok then ret JNull
  else
    Project._fetch_project_data project_uid ;;;
    ctime <- get_current_time ;;
    let item_metadata := [(py "type", JStr (py "gliff.annotation"));
                          (py "createdTime", JInt ctime);
                          (py "modifiedTime", JInt ctime);
                          (py "isComplete", JBool false)] in
    item_content <- lift (_encode_content (JArr annotations)) ;;
    this <- Project.self ;;
    im <- deref (item_manager this) ;;
    item <- Client.create_item im item_metadata item_content ;;
    Client.transaction_item im item ;;;
    let tile_data := _create_tile_update None metadata
                       [(username, JStr (item_uid item))] []
                       [(username, JBool false)] in
    _update_gallery_tile image_item_uid tile_data ;;;
    ret (JStr (item_uid item)).

(** [v.pop()] *)
Definition method_pop (v : json) : result json :=
  match v with
  | JArr [] => Raise IndexError
  | JArr l => Ok (JArr (removelast l))
  | JObj _ => Raise TypeError
  | _ => Raise AttributeError
  end.

(** Update an annotation item.  The test before [pop] reads
    [len(prev_annotations) > 0 & self.is_empty_annotation(prev_annotations[-1])],
    in which [&] binds tighter than [>]. *)
Definition _update_annotation_item (project_uid image_item_uid : pystr)
    (annotation_item_uid : json) (annotations : list json) (metadata : dict) : M json :=
  ok <- _has_project ;;
  if negb ok then ret JNull
  else
    Project._fetch_project_data project_uid ;;;
    item <- get_project_item project_uid annotation_item_uid ;;
    it <- deref item ;;
    prev_annotations <- _decode_content (item_content it) ;;
    n <- lift (py_len prev_annotations) ;;
    last <- lift (getitem_last prev_annotations) ;;
    empty <- lift (is_empty_annotation last) ;;
    prev_annotations <- (if (Z.land 0 (Z.b2z empty) <? Z.of_nat n)%Z
                         then lift (method_pop prev_annotations)
                         else ret prev_annotations) ;;
    now <- get_current_time ;;
    let new_meta := dict_set (meta it) (py "modifiedTime") (JInt now) in
    kept <- lift (iterate prev_annotations) ;;
    new_content <- lift (_encode_content (JArr (kept ++ annotations))) ;;
    this <- Project.self ;;
    im <- deref (item_manager this) ;;
    Client.transaction_item im (mkItem (item_uid it) new_meta new_content) ;;;
    (if negb (Nat.eqb (length metadata) 0)
     then _update_gallery_tile image_item_uid (_create_tile_update None metadata [] [] [])
     else ret tt) ;;;
    ret (JStr (item_uid it)).

(** Encrypt and upload an annotation to the STORE project. *)
Definition upload_annotation (project_uid image_item_uid username : pystr)
    (annotations : list json) (metadata : dict) : M json :=
  annotation_item_uid <- _get_annotation_uid project_uid image_item_uid username ;;
  if is_none annotation_item_uid
  then _create_annotation_item project_uid image_item_uid username annotations metadata
  else
    _update_annotation_item project_uid image_item_uid annotation_item_uid
                            annotations metadata ;;;
    ret annotation_item_uid.

(** Get all the annotations from an annotation item. *)
Definition get_annotations (project_uid image_item_uid username : pystr) : M json :=
  ok <- _has_project ;;
  if negb ok then ret JNull
  else
    Project._fetch_project_data project_uid ;;;
    try_except
      (annotation_item_uid <- _get_annotation_uid project_uid image_item_uid username ;;
       if negb (is_none annotation_item_uid)
       then
         item <- get_project_item project_uid annotation_item_uid ;;
         it <- deref item ;;
         _decode_content (item_content it)
       else ret JNull)
      (fun e =>
         log (LogError "Error while fetching an item's annotations" (Some e)) ;;;
         ret JNull).

(** [v.append(x)] *)
Definition method_append (v x : json) : result json :=
  match v with
  | JArr l => Ok (JArr (l ++ [x]))
  | _ => Raise AttributeError
  end.

(** Create, encrypt and upload a new tile to the STORE project. *)
Definition _create_gallery_tile (tile : json) : M unit :=
  try_except
    (gallery <- _get_gallery ;;
     gallery <- lift (method_append gallery tile) ;;
     _set_gallery gallery)
    (fun e => log (LogError "Error while creating a gallery's tile" (Some e))).

(** Retrieve an image's metadata and image-wise labels. *)
Definition get_metadata_and_labels (project_uid item_uid : pystr)
  : M (option (json * json)) :=
  ok <- _has_project ;;
  if negb ok then ret None
  else
    Project._fetch_project_data project_uid ;;;
    try_except
      (gallery <- _get_gallery ;;
       index <- lift (_find_gallery_tile gallery item_uid) ;;
       tile <- lift (getitem_index gallery index) ;;
       file_info <- lift (getitem tile (py "fileInfo")) ;;
       tile <- lift (getitem_index gallery index) ;;
       image_labels <- lift (getitem tile (py "imageLabels")) ;;
       ret (Some (file_info, image_labels)))
      (fun e =>
         log (LogError "error while retrieving image item's metadata" (Some e)) ;;;
         ret None).

(** Update the metadata and the labels of an image.  The guard reads
    [(not metadata and not image_labels) or not self._has_project()], so
    the session is looked at only when there is something to update; an
    empty list of labels counts as none. *)
Definition update_metadata_and_labels (project_uid item_uid : pystr)
    (image_labels : option (list pystr)) (metadata : dict) : M unit :=
  let no_labels := match image_labels with
                   | None | Some [] => true
                   | Some (_ :: _) => false
                   end in
  if Nat.eqb (length metadata) 0 && no_labels then ret tt
  else
    ok <- _has_project ;;
    if negb ok then ret tt
    else
      Project._fetch_project_data project_uid ;;;
      item <- get_project_item project_uid (JStr item_uid) ;;
      it <- deref item ;;
      now <- get_current_time ;;
      let new_meta := dict_set (meta it) (py "modifiedTime") (JInt now) in
      this <- Project.self ;;
      im <- deref (item_manager this) ;;
      Client.transaction_item im
        (mkItem (Store.item_uid it) new_meta (item_content it)) ;;;
      _update_gallery_tile item_uid (_create_tile_update image_labels metadata [] [] []).

(** What [upload_image] can be handed as the image: a PIL image, a string,
    or something else. *)
Inductive image_argument : Type :=
| PilImage (img : Image)
| Base64Str (s : pystr)
| OtherObject.

(** The dict that [_process_image_data] returns. *)
Record image_data : Type := mkImageData {
  width : N;
  height : N;
  thumbnail : pystr;
  encoded_image : bytes
}.

Section WithImageLibrary.

(** The calls into PIL: [Image.open], saving as PNG into a buffer, and
    [img.thumbnail((128, 128), Image.ANTIALIAS)], which shrinks the image in
    place. *)
Variable image_open : bytes -> result Image.
Variable save_png : Image -> bytes.
Variable shrink : Image -> Image.

(** Convert a PIL Image object to a base64-encoded image. *)
Definition pil_to_base64_image (img_pil : Image) (is_thumbnail : bool) : pystr :=
  let img_base64 := Base64.b64encode (save_png img_pil) in
  if is_thumbnail then py "data:image/png;base64," ++ img_base64 else img_base64.

(** Get base64-encoded thumbnail from PIL image.  The image object is
    shrunk in place, so the shrunk image is returned with the string. *)
Definition _get_thumbnail_from_pil_image (img_pil : Image) : pystr * Image :=
  let small := shrink img_pil in
  (pil_to_base64_image small true, small).

(** Measure the image, make its thumbnail and encode it.  The size is read
    before the thumbnail is made. *)
Definition _process_image_data (image : image_argument) : M (option image_data) :=
  checked <- match image with
             | PilImage img => ret (Some (img, pil_to_base64_image img false))
             | Base64Str s =>
                 image_pil <- lift (base64_to_pil_image image_open s) ;;
                 ret (Some (image_pil, s))
             | OtherObject =>
                 log (LogError "image should be of type PIL.Image.Image or str" None) ;;;
                 ret None
             end ;;
  match checked with
  | None => ret None
  | Some (image_pil, image) =>
      let (w, h) := size_of image_pil in
      encoded <- lift (_encode_content (JArr [JArr [JStr image]])) ;;
      ret (Some (mkImageData w h (fst (_get_thumbnail_from_pil_image image_pil))
                             encoded))
  end.

(** Create, encrypt and upload a new image item to the STORE project. *)
Definition upload_image (project_uid name : pystr) (image : image_argument)
    (image_labels : list pystr) (metadata : dict) : M json :=
  ok <- _has_project ;;
  if negb ok then ret JNull
  else
    Project._fetch_project_data project_uid ;;;
    processed <- _process_image_data image ;;
    match processed with
    | None => ret JNull
    | Some data =>
        ctime <- get_current_time ;;
        let item_metadata := [(py "type", JStr (py "gliff.image"));
                              (py "imageName", JStr name);
                              (py "createdTime", JInt ctime);
                              (py "modifiedTime", JInt ctime)] in
        this <- Project.self ;;
        im <- deref (item_manager this) ;;
        item <- Client.create_item im item_metadata (encoded_image data) ;;
        Client.transaction_item im item ;;;
        let new_tile :=
          _create_new_tile (item_uid item) (thumbnail data) image_labels
            (dict_update [(py "imageName", JStr name);
                          (py "width", JInt (Z.of_N (width data)));
                          (py "height", JInt (Z.of_N (height data)))]
                         metadata)
            [] [] [] in
        _create_gallery_tile new_tile ;;;
        ret (JStr (item_uid item))
    end.

End WithImageLibrary.

End Gliff.

(** ** A small project to run the operations on *)

Module Scenario.

Import Codec Gliff.

Definition proj : pystr := py "proj".
Definition img1 : pystr := py "img1".
Definition bob : pystr := py "bob".

(** A bounding-box annotation; it is not empty. *)
Definition box_annotation (x : Z) : json :=
  create_annotation (py "boundingBox") [py "cell"] default_spline
    (create_bounding_box (create_xypoint (JInt x) (JInt 1))
                         (create_xypoint (JInt 5) (JInt 6)) space_time_origin)
    (JArr []) (JObj []).

Definition ann1 : json := box_annotation 1.
Definition ann2 : json := box_annotation 2.

(** [create_annotation("paintbrush")], every other argument at its
    default: the placeholder the interface saves. *)
Definition empty_annotation : json :=
  create_annotation (py "paintbrush") [] default_spline default_bounding_box
                    (JArr []) (JObj []).

(** The tile of an uploaded image whose [fileInfo] is [{"b": 2}]. *)
Definition tile1 : json :=
  _create_new_tile img1 (py "data:image/png;base64,AAAA") [py "cat"]
                   [(py "b", JInt 2)] [] [] [].

Definition encoded (v : json) : bytes :=
  match _encode_content v with
  | Ok b => b
  | Raise _ => []
  end.

Definition item_name (n : nat) : pystr := py "item" ++ int_repr (Z.of_nat n).

(** A session that has logged in and not yet opened the project, whose
    gallery holds [tile1] alone. *)
Definition world0 : World :=
  mkWorld (Some (mkProject None None))
          (mkEtebase [mkCollection proj (encoded (JArr [tile1]))] [] [] 0 item_name)
          (fun n => 1000 + Z.of_nat n)%Z 0 [].

Definition after {A} (c : M A) (w : World) : World := snd (c w).
Definition outcome {A} (c : M A) (w : World) : result A := fst (c w).

(** The same session once it has opened the project. *)
Definition world_open : World :=
  after (Project._fetch_project_data proj) world0.

(** [bob] has uploaded [[ann1]] for [img1]. *)
Definition world1 : World :=
  after (upload_annotation proj img1 bob [ann1] []) world0.

(** [bob] has uploaded [[ann1, empty_annotation]] for [img1]. *)
Definition world1e : World :=
  after (upload_annotation proj img1 bob [ann1; empty_annotation] []) world0.

(** [bob] has uploaded the empty list for [img1]. *)
Definition world_blank : World :=
  after (upload_annotation proj img1 bob [] []) world0.

(** The gallery as the store holds it. *)
Definition stored_gallery (w : World) : result json :=
  match find_collection (collections (server w)) proj with
  | Some c => s <-- bytes_decode (content c) ;; loads s
  | None => Raise RemoteError
  end.

(** The record of an annotation item as the store holds it. *)
Definition stored_record (w : World) (u : pystr) : result json :=
  match find_item (items (server w)) proj u with
  | Some it => s <-- bytes_decode (item_content it) ;; loads s
  | None => Raise RemoteError
  end.

(** The header [pil_to_base64_image] puts before a thumbnail. *)
Definition data_uri_header : pystr := py "data:image/png;base64,".

(** A raster format for the examples: a file is one row of grey pixels. *)
Definition row_open (b : bytes) : result Image :=
  match b with
  | [] => Raise UnidentifiedImageError
  | _ => Ok (ImageL (N.of_nat (length b), 1%N) b)
  end.

(** An image item with the given channels in its single slice. *)
Definition world_with_image (channels : list pystr) : World :=
  mkWorld (Some (mkProject None None))
          (mkEtebase [mkCollection proj (encoded (JArr [tile1]))]
                     [(proj, mkItem img1 [(py "type", JStr (py "gliff.image"))]
                                    (encoded (JArr [JArr (map JStr channels)])))]
                     [] 1 item_name)
          (fun n => 1000 + Z.of_nat n)%Z 0 [].

End Scenario.

(** ** Notions the statements below are phrased with *)

Module Notions.

Import Codec.


(** The position in the quad after [n] more characters of the alphabet. *)
Fixpoint advance (quad_pos n : nat) : nat :=
  match n with
  | O => quad_pos
  | S n' => advance (match quad_pos with 0 => 1 | 1 => 2 | 2 => 3 | _ => 0 end) n'
  end.

(** The characters of the alphabet in a text. *)
Definition data_chars (s : bytes) : bytes :=
  filter (fun c => match Base64.b64val c with Some _ => true | None => false end) s.

(** What a scan of [s] may return when the fuel suffices: a value with a
    strictly shorter rest, or a refusal. *)
Definition sound_scan {A} (s : pystr) (p : parsed A) : Prop :=
  match p with
  | Parsed _ r => length r < length s
  | Malformed => True
  | OutOfFuel => False
  end.

(** Induction on values, with the hypothesis available for the items of a
    list and the values of a dict. *)
Section JsonInduction.

Variable P : json -> Prop.
Hypothesis HNull : P JNull.
Hypothesis HBool : forall b, P (JBool b).
Hypothesis HInt : forall n, P (JInt n).
Hypothesis HFloat : forall lit, P (JFloat lit).
Hypothesis HStr : forall s, P (JStr s).
Hypothesis HArr : forall l, Forall P l -> P (JArr l).
Hypothesis HObj : forall d, Forall (fun kv => P (snd kv)) d -> P (JObj d).

Fixpoint json_induction (v : json) : P v :=
  match v with
  | JNull => HNull
  | JBool b => HBool b
  | JInt n => HInt n
  | JFloat lit => HFloat lit
  | JStr s => HStr s
  | JArr l =>
      HArr ((fix all (l : list json) : Forall P l :=
               match l with
               | [] => Forall_nil _
               | x :: rest => Forall_cons x (json_induction x) (all rest)
               end) l)
  | JObj d =>
      HObj ((fix all (d : list (pystr * json)) : Forall (fun kv => P (snd kv)) d :=
               match d with
               | [] => Forall_nil _
               | kv :: rest => Forall_cons kv (json_induction (snd kv)) (all rest)
               end) d)
  end.

End JsonInduction.

(** A code point that is a Unicode scalar value: in range and no
    surrogate. *)
Definition is_scalar (c : N) : bool :=
  (c <? 0x110000)%N && negb (is_surrogate c).

Fixpoint distinct (ks : list pystr) : bool :=
  match ks with
  | [] => true
  | k :: rest => negb (existsb (pystr_eqb k) rest) && distinct rest
  end.

(** The JSON-compatible values of the round trip: [None], booleans,
    integers, strings of Unicode text, lists of such values, and dicts
    from such strings to such values.  The keys of a dict are distinct, as
    they are in any Python dict; floats are left out, since their printing
    is not modelled. *)
Fixpoint json_compatible (v : json) : bool :=
  match v with
  | JNull | JBool _ | JInt _ => true
  | JFloat _ => false
  | JStr s => forallb is_scalar s
  | JArr l => forallb json_compatible l
  | JObj d =>
      distinct (map fst d)
      && forallb (fun kv => forallb is_scalar (fst kv) && json_compatible (snd kv)) d
  end.

(** What may follow a number in a text for the number to end there. *)
Definition ends_number (rest : pystr) : Prop :=
  match rest with
  | [] => True
  | c :: _ => c = ch "," \/ c = ch "]" \/ c = ch "}"
  end.

(** The text of the items of a list and of the members of a dict, as
    [dumps] lays them out between the brackets. *)
Fixpoint dumps_items (l : list json) : pystr :=
  match l with
  | [] => []
  | [x] => dumps x
  | x :: rest => dumps x ++ ch "," :: dumps_items rest
  end.

Fixpoint dumps_members (d : list (pystr * json)) : pystr :=
  match d with
  | [] => []
  | [(k, x)] => encode_basestring_ascii k ++ ch ":" :: dumps x
  | (k, x) :: rest =>
      encode_basestring_ascii k ++ ch ":" :: dumps x
      ++ ch "," :: dumps_members rest
  end.

(** Whether a text begins with a digit. *)
Definition starts_with_digit (s : pystr) : bool :=
  match s with
  | c :: _ => is_digit c
  | [] => false
  end.

(** The first character of an encoded value: what the scanner dispatches
    on. *)
Definition opens_value (c : N) : Prop :=
  c = 110%N \/ c = 116%N \/ c = 102%N \/ c = 45%N \/ is_digit c = true
  \/ c = 34%N \/ c = 91%N \/ c = 123%N.

(** What the round trip asks of a value [v]: the scanner reads [v] back from
    the head of any text that continues after [dumps v] with a delimiter. *)
Definition reads_back (v : json) : Prop :=
  json_compatible v = true ->
  forall f rest,
    2 * length (dumps v) + 1 <= f -> ends_number rest ->
    scan_once f (dumps v ++ rest) = Parsed v rest.

(** Whether a text is ASCII. *)
Definition ascii_text (s : pystr) : bool := forallb (fun c => (c <? 128)%N) s.

(** The white space of a text, and the spaces in the strings of a value. *)
Definition white_space (s : pystr) : pystr := filter is_ws s.

Definition spaces (s : pystr) : nat := length (filter (N.eqb 32) s).

Fixpoint spaces_in (v : json) : nat :=
  match v with
  | JStr s => spaces s
  | JArr l => list_sum (map spaces_in l)
  | JObj d => list_sum (map (fun kv => spaces (fst kv) + spaces_in (snd kv)) d)
  | _ => 0
  end.

(** The world once the open project [c] has been given the content [b] and
    committed. *)
Definition committed (w : World) (c : Collection) (im : option ItemManager)
    (b : bytes) : World :=
  mkWorld (Some (mkProject (Some (mkCollection (uid c) b)) im))
          (mkEtebase (put_collection (collections (server w)) (mkCollection (uid c) b))
                     (items (server w)) (fetched (server w)) (minted (server w))
                     (uid_source (server w)))
          (clock w) (ticks w) (logged w).

(** The world with one more entry in its log. *)
Definition logging (e : log_entry) (w : World) : World :=
  mkWorld (gliff_project w) (server w) (clock w) (ticks w) (e :: logged w).

(** A tile whose id is not [id]. *)
Definition other_tile (id : pystr) (t : json) : Prop :=
  exists tid, getitem t (py "id") = Ok tid /\ eq_str tid id = false.

(** A tile whose id is [id]. *)
Definition tile_of (id : pystr) (t : json) : Prop :=
  exists tid, getitem t (py "id") = Ok tid /\ eq_str tid id = true.

(** What the writes to the gallery leave alone: the items of the store, the
    uids handed out, the fetches served and the clock. *)
Definition same_items (w w' : World) : Prop :=
  items (server w') = items (server w)
  /\ minted (server w') = minted (server w)
  /\ fetched (server w') = fetched (server w)
  /\ uid_source (server w') = uid_source (server w)
  /\ clock w' = clock w
  /\ ticks w' = ticks w.

(** A statement that, from any world, leaves those alone. *)
Definition gallery_only {A} (c : M A) : Prop :=
  forall w, same_items w (snd (c w)).
(** The world once an item has been created with a reading of the clock
    and uploaded. *)
Definition with_new_item (w : World) (im : ItemManager) (it : Item) : World :=
  mkWorld (gliff_project w)
          (mkEtebase (collections (server w)) (put_item (items (server w)) im it)
                     (fetched (server w)) (S (minted (server w)))
                     (uid_source (server w)))
          (clock w) (S (ticks w)) (logged w).

(** The uid that the next created item gets. *)
Definition next_uid (w : World) : pystr := uid_source (server w) (minted (server w)).

(** The metadata [_create_annotation_item] gives a new annotation item. *)
Definition annotation_meta (ctime : Z) : dict :=
  [(py "type", JStr (py "gliff.annotation")); (py "createdTime", JInt ctime);
   (py "modifiedTime", JInt ctime); (py "isComplete", JBool false)].
(** Octets, as [bytes] holds them. *)
Definition octets (b : bytes) : bool := forallb (fun x => (x <? 256)%N) b.

(** A test that holds of every number below [n]. *)
Definition all_below (n : nat) (p : N -> bool) : bool :=
  forallb p (map N.of_nat (seq 0 n)).

(** The four six-bit values that [b64encode] makes of three octets. *)
Definition sextet1 (x : N) : N := N.shiftr x 2.
Definition sextet2 (x y : N) : N := N.lor (N.shiftl (N.land x 3) 4) (N.shiftr y 4).
Definition sextet3 (y z : N) : N := N.lor (N.shiftl (N.land y 15) 2) (N.shiftr z 6).
Definition sextet4 (z : N) : N := N.land z 63.

(** What [a2b_base64] needs of them to put the octets together again. *)
Definition regroups (x y : N) : bool :=
  (sextet1 x <? 64)%N && (sextet2 x y <? 64)%N && (sextet3 x y <? 64)%N
  && (sextet4 x <? 64)%N
  && (N.land (N.lor (N.shiftl (sextet1 x) 2) (N.shiftr (sextet2 x y) 4)) 0xff =? x)%N
  && (N.land (sextet2 x y) 0x0f =? N.shiftr y 4)%N
  && (N.land (N.lor (N.shiftl (N.shiftr x 4) 4) (N.shiftr (sextet3 x y) 2)) 0xff =? x)%N
  && (N.land (sextet3 x y) 0x03 =? N.shiftr y 6)%N
  && (N.land (N.lor (N.shiftl (N.shiftr x 6) 6) (sextet4 x)) 0xff =? x)%N
  && (N.shiftl (N.land x 3) 4 =? sextet2 x 0)%N
  && (N.shiftl (N.land x 15) 2 =? sextet3 x 0)%N.
(** The metadata [upload_image] gives a new image item. *)
Definition image_meta (name : pystr) (ctime : Z) : dict :=
  [(py "type", JStr (py "gliff.image")); (py "imageName", JStr name);
   (py "createdTime", JInt ctime); (py "modifiedTime", JInt ctime)].

(** The [fileInfo] of the tile of a new image: its name and size, then the
    caller's metadata. *)
Definition image_file_info (name : pystr) (size : N * N) (metadata : dict) : dict :=
  dict_update [(py "imageName", JStr name); (py "width", JInt (Z.of_N (fst size)));
               (py "height", JInt (Z.of_N (snd size)))]
              metadata.

(** A raster format for the examples, the other way: the file of a grey
    image is its row of pixels. *)
Definition row_save (i : Image) : bytes :=
  match i with
  | ImageL _ g => g
  | ImageRGB _ r _ _ => r
  end.

(** The world once the store has been asked for the collection [u]. *)
Definition fetching (u : pystr) (w : World) : World :=
  mkWorld (gliff_project w)
          (mkEtebase (collections (server w)) (items (server w))
                     (u :: fetched (server w)) (minted (server w))
                     (uid_source (server w)))
          (clock w) (ticks w) (logged w).

(** The world once the item [it] has been written again with a reading of
    the clock. *)
Definition with_item (w : World) (im : ItemManager) (it : Item) : World :=
  mkWorld (gliff_project w)
          (mkEtebase (collections (server w)) (put_item (items (server w)) im it)
                     (fetched (server w)) (minted (server w))
                     (uid_source (server w)))
          (clock w) (S (ticks w)) (logged w).

(** The warning of [_has_project]. *)
Definition please_log_in : log_entry :=
  LogWarning "Please log in to a STORE account to use this method.".
(** An image for the examples, and the session once it has been uploaded
    to the example project with a label and a piece of metadata. *)
Definition row_image : Image := ImageL (3, 1)%N [10; 200; 255]%N.

Definition world_uploaded : World :=
  Scenario.after
    (Gliff.upload_image Scenario.row_open row_save (fun i => i) Scenario.proj
       (py "a.png")
       (Gliff.PilImage row_image) [py "dog"] [(py "k", JInt 7)])
    Scenario.world_open.

(** The fields of the tile that the upload made. *)
Definition uploaded_tile : dict :=
  [(py "id", JStr (Scenario.item_name 0));
   (py "thumbnail", JStr (Gliff.pil_to_base64_image row_save row_image true));
   (py "imageLabels", JArr [JStr (py "dog")]);
   (py "fileInfo", JObj (image_file_info (py "a.png") (3, 1)%N [(py "k", JInt 7)]));
   (py "imageUID", JStr (Scenario.item_name 0));
   (py "annotationUID", JObj []);
   (py "auditUID", JObj []);
   (py "annotationComplete", JObj [])].

End Notions.
Export Notions.

(** * Properties *)

Import Codec Gliff Scenario.

(** ** The emptiness predicate *)

(** C4: an annotation is empty exactly when its spline has no coordinates,
    it has no brush strokes, and the x of the top-left corner of its
    bounding box is [None]; so changing any one of the three makes it
    non-empty. *)
Theorem is_empty_annotation_iff :
  forall annotation spline box coordinates top_left cs bs x,
    getitem annotation (py "spline") = Ok spline ->
    getitem spline (py "coordinates") = Ok (JArr cs) ->
    getitem annotation (py "brushStrokes") = Ok (JArr bs) ->
    getitem annotation (py "boundingBox") = Ok box ->
    getitem box (py "coordinates") = Ok coordinates ->
    getitem coordinates (py "topLeft") = Ok top_left ->
    getitem top_left (py "x") = Ok x ->
    exists b, is_empty_annotation annotation = Ok b
              /\ (b = true <-> cs = [] /\ bs = [] /\ x = JNull).
Proof.
  intros annotation spline box coordinates top_left cs bs x
         Hs Hc Hb Hbox Hco Htl Hx.
  unfold is_empty_annotation.
  rewrite Hs, Hb, Hbox. cbn [rbind].
  rewrite Hc, Hco. cbn [rbind py_len].
  rewrite Htl. cbn [rbind]. rewrite Hx. cbn [rbind].
  eexists; split; [reflexivity|].
  rewrite !andb_true_iff, !Nat.eqb_eq.
  split.
  - intros [[H1 H2] H3]. repeat split.
    + now destruct cs.
    + now destruct bs.
    + now destruct x.
  - intros (-> & -> & ->). now repeat split.
Qed.

Lemma is_empty_annotation_iff_witness :
  exists b, is_empty_annotation empty_annotation = Ok b
            /\ (b = true <-> @nil json = [] /\ @nil json = [] /\ JNull = JNull).
Proof.
  apply (@is_empty_annotation_iff empty_annotation default_spline default_bounding_box
           (JObj [(py "topLeft", create_xypoint JNull JNull);
                  (py "bottomRight", create_xypoint JNull JNull)])
           (create_xypoint JNull JNull) [] [] JNull); reflexivity.
Defined.

(** ** Facts about the runtime model *)

Lemma pystr_eqb_eq (a b : pystr) : pystr_eqb a b = true <-> a = b.
Proof.
  unfold pystr_eqb. destruct (list_eq_dec N.eq_dec a b); split; congruence.
Qed.

Lemma pystr_eqb_refl (a : pystr) : pystr_eqb a a = true.
Proof. now apply pystr_eqb_eq. Qed.

Lemma pystr_eqb_neq (a b : pystr) : pystr_eqb a b = false <-> a <> b.
Proof.
  unfold pystr_eqb. destruct (list_eq_dec N.eq_dec a b); split; congruence.
Qed.

Lemma find_collection_uid cs u c :
  find_collection cs u = Some c -> uid c = u.
Proof.
  induction cs as [|c' cs IH]; simpl; [discriminate|].
  destruct (pystr_eqb (uid c') u) eqn:E; [|exact IH].
  intros [= <-]. now apply pystr_eqb_eq.
Qed.

(** ** The session cache *)

(** C8: the project and its item manager are fetched exactly when no project
    is cached or the cached uid differs from the requested one.  A call that
    finds the requested project cached leaves everything as it was; any
    other call is served one fetch and replaces the cache; and a second call
    for the same uid changes nothing, so two calls in a row cost at most the
    one fetch of the first. *)
Theorem fetch_project_data_caches :
  forall w this project_uid c,
    gliff_project w = Some this ->
    find_collection (collections (server w)) project_uid = Some c ->
    let w1 := after (Project._fetch_project_data project_uid) w in
    let w2 := after (Project._fetch_project_data project_uid) w1 in
    outcome (Project._fetch_project_data project_uid) w = Ok tt
    /\ outcome (Project._fetch_project_data project_uid) w1 = Ok tt
    /\ w2 = w1
    /\ ((exists p, project this = Some p /\ uid p = project_uid) -> w1 = w)
    /\ (project this = None
        \/ (exists p, project this = Some p /\ uid p <> project_uid) ->
        fetched (server w1) = project_uid :: fetched (server w)
        /\ gliff_project w1 = Some (mkProject (Some c) (Some project_uid))).
Proof.
  intros [gp srv clk tk lg] this u c Hgp Hfind. simpl in Hgp, Hfind. subst gp.
  pose proof (find_collection_uid _ _ Hfind) as Huid.
  assert (Hsecond : forall im lg' f,
            let w' := mkWorld (Some (mkProject (Some c) im))
                        (mkEtebase (collections srv) (items srv) f (minted srv)
                                   (uid_source srv)) clk tk lg' in
            Project._fetch_project_data u w' = (Ok tt, w')).
  { intros im lg' f. unfold Project._fetch_project_data, Project.self, bind,
      get_world, deref, ret. cbn. rewrite Huid, pystr_eqb_refl. reflexivity. }
  assert (Hmiss : forall q im,
            match q with
            | None => true
            | Some p => negb (pystr_eqb (uid p) u)
            end = true ->
            Project._fetch_project_data u
              (mkWorld (Some (mkProject q im)) srv clk tk lg)
            = (Ok tt, mkWorld (Some (mkProject (Some c) (Some u)))
                        (mkEtebase (collections srv) (items srv)
                           (u :: fetched srv) (minted srv) (uid_source srv))
                        clk tk lg)).
  { intros q im Hq.
    unfold Project._fetch_project_data, Project.self, Project._fetch_project,
      Project._fetch_item_manager, Client.fetch_collection, set_server,
      set_gliff_project, bind, get_world, deref, ret, raise.
    cbn. rewrite Hq. cbn. rewrite Hfind. cbn. now rewrite Huid. }
  unfold after, outcome.
  destruct this as [q im]; cbn [project].
  destruct (match q with
            | None => true
            | Some p => negb (pystr_eqb (uid p) u)
            end) eqn:Hq.
  - rewrite (Hmiss q im Hq). cbn [fst snd].
    rewrite (Hsecond (Some u) lg (u :: fetched srv)). cbn [fst snd].
    do 3 (split; [reflexivity|]). split.
    + intros (p & -> & Hp). rewrite Hp, pystr_eqb_refl in Hq. discriminate.
    + intros _. split; reflexivity.
  - destruct q as [p|]; [|discriminate].
    apply negb_false_iff in Hq.
    assert (Hhit : Project._fetch_project_data u
                     (mkWorld (Some (mkProject (Some p) im)) srv clk tk lg)
                   = (Ok tt, mkWorld (Some (mkProject (Some p) im)) srv clk tk lg)).
    { unfold Project._fetch_project_data, Project.self, bind, get_world, deref, ret.
      cbn. rewrite Hq. reflexivity. }
    rewrite Hhit. cbn [fst snd]. rewrite Hhit. cbn [fst snd].
    do 3 (split; [reflexivity|]). split.
    + intros _. reflexivity.
    + intros [Hnone|(p' & [= <-] & Hne)]; [discriminate|].
      apply pystr_eqb_eq in Hq. contradiction.
Qed.

Lemma fetch_project_data_caches_witness :
  let w1 := after (Project._fetch_project_data proj) world0 in
  let w2 := after (Project._fetch_project_data proj) w1 in
  outcome (Project._fetch_project_data proj) world0 = Ok tt
  /\ outcome (Project._fetch_project_data proj) w1 = Ok tt
  /\ w2 = w1
  /\ ((exists p, project (mkProject None None) = Some p /\ uid p = proj) -> w1 = world0)
  /\ (project (mkProject None None) = None
      \/ (exists p, project (mkProject None None) = Some p /\ uid p <> proj) ->
      fetched (server w1) = proj :: fetched (server world0)
      /\ gliff_project w1
         = Some (mkProject (Some (mkCollection proj (encoded (JArr [tile1]))))
                           (Some proj))).
Proof.
  apply (@fetch_project_data_caches world0 (mkProject None None) proj
           (mkCollection proj (encoded (JArr [tile1])))); reflexivity.
Defined.

(** ** The operations run on the example project *)

(** C1: what [_update_annotation_item] does where the claim fails.  The
    stored record is [[ann1]], whose last element is not empty; uploading
    [[ann2]] drops it all the same and persists [[ann2]]. *)
Theorem update_annotation_item_drops_nonempty_last :
  is_empty_annotation ann1 = Ok false
  /\ is_empty_annotation ann2 = Ok false
  /\ stored_record world1 (item_name 0) = Ok (JArr [ann1])
  /\ outcome (_update_annotation_item proj img1 (JStr (item_name 0)) [ann2] []) world1
     = Ok (JStr (item_name 0))
  /\ stored_record
       (after (_update_annotation_item proj img1 (JStr (item_name 0)) [ann2] []) world1)
       (item_name 0)
     = Ok (JArr [ann2])
  /\ outcome (get_annotations proj img1 bob)
       (after (upload_annotation proj img1 bob [ann2] []) world1)
     = Ok (JArr [ann2]).
Proof. vm_compute. repeat split. Qed.

(** The trailing placeholder is dropped, as intended. *)
Lemma update_annotation_item_drops_empty_last :
  is_empty_annotation empty_annotation = Ok true
  /\ stored_record world1e (item_name 0) = Ok (JArr [ann1; empty_annotation])
  /\ stored_record
       (after (_update_annotation_item proj img1 (JStr (item_name 0)) [ann2] []) world1e)
       (item_name 0)
     = Ok (JArr [ann1; ann2]).
Proof. vm_compute. repeat split. Qed.

(** C2: what [upload_annotation] does where the claim fails.  [bob] has an
    annotation item for [img1] whose record is the empty list; the upload
    takes the update branch and raises [IndexError] out of
    [prev_annotations[-1]]: no item id is returned and nothing is written. *)
Theorem upload_annotation_raises_on_empty_record :
  outcome (_get_annotation_uid proj img1 bob) world_blank = Ok (JStr (item_name 0))
  /\ stored_record world_blank (item_name 0) = Ok (JArr [])
  /\ outcome (upload_annotation proj img1 bob [ann1] []) world_blank = Raise IndexError
  /\ server (after (upload_annotation proj img1 bob [ann1] []) world_blank)
     = server world_blank.
Proof. vm_compute. repeat split. Qed.

(** The create branch on the example: no entry for [bob] yet, so an item is
    created, and the tile gets its uid and [annotationComplete] false. *)
Lemma upload_annotation_creates :
  outcome (_get_annotation_uid proj img1 bob) world0 = Ok JNull
  /\ outcome (upload_annotation proj img1 bob [ann1] []) world0 = Ok (JStr (item_name 0))
  /\ map (fun i => item_uid (snd i)) (items (server world1)) = [item_name 0]
  /\ (forall it, find_item (items (server world1)) proj (item_name 0) = Some it ->
      dict_get (meta it) (py "isComplete") = Some (JBool false))
  /\ stored_gallery world1
     = Ok (JArr [_create_new_tile img1 (py "data:image/png;base64,AAAA") [py "cat"]
                   [(py "b", JInt 2)] [(bob, JStr (item_name 0))] []
                   [(bob, JBool false)]]).
Proof.
  vm_compute. repeat split. intros it [= <-]. reflexivity.
Qed.

(** The update branch on the example, with a record that is not empty: the
    same item is written again and no second one appears. *)
Lemma upload_annotation_updates :
  outcome (_get_annotation_uid proj img1 bob) world1 = Ok (JStr (item_name 0))
  /\ outcome (upload_annotation proj img1 bob [ann2] []) world1 = Ok (JStr (item_name 0))
  /\ map (fun i => item_uid (snd i))
         (items (server (after (upload_annotation proj img1 bob [ann2] []) world1)))
     = [item_name 0].
Proof. vm_compute. repeat split. Qed.

(** C3: what [_update_gallery_tile] does where the claim fails.  The tile's
    [fileInfo] is [{"b": 2}] and the patch built by [_create_tile_update]
    carries [fileInfo = {"a": 1}]; the tile written back still has
    [fileInfo = {"b": 2}]. *)
Theorem update_gallery_tile_leaves_fileInfo :
  let patch := _create_tile_update None [(py "a", JInt 1)] [] [] [] in
  dict_get patch (py "fileInfo") = Some (JObj [(py "a", JInt 1)])
  /\ stored_gallery world_open = Ok (JArr [tile1])
  /\ getitem tile1 (py "fileInfo") = Ok (JObj [(py "b", JInt 2)])
  /\ outcome (_update_gallery_tile img1 patch) world_open = Ok tt
  /\ logged (after (_update_gallery_tile img1 patch) world_open) = []
  /\ stored_gallery (after (_update_gallery_tile img1 patch) world_open)
     = Ok (JArr [tile1]).
Proof. vm_compute. repeat split. Qed.

(** The other fields of a patch on the example: the mappings are merged key
    by key and the labels are replaced. *)
Lemma update_gallery_tile_merges_the_rest :
  let before := _create_new_tile img1 (py "t") [py "cat"] []
                  [(py "ann", JStr (py "i1"))] [(py "ann", JStr (py "i2"))]
                  [(py "ann", JBool true)] in
  let patch := _create_tile_update (Some [py "x"]) []
                 [(bob, JStr (py "i3"))] [(bob, JStr (py "i4"))]
                 [(bob, JBool false)] in
  forall tile, dict_copy before = Ok tile ->
  update_tile tile patch
  = dict_copy (_create_new_tile img1 (py "t") [py "x"] []
                 [(py "ann", JStr (py "i1")); (bob, JStr (py "i3"))]
                 [(py "ann", JStr (py "i2")); (bob, JStr (py "i4"))]
                 [(py "ann", JBool true); (bob, JBool false)]).
Proof. intros before patch tile [= <-]. vm_compute. reflexivity. Qed.

(** ** Running statements *)

Lemma bind_ok {A B} (c : M A) (k : A -> M B) w a w' :
  c w = (Ok a, w') -> bind c k w = k a w'.
Proof. unfold bind. now intros ->. Qed.

Lemma bind_raise {A B} (c : M A) (k : A -> M B) w e w' :
  c w = (Raise e, w') -> bind c k w = (Raise e, w').
Proof. unfold bind. now intros ->. Qed.

Lemma try_except_ok {A} (c : M A) h w a w' :
  c w = (Ok a, w') -> try_except c h w = (Ok a, w').
Proof. unfold try_except. now intros ->. Qed.

Lemma try_except_raise {A} (c : M A) h w e w' :
  c w = (Raise e, w') -> try_except c h w = h e w'.
Proof. unfold try_except. now intros ->. Qed.

(** ** Patching a tile that is not there *)

Lemma find_tile_from_absent tiles id :
  Forall (fun t => exists tid, getitem t (py "id") = Ok tid /\ eq_str tid id = false)
         tiles ->
  forall i, find_tile_from i tiles id = Ok None.
Proof.
  induction 1 as [|t tiles (tid & Hid & Hne) _ IH]; intros i; cbn [find_tile_from].
  - reflexivity.
  - rewrite Hid. cbn [rbind]. rewrite Hne. apply IH.
Qed.

Lemma decode_content_ok content s v w :
  bytes_decode content = Ok s -> loads s = Ok v ->
  _decode_content content w = (Ok v, w).
Proof.
  intros Hs Hv. unfold _decode_content, try_except, lift.
  rewrite Hs. cbn [rbind]. now rewrite Hv.
Qed.

Lemma get_gallery_ok w c im s v :
  gliff_project w = Some (mkProject (Some c) im) ->
  bytes_decode (content c) = Ok s -> loads s = Ok v ->
  _get_gallery w = (Ok v, w).
Proof.
  intros Hp Hs Hv. unfold _get_gallery.
  rewrite (@bind_ok _ _ Project.content _ w (Some (content c)) w).
  2:{ unfold Project.content, Project.self, bind, get_world, deref, ret.
      rewrite Hp. reflexivity. }
  rewrite (@bind_ok _ _ (deref (Some (content c))) _ w (content c) w) by reflexivity.
  now apply decode_content_ok with s.
Qed.

(** C5, as the code has it: when the gallery holds no tile with the
    requested id, [_update_gallery_tile] raises nothing.  The miss shows up
    inside as the [TypeError] of indexing the gallery with [None]; the
    handler logs it, and the call returns with the cached project and the
    store as they were. *)
Theorem update_gallery_tile_absent_is_logged :
  forall w c im s tiles item_uid tile_data,
    gliff_project w = Some (mkProject (Some c) im) ->
    bytes_decode (content c) = Ok s ->
    loads s = Ok (JArr tiles) ->
    Forall (fun t => exists tid, getitem t (py "id") = Ok tid
                                 /\ eq_str tid item_uid = false) tiles ->
    _update_gallery_tile item_uid tile_data w
    = (Ok tt,
       mkWorld (gliff_project w) (server w) (clock w) (ticks w)
               (LogError "Error while updating a gallery's tile" (Some TypeError)
                :: logged w)).
Proof.
  intros w c im s tiles item_uid tile_data Hp Hs Hl Habs.
  unfold _update_gallery_tile.
  erewrite try_except_raise; [reflexivity|].
  erewrite bind_ok by (eapply get_gallery_ok; eassumption).
  unfold _find_gallery_tile. cbn [iterate rbind].
  rewrite (@find_tile_from_absent _ _ Habs). reflexivity.
Qed.

Lemma update_gallery_tile_absent_is_logged_witness :
  _update_gallery_tile (py "img2") (_create_tile_update None [(py "a", JInt 1)] [] [] [])
                       world_open
  = (Ok tt,
     mkWorld (gliff_project world_open) (server world_open) (clock world_open)
             (ticks world_open)
             (LogError "Error while updating a gallery's tile" (Some TypeError)
              :: logged world_open)).
Proof.
  apply (@update_gallery_tile_absent_is_logged world_open
           (mkCollection proj (encoded (JArr [tile1]))) (Some proj)
           (dumps (JArr [tile1])) [tile1]).
  - reflexivity.
  - vm_compute. reflexivity.
  - vm_compute. reflexivity.
  - repeat constructor. exists (JStr img1). split; vm_compute; reflexivity.
Defined.

(** C5, against the claim as stated: with no tile for ["img2"] in the
    gallery the patch returns normally, and the gallery in the store is the
    one that was there. *)
Lemma update_gallery_tile_absent_returns :
  let patch := _create_tile_update None [(py "a", JInt 1)] [] [] [] in
  _find_gallery_tile (JArr [tile1]) (py "img2") = Ok None
  /\ outcome (_update_gallery_tile (py "img2") patch) world_open = Ok tt
  /\ (forall e, outcome (_update_gallery_tile (py "img2") patch) world_open <> Raise e)
  /\ stored_gallery (after (_update_gallery_tile (py "img2") patch) world_open)
     = stored_gallery world_open.
Proof.
  vm_compute. repeat split. intros e; discriminate.
Qed.

(** ** Decoding an image payload *)

Lemma Forall_app_intro {A} (P : A -> Prop) (l1 l2 : list A) :
  Forall P l1 -> Forall P l2 -> Forall P (l1 ++ l2).
Proof. intros H1 H2. apply Forall_app. now split. Qed.

Lemma advance_quads quad_pos k :
  quad_pos < 4 -> advance quad_pos (4 * k) = quad_pos.
Proof.
  intros Hq. induction k as [|k IH]; [reflexivity|].
  replace (4 * S k) with (S (S (S (S (4 * k))))) by lia.
  cbn [advance].
  destruct quad_pos as [|[|[|[|q]]]]; try lia; exact IH.
Qed.

Lemma b64val_ascii c v : Base64.b64val c = Some v -> (c <? 128)%N = true /\ c <> 61%N.
Proof.
  unfold Base64.b64val.
  repeat match goal with
         | |- context [if ?b then _ else _] => destruct b eqn:?
         end; intros [= <-];
    repeat match goal with
           | H : (_ && _)%bool = true |- _ => apply andb_true_iff in H; destruct H
           | H : (_ <=? _)%N = true |- _ => apply N.leb_le in H
           | H : (_ =? _)%N = true |- _ => apply N.eqb_eq in H
           end; split; try (apply N.ltb_lt); lia.
Qed.

Lemma advance_add quad_pos a b :
  advance quad_pos (a + b) = advance (advance quad_pos a) b.
Proof.
  revert quad_pos. induction a as [|a IH]; intros quad_pos; [reflexivity|].
  cbn [Nat.add advance]. apply IH.
Qed.

(** Where no pad occurs the decoder skips what is outside the alphabet and
    counts the rest: it ends well exactly when the last quad is complete. *)
Lemma a2b_base64_unpadded s :
  Forall (fun c => c <> 61%N) s ->
  forall quad_pos leftchar pads,
    match advance quad_pos (length (data_chars s)) with
    | 0 => exists out, Base64.a2b_base64 s quad_pos leftchar pads = Ok out
    | _ => Base64.a2b_base64 s quad_pos leftchar pads = Raise BinasciiError
    end.
Proof.
  induction 1 as [|c s Hc _ IH]; intros quad_pos leftchar pads.
  - cbn. destruct quad_pos; cbn; eauto.
  - cbn [data_chars filter Base64.a2b_base64].
    apply N.eqb_neq in Hc. rewrite Hc.
    destruct (Base64.b64val c) as [v|] eqn:Hv; [|apply IH].
    cbn [length advance]. fold (data_chars s).
    destruct quad_pos as [|[|[|q]]].
    + apply IH.
    + specialize (IH 2 (N.land v 15) 0).
      destruct (advance 2 (length (data_chars s)));
        [destruct IH as [out ->]; cbn; eauto|].
      rewrite IH. reflexivity.
    + specialize (IH 3 (N.land v 3) 0).
      destruct (advance 3 (length (data_chars s)));
        [destruct IH as [out ->]; cbn; eauto|].
      rewrite IH. reflexivity.
    + specialize (IH 0 0%N 0).
      destruct (advance 0 (length (data_chars s)));
        [destruct IH as [out ->]; cbn; eauto|].
      rewrite IH. reflexivity.
Qed.

Lemma alphabet_data_chars s :
  Forall (fun c => Base64.b64val c <> None) s -> data_chars s = s.
Proof.
  induction 1 as [|c s Hc _ IH]; [reflexivity|]. cbn [data_chars filter].
  destruct (Base64.b64val c); [|congruence]. fold (data_chars s). now rewrite IH.
Qed.

Lemma alphabet_unpadded s :
  Forall (fun c => Base64.b64val c <> None) s -> Forall (fun c => c <> 61%N) s.
Proof.
  intros H. eapply Forall_impl; [|exact H]. intros c Hc ->. now apply Hc.
Qed.

Lemma alphabet_is_ascii s :
  Forall (fun c => Base64.b64val c <> None) s ->
  forallb (fun c => (c <? 128)%N) s = true.
Proof.
  induction 1 as [|c s Hc _ IH]; [reflexivity|]. cbn [forallb].
  destruct (Base64.b64val c) as [v|] eqn:Hv; [|congruence].
  destruct (b64val_ascii _ Hv) as [-> _]. exact IH.
Qed.




(** ** Reading the image of an item *)

Lemma has_project_loaded w p :
  gliff_project w = Some p -> _has_project w = (Ok true, w).
Proof.
  intros H. unfold _has_project, bind, get_world. now rewrite H.
Qed.

Lemma fetch_project_data_hit w c im :
  gliff_project w = Some (mkProject (Some c) im) ->
  Project._fetch_project_data (uid c) w = (Ok tt, w).
Proof.
  intros H. unfold Project._fetch_project_data, Project.self, bind, get_world, deref, ret.
  rewrite H. cbn. now rewrite pystr_eqb_refl.
Qed.

Lemma get_project_item_found w c im u it :
  gliff_project w = Some (mkProject (Some c) (Some im)) ->
  find_item (items (server w)) im u = Some it ->
  get_project_item (uid c) (JStr u) w = (Ok (Some it), w).
Proof.
  intros Hp Hit. unfold get_project_item.
  erewrite bind_ok by (eapply has_project_loaded; exact Hp). cbn [negb].
  erewrite bind_ok by (eapply fetch_project_data_hit; exact Hp).
  apply try_except_ok.
  unfold Project.self, Client.fetch_item, bind, get_world, deref, ret, lift.
  rewrite Hp. cbn. now rewrite Hit.
Qed.

(** C7, as the code has it.  With the project open and the content of the
    item decoded into channels, [get_image_data] answers by the number of
    channels of the first slice: one channel gives that image; three
    channels of one size give the image whose red, green and blue bands are
    the red band of the first, the green band of the second and the blue
    band of the third; any other number is logged as an error and the call
    returns [None], raising nothing. *)
Theorem get_image_data_by_channels :
  forall image_open w c im item_uid it s decoded_content first others,
    gliff_project w = Some (mkProject (Some c) (Some im)) ->
    find_item (items (server w)) im item_uid = Some it ->
    bytes_decode (item_content it) = Ok s ->
    loads s = Ok decoded_content ->
    (n <-- py_len decoded_content ;;
     for_range n 0 (decode_slice image_open decoded_content)) = Ok (first :: others) ->
    (forall img, first = [img] ->
       get_image_data image_open (uid c) item_uid w = (Ok (Some img), w))
    /\ (forall size r0 g0 b0 r1 g1 b1 r2 g2 b2,
          first = [ImageRGB size r0 g0 b0; ImageRGB size r1 g1 b1;
                   ImageRGB size r2 g2 b2] ->
          get_image_data image_open (uid c) item_uid w
          = (Ok (Some (ImageRGB size r0 g1 b2)), w))
    /\ (length first <> 1 -> length first <> 3 ->
        get_image_data image_open (uid c) item_uid w
        = (Ok None,
           mkWorld (gliff_project w) (server w) (clock w) (ticks w)
                   (LogError "Images with {num_channels} channels are not supported."
                             None :: logged w))).
Proof.
  intros image_open w c im item_uid it s decoded first others Hp Hit Hs Hl Hdata.
  assert (Hrun :
             get_image_data image_open (uid c) item_uid w
             = try_except
                 (match first with
                  | [img] => ret (Some img)
                  | [_; _; _] =>
                      cs <- lift (channels_from 0 first) ;;
                      match cs with
                      | [red; green; blue] =>
                          image_pil <- lift (merge_rgb red green blue) ;;
                          ret (Some image_pil)
                      | _ => raise ValueError
                      end
                  | _ =>
                      log (LogError
                             "Images with {num_channels} channels are not supported."
                             None) ;;;
                      ret None
                  end)
                 (fun e =>
                    log (LogError "Error while fetching an item's image data" (Some e)) ;;;
                    ret None) w).
  { unfold get_image_data.
    erewrite bind_ok by (eapply has_project_loaded; exact Hp). cbn [negb].
    erewrite bind_ok by (eapply fetch_project_data_hit; exact Hp).
    unfold try_except.
    erewrite bind_ok by (eapply get_project_item_found; [exact Hp|exact Hit]).
    rewrite (@bind_ok _ _ (deref (Some it)) _ w it w) by reflexivity.
    erewrite bind_ok by (eapply decode_content_ok; [exact Hs|exact Hl]).
    rewrite Hdata.
    rewrite (@bind_ok _ _ (lift (Ok (first :: others))) _ w (first :: others) w)
      by reflexivity.
    rewrite (@bind_ok _ _ (lift (Ok first)) _ w first w) by reflexivity.
    reflexivity. }
  rewrite Hrun. clear Hrun.
  split; [|split].
  - intros img ->. reflexivity.
  - intros size r0 g0 b0 r1 g1 b1 r2 g2 b2 ->.
    unfold try_except, bind, lift, ret. cbn.
    unfold size_eqb. rewrite !N.eqb_refl. reflexivity.
  - intros H1 H3.
    destruct first as [|a [|b [|d [|e rest]]]]; cbn in H1, H3; try lia; reflexivity.
Qed.

Lemma get_image_data_by_channels_witness :
  (forall img,
      [ImageRGB (3%N, 1%N) [0; 0; 0]%N [0; 0; 0]%N [0; 0; 0]%N;
       ImageRGB (3%N, 1%N) [1; 2; 3]%N [1; 2; 3]%N [1; 2; 3]%N] = [img] ->
      get_image_data row_open (uid (mkCollection proj (encoded (JArr [tile1])))) img1
        (after (Project._fetch_project_data proj)
               (world_with_image [py "AAAA"; py "AQID"]))
      = (Ok (Some img),
         after (Project._fetch_project_data proj)
               (world_with_image [py "AAAA"; py "AQID"])))
  /\ (forall size r0 g0 b0 r1 g1 b1 r2 g2 b2,
         [ImageRGB (3%N, 1%N) [0; 0; 0]%N [0; 0; 0]%N [0; 0; 0]%N;
          ImageRGB (3%N, 1%N) [1; 2; 3]%N [1; 2; 3]%N [1; 2; 3]%N]
         = [ImageRGB size r0 g0 b0; ImageRGB size r1 g1 b1; ImageRGB size r2 g2 b2] ->
         get_image_data row_open (uid (mkCollection proj (encoded (JArr [tile1])))) img1
           (after (Project._fetch_project_data proj)
                  (world_with_image [py "AAAA"; py "AQID"]))
         = (Ok (Some (ImageRGB size r0 g1 b2)),
            after (Project._fetch_project_data proj)
                  (world_with_image [py "AAAA"; py "AQID"])))
  /\ (length [ImageRGB (3%N, 1%N) [0; 0; 0]%N [0; 0; 0]%N [0; 0; 0]%N;
              ImageRGB (3%N, 1%N) [1; 2; 3]%N [1; 2; 3]%N [1; 2; 3]%N] <> 1 ->
      length [ImageRGB (3%N, 1%N) [0; 0; 0]%N [0; 0; 0]%N [0; 0; 0]%N;
              ImageRGB (3%N, 1%N) [1; 2; 3]%N [1; 2; 3]%N [1; 2; 3]%N] <> 3 ->
      get_image_data row_open (uid (mkCollection proj (encoded (JArr [tile1])))) img1
        (after (Project._fetch_project_data proj)
               (world_with_image [py "AAAA"; py "AQID"]))
      = (Ok None,
         let w := after (Project._fetch_project_data proj)
                        (world_with_image [py "AAAA"; py "AQID"]) in
         mkWorld (gliff_project w) (server w) (clock w) (ticks w)
                 (LogError "Images with {num_channels} channels are not supported."
                           None :: logged w))).
Proof.
  apply (@get_image_data_by_channels row_open
           (after (Project._fetch_project_data proj)
                  (world_with_image [py "AAAA"; py "AQID"]))
           (mkCollection proj (encoded (JArr [tile1]))) proj img1
           (mkItem img1 [(py "type", JStr (py "gliff.image"))]
                   (encoded (JArr [JArr [JStr (py "AAAA"); JStr (py "AQID")]])))
           (dumps (JArr [JArr [JStr (py "AAAA"); JStr (py "AQID")]]))
           (JArr [JArr [JStr (py "AAAA"); JStr (py "AQID")]])
           [ImageRGB (3%N, 1%N) [0; 0; 0]%N [0; 0; 0]%N [0; 0; 0]%N;
            ImageRGB (3%N, 1%N) [1; 2; 3]%N [1; 2; 3]%N [1; 2; 3]%N] []);
    vm_compute; reflexivity.
Defined.

(** C7, against the claim as stated: an item with two channels, and one
    with four, make [get_image_data] return [None]; no exception reaches
    the caller. *)
Lemma get_image_data_two_channels_returns_none :
  outcome (get_image_data row_open proj img1) (world_with_image [py "AAAA"; py "AQID"])
  = Ok None
  /\ outcome (get_image_data row_open proj img1)
       (world_with_image [py "AAAA"; py "AQID"; py "AAAA"; py "AQID"])
     = Ok None
  /\ (forall e, outcome (get_image_data row_open proj img1)
                  (world_with_image [py "AAAA"; py "AQID"]) <> Raise e).
Proof.
  vm_compute. repeat split. intros e; discriminate.
Qed.

(** ** The JSON scanner always has fuel enough *)

Lemma skip_ws_length s : length (skip_ws s) <= length s.
Proof.
  induction s as [|c s IH]; cbn [skip_ws]; [lia|].
  destruct (is_ws c); cbn [length]; lia.
Qed.

Lemma span_digits_length s ds r :
  span_digits s = (ds, r) -> length ds + length r = length s.
Proof.
  revert ds r. induction s as [|c s IH]; intros ds r; cbn [span_digits].
  - intros [= <- <-]. reflexivity.
  - destruct (is_digit c).
    + destruct (span_digits s) as [ds' r'] eqn:E. intros [= <- <-].
      specialize (IH _ _ eq_refl). cbn [length]. lia.
    + intros [= <- <-]. reflexivity.
Qed.

Lemma scanstring_length_bounded n :
  forall s str r, length s <= n -> scanstring s = Some (str, r) -> length r < length s.
Proof.
  induction n as [|n IH]; intros s str r Hn H.
  - destruct s; [discriminate|cbn in Hn; lia].
  - destruct s as [|c s]; [discriminate|].
    cbn [scanstring] in H. cbn [length] in Hn |- *.
    repeat match goal with
           | H : None = Some _ |- _ => discriminate H
           | H : Some (_, _) = Some (_, _) |- _ =>
               injection H as <- <-; cbn [length]; lia
           | H : cons_char _ (scanstring ?t) = Some _ |- _ =>
               let E := fresh "E" in
               destruct (scanstring t) as [[? ?]|] eqn:E; cbn [cons_char] in H;
               [injection H as <- <-; apply IH in E; cbn [length] in *; lia
               |discriminate H]
           | H : (if ?b then _ else _) = Some _ |- _ => destruct b
           | H : match ?l with [] => _ | _ :: _ => _ end = Some _ |- _ =>
               destruct l; cbn [length] in Hn
           | H : match ?o with Some _ => _ | None => _ end = Some _ |- _ =>
               destruct o
           end.
Qed.

Lemma scanstring_length s str r :
  scanstring s = Some (str, r) -> length r < length s.
Proof. now apply scanstring_length_bounded with (length s). Qed.

Lemma scan_integer_length s neg ds r :
  scan_integer s = Some (neg, ds, r) -> length r < length s.
Proof.
  unfold scan_integer.
  assert (Hdigits : forall t neg', match t with
            | [] => None
            | d :: r0 =>
                if (d =? ch "0")%N then Some (neg', [d], r0)
                else if is_digit d
                     then let (ds0, rest) := span_digits r0 in Some (neg', d :: ds0, rest)
                     else None
            end = Some (neg, ds, r) -> length r < length t).
  { intros [|d r0] neg'; [discriminate|].
    destruct (d =? ch "0")%N; [intros [= <- <- <-]; cbn; lia|].
    destruct (is_digit d); [|discriminate].
    destruct (span_digits r0) as [ds0 rest] eqn:E. intros [= <- <- <-].
    apply span_digits_length in E. cbn [length]. lia. }
  destruct s as [|c s']; [discriminate|].
  destruct (c =? ch "-")%N; intros H.
  - apply (Hdigits s' true) in H. cbn [length]. lia.
  - apply (Hdigits (c :: s') false) in H. exact H.
Qed.

Lemma scan_frac_length s f r : scan_frac s = (f, r) -> length r <= length s.
Proof.
  unfold scan_frac. destruct s as [|c s']; [intros [= <- <-]; lia|].
  destruct (c =? ch ".")%N; [|intros [= <- <-]; lia].
  destruct (span_digits s') as [[|d ds] rest] eqn:E; intros [= <- <-]; [lia|].
  apply span_digits_length in E. cbn [length] in *. lia.
Qed.

Lemma scan_exp_length s e r : scan_exp s = (e, r) -> length r <= length s.
Proof.
  unfold scan_exp. destruct s as [|c s']; [intros [= <- <-]; lia|].
  destruct ((c =? ch "e")%N || (c =? ch "E")%N); [|intros [= <- <-]; lia].
  destruct (match s' with
            | [] => ([], s')
            | g :: r' => if (g =? ch "-")%N || (g =? ch "+")%N then ([g], r') else ([], s')
            end) as [sign r1] eqn:Hsign.
  assert (length r1 <= length s').
  { destruct s' as [|g r']; [injection Hsign as <- <-; lia|].
    destruct ((g =? ch "-")%N || (g =? ch "+")%N); injection Hsign as <- <-;
      cbn [length]; lia. }
  destruct (span_digits r1) as [[|d ds] rest] eqn:E; intros [= <- <-]; [lia|].
  apply span_digits_length in E. cbn [length] in *. lia.
Qed.

Lemma scan_number_length s v r :
  scan_number s = Some (v, r) -> length r < length s.
Proof.
  unfold scan_number.
  destruct (scan_integer s) as [[[neg ds] r0]|] eqn:Hi; [|discriminate].
  apply scan_integer_length in Hi.
  destruct (scan_frac r0) as [f r1] eqn:Hf. apply scan_frac_length in Hf.
  destruct (scan_exp r1) as [e r2] eqn:He. apply scan_exp_length in He.
  destruct f, e; intros [= <- <-]; lia.
Qed.

Lemma skipn_cons_length (n : nat) (c : N) (s : pystr) :
  length (skipn (S n) (c :: s)) < length (c :: s).
Proof.
  cbn [skipn length]. rewrite length_skipn. lia.
Qed.

Lemma skip_ws_cons_length s c r :
  skip_ws s = c :: r -> length r < length s.
Proof.
  intros H. pose proof (skip_ws_length s) as Hl. rewrite H in Hl.
  cbn [length] in Hl. lia.
Qed.

Lemma scanner_fuel f :
  (forall s, 2 * length s + 1 <= f -> sound_scan s (scan_once f s))
  /\ (forall s, 2 * length s + 2 <= f -> sound_scan s (array_items f s))
  /\ (forall s, 2 * length s + 2 <= f -> sound_scan s (object_items f s)).
Proof.
  induction f as [|f (IHs & IHa & IHo)].
  - repeat split; intros s H; lia.
  - split; [|split]; intros s Hf.
    + destruct s as [|c r]; [exact I|]. cbn [scan_once]. cbn [length] in Hf.
      destruct (c =? dquote)%N.
      { destruct (scanstring r) as [[str rest]|] eqn:E; [|exact I].
        apply scanstring_length in E. cbn [sound_scan length]. lia. }
      destruct (c =? ch "{")%N.
      { destruct (skip_ws r) as [|c1 r1] eqn:E; [exact I|].
        apply skip_ws_cons_length in E.
        destruct (c1 =? ch "}")%N; [cbn [sound_scan length]; lia|].
        destruct (c1 =? dquote)%N; [|exact I].
        specialize (IHo r1 ltac:(lia)).
        destruct (object_items f r1); cbn [sound_scan length] in *; try lia. }
      destruct (c =? ch "[")%N.
      { destruct (skip_ws r) as [|c1 r1] eqn:E; [exact I|].
        pose proof (skip_ws_length r) as Hl. rewrite E in Hl.
        destruct (c1 =? ch "]")%N; [cbn [sound_scan length] in *; lia|].
        specialize (IHa (c1 :: r1) ltac:(lia)).
        destruct (array_items f (c1 :: r1)); cbn [sound_scan length] in *; try lia. }
      repeat match goal with
             | |- sound_scan _ (if ?b then _ else _) => destruct b
             | |- sound_scan _ (Parsed _ (skipn _ _)) => apply skipn_cons_length
             | |- sound_scan _ Malformed => exact I
             | |- sound_scan _ (match scan_number ?t with _ => _ end) =>
                 let E := fresh "E" in
                 destruct (scan_number t) as [[? ?]|] eqn:E;
                 [apply scan_number_length in E; exact E|]
             end.
    + cbn [array_items].
      specialize (IHs s ltac:(lia)).
      destruct (scan_once f s) as [v r| |]; cbn [sound_scan] in *; try tauto.
      destruct (skip_ws r) as [|c r1] eqn:E; [exact I|].
      apply skip_ws_cons_length in E.
      destruct (c =? ch "]")%N; [cbn [sound_scan]; lia|].
      destruct (c =? ch ",")%N; [|exact I].
      pose proof (skip_ws_length r1) as Hl.
      specialize (IHa (skip_ws r1) ltac:(lia)).
      destruct (array_items f (skip_ws r1)); cbn [sound_scan] in *; try lia.
    + cbn [object_items].
      destruct (scanstring s) as [[key r]|] eqn:Ek; [|exact I].
      apply scanstring_length in Ek.
      destruct (skip_ws r) as [|c r1] eqn:E; [exact I|].
      apply skip_ws_cons_length in E.
      destruct (c =? ch ":")%N; [|exact I].
      pose proof (skip_ws_length r1) as Hl.
      specialize (IHs (skip_ws r1) ltac:(lia)).
      destruct (scan_once f (skip_ws r1)) as [v r2| |]; cbn [sound_scan] in *;
        try tauto.
      destruct (skip_ws r2) as [|c2 r3] eqn:E2; [exact I|].
      apply skip_ws_cons_length in E2.
      destruct (c2 =? ch "}")%N; [cbn [sound_scan]; lia|].
      destruct (c2 =? ch ",")%N; [|exact I].
      destruct (skip_ws r3) as [|c3 r4] eqn:E3; [exact I|].
      apply skip_ws_cons_length in E3.
      destruct (c3 =? dquote)%N; [|exact I].
      specialize (IHo r4 ltac:(lia)).
      destruct (object_items f r4); cbn [sound_scan] in *; try lia.
Qed.

(** [loads] answers with a value or with [JSONDecodeError], never by running
    out of fuel. *)
Lemma loads_never_exhausts s e : loads s = Raise e -> e = JSONDecodeError.
Proof.
  unfold loads. destruct (is_prefix [65279%N] s); [now intros [= <-]|].
  pose proof (skip_ws_length s) as Hl.
  destruct (scanner_fuel (2 * length s + 1)) as (Hs & _ & _).
  specialize (Hs (skip_ws s) ltac:(lia)).
  destruct (scan_once (2 * length s + 1) (skip_ws s)) as [v rest| |];
    cbn [sound_scan] in Hs; [|now intros [= <-]|contradiction].
  destruct (skip_ws rest); [discriminate|now intros [= <-]].
Qed.

(** ** Decoding content that is not JSON *)




(** ** The round trip through [json.dumps] and [json.loads] *)

(** *** Strings *)

Lemma hexval_hexdigit n : (n < 16)%N -> hexval (hexdigit n) = Some n.
Proof.
  intros H. unfold hexdigit, hexval.
  destruct (n <? 10)%N eqn:E.
  - apply N.ltb_lt in E.
    replace ((48 <=? 48 + n)%N && (48 + n <=? 57)%N) with true
      by (symmetry; apply andb_true_iff; split; apply N.leb_le; lia).
    f_equal. lia.
  - apply N.ltb_ge in E.
    replace ((48 <=? 87 + n)%N && (87 + n <=? 57)%N) with false
      by (symmetry; apply andb_false_iff; right; apply N.leb_gt; lia).
    replace ((97 <=? 87 + n)%N && (87 + n <=? 102)%N) with true
      by (symmetry; apply andb_true_iff; split; apply N.leb_le; lia).
    f_equal. lia.
Qed.

Lemma hexdigit_ascii n : (n < 16)%N -> (hexdigit n < 128)%N.
Proof. intros H. unfold hexdigit. destruct (n <? 10)%N; lia. Qed.

Lemma hex_digits_of n :
  (n < 65536)%N ->
  (n / 4096 < 16 /\ (n / 256) mod 16 < 16 /\ (n / 16) mod 16 < 16 /\ n mod 16 < 16
   /\ ((n / 4096 * 16 + (n / 256) mod 16) * 16 + (n / 16) mod 16) * 16 + n mod 16 = n)%N.
Proof.
  intros H. zify. Z.to_euclidean_division_equations. lia.
Qed.

Lemma surrogate_pair_of c :
  (65536 <= c < 1114112)%N ->
  (55296 <= 55296 + (c - 65536) / 1024 <= 56319
   /\ 56320 <= 56320 + (c - 65536) mod 1024 <= 57343
   /\ 65536 + ((55296 + (c - 65536) / 1024 - 55296) * 1024
               + (56320 + (c - 65536) mod 1024 - 56320)) = c)%N.
Proof.
  intros H. zify. Z.to_euclidean_division_equations. lia.
Qed.

(** The characters of the grammar, as numbers. *)
Ltac chars :=
  change dquote with 34%N in *;
  change (ch "\") with 92%N in *; change (ch "/") with 47%N in *;
  change (ch "b") with 98%N in *; change (ch "f") with 102%N in *;
  change (ch "n") with 110%N in *; change (ch "r") with 114%N in *;
  change (ch "t") with 116%N in *; change (ch "u") with 117%N in *;
  change (ch "{") with 123%N in *; change (ch "}") with 125%N in *;
  change (ch "[") with 91%N in *; change (ch "]") with 93%N in *;
  change (ch ":") with 58%N in *; change (ch ",") with 44%N in *;
  change (ch "-") with 45%N in *; change (ch "+") with 43%N in *;
  change (ch ".") with 46%N in *; change (ch "e") with 101%N in *;
  change (ch "E") with 69%N in *; change (ch "0") with 48%N in *.

(** Decide a comparison of numbers from what the context knows. *)
Ltac compare_chars :=
  repeat match goal with
         | H : (_ =? _)%N = true |- _ => apply N.eqb_eq in H
         | H : (_ =? _)%N = false |- _ => apply N.eqb_neq in H
         | H : (_ <? _)%N = true |- _ => apply N.ltb_lt in H
         | H : (_ <? _)%N = false |- _ => apply N.ltb_ge in H
         | H : (_ <=? _)%N = true |- _ => apply N.leb_le in H
         | H : (_ <=? _)%N = false |- _ => apply N.leb_gt in H
         | H : (_ && _)%bool = true |- _ => apply andb_true_iff in H; destruct H
         | H : negb _ = true |- _ => apply negb_true_iff in H
         | H : negb _ = false |- _ => apply negb_false_iff in H
         end.

Lemma eqb_false_of (a b : N) : a <> b -> (a =? b)%N = false.
Proof. apply N.eqb_neq. Qed.

Lemma ltb_false_of (a b : N) : (b <= a)%N -> (a <? b)%N = false.
Proof. apply N.ltb_ge. Qed.

Lemma hex4_u_escape n :
  (n < 65536)%N ->
  hex4 (hexdigit (n / 4096)) (hexdigit ((n / 256) mod 16))
       (hexdigit ((n / 16) mod 16)) (hexdigit (n mod 16)) = Some n.
Proof.
  intros H. destruct (hex_digits_of H) as (H1 & H2 & H3 & H4 & Hn).
  unfold hex4. rewrite !hexval_hexdigit by assumption. now rewrite Hn.
Qed.

Lemma scanstring_u_escape n t :
  (n < 65536)%N -> is_high_surrogate n = false ->
  scanstring (u_escape n ++ t) = cons_char n (scanstring t).
Proof.
  intros Hn Hhigh. unfold u_escape. cbn [app scanstring]. chars.
  cbn [N.eqb Pos.eqb]. rewrite (hex4_u_escape Hn), Hhigh. reflexivity.
Qed.

Lemma scanstring_surrogate_pair c t :
  (65536 <= c < 1114112)%N ->
  scanstring (u_escape (55296 + (c - 65536) / 1024)
              ++ u_escape (56320 + (c - 65536) mod 1024) ++ t)
  = cons_char c (scanstring t).
Proof.
  intros Hc. destruct (surrogate_pair_of Hc) as (Hhi & Hlo & Hjoin).
  unfold u_escape. cbn [app scanstring]. chars. cbn [N.eqb Pos.eqb andb].
  rewrite !hex4_u_escape by lia.
  replace (is_high_surrogate (55296 + (c - 65536) / 1024)) with true
    by (symmetry; apply andb_true_iff; split; apply N.leb_le; lia).
  replace (is_low_surrogate (56320 + (c - 65536) mod 1024)) with true
    by (symmetry; apply andb_true_iff; split; apply N.leb_le; lia).
  now rewrite Hjoin.
Qed.

Lemma scanstring_escape_char c t :
  is_scalar c = true ->
  scanstring (escape_char c ++ t) = cons_char c (scanstring t).
Proof.
  intros Hc. unfold is_scalar, is_surrogate in Hc. unfold escape_char. chars.
  destruct (c =? 34)%N eqn:E1; [apply N.eqb_eq in E1; subst c; reflexivity|].
  destruct (c =? 92)%N eqn:E2; [apply N.eqb_eq in E2; subst c; reflexivity|].
  destruct (c =? 8)%N eqn:E3; [apply N.eqb_eq in E3; subst c; reflexivity|].
  destruct (c =? 12)%N eqn:E4; [apply N.eqb_eq in E4; subst c; reflexivity|].
  destruct (c =? 10)%N eqn:E5; [apply N.eqb_eq in E5; subst c; reflexivity|].
  destruct (c =? 13)%N eqn:E6; [apply N.eqb_eq in E6; subst c; reflexivity|].
  destruct (c =? 9)%N eqn:E7; [apply N.eqb_eq in E7; subst c; reflexivity|].
  destruct ((32 <=? c)%N && (c <=? 126)%N) eqn:E8.
  - cbn [app scanstring]. chars. rewrite E1, E2.
    compare_chars. now rewrite ltb_false_of by assumption.
  - destruct (c <? 65536)%N eqn:E9.
    + apply scanstring_u_escape; [now apply N.ltb_lt|].
      apply andb_true_iff in Hc. destruct Hc as [_ Hs].
      apply negb_true_iff in Hs. unfold is_high_surrogate.
      apply andb_false_iff in Hs. apply andb_false_iff.
      destruct Hs as [Hs|Hs]; [now left|].
      right. compare_chars. apply N.leb_gt. lia.
    + rewrite <- app_assoc. apply scanstring_surrogate_pair.
      compare_chars. lia.
Qed.

Lemma scanstring_escaped s rest :
  forallb is_scalar s = true ->
  scanstring (flat_map escape_char s ++ dquote :: rest) = Some (s, rest).
Proof.
  induction s as [|c s IH]; intros Hs.
  - reflexivity.
  - cbn [forallb] in Hs. apply andb_true_iff in Hs. destruct Hs as [Hc Hs].
    cbn [flat_map]. rewrite <- app_assoc.
    rewrite scanstring_escape_char by exact Hc. rewrite (IH Hs). reflexivity.
Qed.

(** *** Integers *)

Lemma uint_of_chars_of_uint u : uint_of_chars (chars_of_uint u) = u.
Proof.
  induction u; cbn [chars_of_uint uint_of_chars fold_right] in *;
    try reflexivity; fold (uint_of_chars (chars_of_uint u)); rewrite IHu; reflexivity.
Qed.

Lemma span_digits_chars_of_uint u rest :
  starts_with_digit rest = false ->
  span_digits (chars_of_uint u ++ rest) = (chars_of_uint u, rest).
Proof.
  intros Hrest.
  induction u; cbn [chars_of_uint app span_digits];
    try (change (is_digit (ch _)) with true; cbn iota; rewrite IHu; reflexivity).
  destruct rest as [|c r]; [reflexivity|].
  cbn [span_digits]. cbn [starts_with_digit] in Hrest. now rewrite Hrest.
Qed.

Lemma nzhead_not_D0 u : forall u', Decimal.nzhead u <> Decimal.D0 u'.
Proof.
  induction u; intros u'; cbn [Decimal.nzhead]; try discriminate. apply IHu.
Qed.

Lemma to_uint_normal n : Decimal.unorm (N.to_uint n) = N.to_uint n.
Proof.
  rewrite <- (DecimalN.Unsigned.of_to n) at 2.
  symmetry. apply DecimalN.Unsigned.to_of.
Qed.

Lemma normal_uint_shape u :
  Decimal.unorm u = u ->
  u = Decimal.D0 Decimal.Nil
  \/ exists d cs, chars_of_uint u = d :: cs /\ (d =? 48)%N = false
                  /\ is_digit d = true
                  /\ exists u', cs = chars_of_uint u'.
Proof.
  intros H. destruct u; try (right; do 2 eexists; repeat split; eauto; fail).
  - discriminate.
  - left. f_equal. unfold Decimal.unorm in H. cbn [Decimal.nzhead] in H.
    destruct (Decimal.nzhead u) eqn:E; try congruence.
    exfalso. apply (@nzhead_not_D0 u u). congruence.
Qed.

Lemma ends_number_no_digit rest : ends_number rest -> starts_with_digit rest = false.
Proof.
  destruct rest as [|c r]; [reflexivity|]. cbn. chars.
  intros [->|[->| ->]]; reflexivity.
Qed.

Lemma scan_frac_none rest : ends_number rest -> scan_frac rest = ([], rest).
Proof.
  destruct rest as [|c r]; [reflexivity|]. cbn. chars.
  intros [->|[->| ->]]; reflexivity.
Qed.

Lemma scan_exp_none rest : ends_number rest -> scan_exp rest = ([], rest).
Proof.
  destruct rest as [|c r]; [reflexivity|]. cbn. chars.
  intros [->|[->| ->]]; reflexivity.
Qed.

Lemma scan_integer_digits u rest (neg : bool) :
  Decimal.unorm u = u ->
  starts_with_digit rest = false ->
  match chars_of_uint u ++ rest with
  | [] => None
  | d :: r =>
      if (d =? ch "0")%N then Some (neg, [d], r)
      else if is_digit d
           then let (ds, rest') := span_digits r in Some (neg, d :: ds, rest')
           else None
  end = Some (neg, chars_of_uint u, rest).
Proof.
  intros Hu Hrest.
  destruct (normal_uint_shape Hu) as [->|(d & cs & Hd & Hz & Hdig & u' & ->)].
  - reflexivity.
  - rewrite Hd. cbn [app]. chars. rewrite Hz, Hdig.
    now rewrite span_digits_chars_of_uint.
Qed.

Lemma first_digit_not_minus u d cs :
  chars_of_uint u = d :: cs -> (d =? ch "-")%N = false.
Proof.
  destruct u; cbn [chars_of_uint]; intros [= <- _]; reflexivity.
Qed.

Lemma to_uint_chars_nonempty n : chars_of_uint (N.to_uint n) <> [].
Proof.
  pose proof (to_uint_normal n) as H.
  destruct (N.to_uint n); cbn [chars_of_uint]; try discriminate.
Qed.

Lemma scan_integer_unsigned u rest :
  Decimal.unorm u = u ->
  starts_with_digit rest = false ->
  scan_integer (chars_of_uint u ++ rest) = Some (false, chars_of_uint u, rest).
Proof.
  intros Hu Hrest. unfold scan_integer.
  destruct (chars_of_uint u) as [|d cs] eqn:Hc.
  - destruct (normal_uint_shape Hu) as [->|(d & cs & Hd & _)]; [discriminate|].
    congruence.
  - cbn [app]. rewrite (first_digit_not_minus _ Hc).
    pose proof (@scan_integer_digits _ rest false Hu Hrest) as H.
    rewrite Hc in H. exact H.
Qed.

Lemma scan_integer_signed u rest :
  Decimal.unorm u = u ->
  starts_with_digit rest = false ->
  scan_integer (ch "-" :: chars_of_uint u ++ rest) = Some (true, chars_of_uint u, rest).
Proof.
  intros Hu Hrest. unfold scan_integer.
  change (ch "-" =? ch "-")%N with true. cbn iota.
  exact (@scan_integer_digits _ rest true Hu Hrest).
Qed.

Lemma scan_number_int_repr n rest :
  ends_number rest ->
  scan_number (int_repr n ++ rest) = Some (JInt n, rest).
Proof.
  intros Hrest.
  pose proof (ends_number_no_digit _ Hrest) as Hnd.
  pose proof (to_uint_normal (Z.abs_N n)) as Hu.
  assert (Hval : Z.of_N (N.of_uint (uint_of_chars (chars_of_uint (N.to_uint (Z.abs_N n)))))
                 = Z.abs n).
  { rewrite uint_of_chars_of_uint, DecimalN.Unsigned.of_to. apply N2Z.inj_abs_N. }
  unfold scan_number, int_repr.
  destruct (n <? 0)%Z eqn:Hneg.
  - cbn [app]. rewrite (scan_integer_signed _ Hu Hnd).
    rewrite (scan_frac_none _ Hrest), (scan_exp_none _ Hrest), Hval.
    apply Z.ltb_lt in Hneg. do 3 f_equal. lia.
  - cbn [app]. rewrite (scan_integer_unsigned _ Hu Hnd).
    rewrite (scan_frac_none _ Hrest), (scan_exp_none _ Hrest), Hval.
    apply Z.ltb_ge in Hneg. do 3 f_equal. lia.
Qed.

(** *** Values *)

Lemma dumps_arr l : dumps (JArr l) = ch "[" :: dumps_items l ++ [ch "]"].
Proof. reflexivity. Qed.

Lemma dumps_obj d : dumps (JObj d) = ch "{" :: dumps_members d ++ [ch "}"].
Proof. reflexivity. Qed.

Lemma chars_of_uint_head u d cs :
  chars_of_uint u = d :: cs -> is_digit d = true.
Proof. destruct u; cbn [chars_of_uint]; intros [= <- _]; reflexivity. Qed.

Lemma int_repr_head n :
  exists c t, int_repr n = c :: t /\ (c = 45%N \/ is_digit c = true).
Proof.
  unfold int_repr. destruct (n <? 0)%Z.
  - do 2 eexists. split; [reflexivity|now left].
  - destruct (chars_of_uint (N.to_uint (Z.abs_N n))) as [|d cs] eqn:E;
      [now apply to_uint_chars_nonempty in E|].
    exists d, cs. split; [reflexivity|]. right. eapply chars_of_uint_head; eassumption.
Qed.

Lemma dumps_head v :
  json_compatible v = true -> exists c t, dumps v = c :: t /\ opens_value c.
Proof.
  unfold opens_value.
  destruct v as [|[|]|n|lit|s|l|d]; intros H.
  - exists 110%N, (py "ull"). split; [reflexivity|tauto].
  - exists 116%N, (py "rue"). split; [reflexivity|tauto].
  - exists 102%N, (py "alse"). split; [reflexivity|tauto].
  - destruct (int_repr_head n) as (c & t & Hc & Hd).
    exists c, t. split; [exact Hc|tauto].
  - discriminate H.
  - exists 34%N, (flat_map escape_char s ++ [dquote]). split; [reflexivity|tauto].
  - exists 91%N, (dumps_items l ++ [ch "]"]). split; [reflexivity|tauto].
  - exists 123%N, (dumps_members d ++ [ch "}"]). split; [reflexivity|tauto].
Qed.

Lemma opens_value_facts c :
  opens_value c ->
  is_ws c = false /\ (c =? 93)%N = false /\ (c <? 128)%N = true.
Proof.
  unfold opens_value, is_digit, is_ws.
  intros [->|[->|[->|[->|[H|[->|[->| ->]]]]]]]; try (repeat split; reflexivity).
  compare_chars.
  repeat split; rewrite ?orb_false_iff; repeat split;
    try apply N.eqb_neq; try apply N.ltb_lt; lia.
Qed.

Lemma skip_ws_dumps v t :
  json_compatible v = true -> skip_ws (dumps v ++ t) = dumps v ++ t.
Proof.
  intros H. destruct (dumps_head v H) as (c & t' & -> & Hc).
  destruct (opens_value_facts Hc) as (Hws & _). cbn [app skip_ws]. now rewrite Hws.
Qed.

Lemma scan_once_number f c t :
  c = 45%N \/ is_digit c = true ->
  scan_once (S f) (c :: t)
  = match scan_number (c :: t) with
    | Some (v, rest) => Parsed v rest
    | None =>
        if is_prefix (py "NaN") (c :: t) then Parsed (JFloat (py "NaN")) (skipn 3 (c :: t))
        else if is_prefix (py "Infinity") (c :: t)
             then Parsed (JFloat (py "Infinity")) (skipn 8 (c :: t))
             else if is_prefix (py "-Infinity") (c :: t)
                  then Parsed (JFloat (py "-Infinity")) (skipn 9 (c :: t))
                  else Malformed
    end.
Proof.
  intros Hc. cbn [scan_once]. chars.
  assert (Hne : forall k, (k = 34 \/ k = 123 \/ k = 91 \/ k = 110 \/ k = 116 \/ k = 102)%N ->
                          (c =? k)%N = false /\ (k =? c)%N = false).
  { intros k Hk. unfold is_digit in Hc.
    split; apply N.eqb_neq; destruct Hc as [->|Hc]; compare_chars; lia. }
  rewrite (proj1 (Hne 34%N ltac:(tauto))), (proj1 (Hne 123%N ltac:(tauto))),
    (proj1 (Hne 91%N ltac:(tauto))).
  change (py "null") with [110; 117; 108; 108]%N.
  change (py "true") with [116; 114; 117; 101]%N.
  change (py "false") with [102; 97; 108; 115; 101]%N.
  cbn [is_prefix].
  rewrite (proj2 (Hne 110%N ltac:(tauto))), (proj2 (Hne 116%N ltac:(tauto))),
    (proj2 (Hne 102%N ltac:(tauto))).
  reflexivity.
Qed.

Lemma dict_set_fresh d k v :
  existsb (pystr_eqb k) (map fst d) = false -> dict_set d k v = d ++ [(k, v)].
Proof.
  induction d as [|[k' v'] d IH]; cbn [map fst existsb dict_set app]; [reflexivity|].
  intros H. apply orb_false_iff in H. destruct H as [Hk Hd].
  apply pystr_eqb_neq in Hk.
  replace (pystr_eqb k' k) with false
    by (symmetry; apply pystr_eqb_neq; congruence).
  now rewrite (IH Hd).
Qed.

Lemma existsb_app_false {A} (f : A -> bool) l1 l2 :
  existsb f (l1 ++ l2) = false -> existsb f l1 = false /\ existsb f l2 = false.
Proof. rewrite existsb_app. apply orb_false_iff. Qed.

Lemma distinct_middle l1 k l2 :
  distinct (l1 ++ k :: l2) = true -> existsb (pystr_eqb k) l1 = false.
Proof.
  induction l1 as [|a l1 IH]; cbn [app distinct existsb]; [reflexivity|].
  intros H. apply andb_true_iff in H. destruct H as [Ha Hd].
  apply negb_true_iff in Ha. apply existsb_app_false in Ha. destruct Ha as [_ Ha].
  cbn [existsb] in Ha. apply orb_false_iff in Ha. destruct Ha as [Ha _].
  apply pystr_eqb_neq in Ha.
  replace (pystr_eqb k a) with false by (symmetry; apply pystr_eqb_neq; congruence).
  now apply IH.
Qed.

Lemma dict_update_distinct d : forall acc,
  distinct (map fst (acc ++ d)) = true -> dict_update acc d = acc ++ d.
Proof.
  unfold dict_update.
  induction d as [|[k v] d IH]; intros acc H; cbn [fold_left fst snd].
  - now rewrite app_nil_r.
  - rewrite map_app in H. cbn [map fst] in H.
    rewrite dict_set_fresh by (eapply distinct_middle; exact H).
    rewrite IH; rewrite <- app_assoc; [reflexivity|].
    cbn [app]. now rewrite map_app.
Qed.

Lemma dict_of_pairs_distinct d :
  distinct (map fst d) = true -> dict_of_pairs d = d.
Proof. intros H. unfold dict_of_pairs. now rewrite dict_update_distinct. Qed.

Lemma dumps_items_cons y l : exists t, dumps_items (y :: l) = dumps y ++ t.
Proof.
  destruct l; cbn [dumps_items]; eexists; [symmetry; apply app_nil_r|reflexivity].
Qed.

Lemma skip_ws_dumps_items l t :
  forallb json_compatible l = true -> l <> [] ->
  skip_ws (dumps_items l ++ t) = dumps_items l ++ t.
Proof.
  destruct l as [|y l]; [congruence|]. intros H _.
  cbn [forallb] in H. apply andb_true_iff in H. destruct H as [Hy _].
  destruct (dumps_items_cons y l) as [t' ->].
  rewrite <- app_assoc. now apply skip_ws_dumps.
Qed.

Lemma array_items_dumps l :
  Forall reads_back l -> forallb json_compatible l = true -> l <> [] ->
  forall f rest,
    2 * length (dumps_items l) + 2 <= f ->
    array_items f (dumps_items l ++ ch "]" :: rest) = Parsed l rest.
Proof.
  induction l as [|x l IH]; [congruence|].
  intros HP Hc _ f rest Hf.
  inversion HP as [|? ? Hx HPl]; subst.
  cbn [forallb] in Hc. apply andb_true_iff in Hc. destruct Hc as [Hcx Hcl].
  destruct f as [|f]; [lia|]. cbn [array_items].
  destruct l as [|y l].
  - cbn [dumps_items] in *.
    rewrite (Hx Hcx f (ch "]" :: rest)) by (try lia; cbn; tauto).
    reflexivity.
  - change (dumps_items (x :: y :: l))
      with (dumps x ++ ch "," :: dumps_items (y :: l)) in *.
    rewrite length_app in Hf. cbn [length] in Hf.
    rewrite <- app_assoc. cbn [app].
    rewrite (Hx Hcx f (ch "," :: dumps_items (y :: l) ++ ch "]" :: rest))
      by (try lia; cbn; tauto).
    cbn [skip_ws]. change (is_ws (ch ",")) with false. cbn iota.
    change (ch "," =? ch "]")%N with false. change (ch "," =? ch ",")%N with true.
    cbn iota.
    rewrite skip_ws_dumps_items by (assumption || discriminate).
    rewrite IH by (assumption || discriminate || lia).
    reflexivity.
Qed.

Lemma dumps_members_cons k x d :
  dumps_members ((k, x) :: d)
  = dquote :: flat_map escape_char k ++ dquote :: ch ":" :: dumps x
    ++ match d with
       | [] => []
       | _ :: _ => ch "," :: dumps_members d
       end.
Proof.
  destruct d as [|kv d]; cbn [dumps_members]; unfold encode_basestring_ascii;
    cbn [app]; rewrite <- app_assoc; cbn [app]; [now rewrite app_nil_r|reflexivity].
Qed.

Lemma object_items_dumps d :
  Forall (fun kv => reads_back (snd kv)) d ->
  forallb (fun kv => forallb is_scalar (fst kv) && json_compatible (snd kv)) d = true ->
  d <> [] ->
  forall f rest,
    2 * length (dumps_members d) + 2 <= f ->
    object_items f (tl (dumps_members d) ++ ch "}" :: rest) = Parsed d rest.
Proof.
  induction d as [|[k x] d IH]; [congruence|].
  intros HP Hc _ f rest Hf.
  inversion HP as [|? ? Hx HPd]; subst. cbn [snd] in Hx.
  cbn [forallb fst snd] in Hc. apply andb_true_iff in Hc. destruct Hc as [Hc Hcd].
  apply andb_true_iff in Hc. destruct Hc as [Hk Hcx].
  rewrite dumps_members_cons in Hf |- *. cbn [tl].
  cbn [length] in Hf. rewrite length_app in Hf. cbn [length] in Hf.
  rewrite length_app in Hf.
  destruct f as [|f]; [lia|]. cbn [object_items].
  rewrite <- app_assoc. cbn [app]. rewrite <- app_assoc.
  rewrite scanstring_escaped by exact Hk.
  cbn [skip_ws]. change (is_ws (ch ":")) with false. cbn iota.
  change (ch ":" =? ch ":")%N with true. cbn iota.
  rewrite skip_ws_dumps by assumption.
  destruct d as [|kv d].
  - cbn [app].
    rewrite (Hx Hcx f (ch "}" :: rest)) by (try lia; cbn; tauto).
    reflexivity.
  - cbn [app].
    rewrite (Hx Hcx f (ch "," :: dumps_members (kv :: d) ++ ch "}" :: rest))
      by (try lia; cbn; tauto).
    cbn [skip_ws]. change (is_ws (ch ",")) with false. cbn iota.
    change (ch "," =? ch "}")%N with false. change (ch "," =? ch ",")%N with true.
    cbn iota.
    specialize (IH HPd Hcd ltac:(discriminate) f rest ltac:(cbn [length] in Hf; lia)).
    destruct kv as [k' x']. rewrite dumps_members_cons in IH |- *.
    cbn [tl] in IH. cbn [app skip_ws]. change (is_ws dquote) with false. cbn iota.
    change (dquote =? dquote)%N with true. cbn iota.
    rewrite IH. reflexivity.
Qed.

Lemma dumps_reads_back : forall v, reads_back v.
Proof.
  apply json_induction; unfold reads_back.
  - intros _ [|f] rest Hf Hrest; [cbn in Hf; lia|]. reflexivity.
  - intros [|] _ [|f] rest Hf Hrest; try (cbn in Hf; lia); reflexivity.
  - intros n _ [|f] rest Hf Hrest; [lia|].
    cbn [dumps].
    destruct (int_repr_head n) as (c & t & Hc & Hd).
    pose proof (@scan_number_int_repr n rest Hrest) as Hscan.
    rewrite Hc in Hscan |- *. cbn [app] in Hscan |- *.
    rewrite scan_once_number by exact Hd. now rewrite Hscan.
  - discriminate.
  - intros s Hs [|f] rest Hf Hrest; [lia|].
    cbn [dumps json_compatible] in *. unfold encode_basestring_ascii.
    cbn [app scan_once]. change (dquote =? dquote)%N with true. cbn iota.
    rewrite <- app_assoc. cbn [app].
    now rewrite scanstring_escaped by exact Hs.
  - intros l HP Hc [|f] rest Hf Hrest; [lia|].
    cbn [json_compatible] in Hc. rewrite dumps_arr in Hf |- *.
    cbn [app scan_once]. chars. cbn [N.eqb Pos.eqb].
    rewrite <- app_assoc. cbn [app].
    destruct l as [|x l].
    + reflexivity.
    + rewrite skip_ws_dumps_items by (assumption || discriminate).
      assert (Hopen : exists c t, dumps_items (x :: l) = c :: t /\ (c =? 93)%N = false).
      { destruct (dumps_items_cons x l) as [t' Ht'].
        cbn [forallb] in Hc. apply andb_true_iff in Hc. destruct Hc as [Hx _].
        destruct (dumps_head x Hx) as (c & t & Hd & Ho).
        exists c, (t ++ t'). rewrite Ht', Hd. split; [reflexivity|].
        now destruct (opens_value_facts Ho) as (_ & ? & _). }
      destruct Hopen as (c & t & Ht & Hne).
      cbn [length] in Hf. rewrite length_app in Hf. cbn [length] in Hf.
      pose proof (@array_items_dumps (x :: l) HP Hc ltac:(discriminate) f rest
                    ltac:(lia)) as Harr.
      chars.
      rewrite Ht in Harr |- *. cbn [app] in Harr |- *. rewrite Hne, Harr.
      reflexivity.
  - intros d HP Hc [|f] rest Hf Hrest; [lia|].
    cbn [json_compatible] in Hc. apply andb_true_iff in Hc. destruct Hc as [Hkeys Hc].
    rewrite dumps_obj in Hf |- *.
    cbn [app scan_once]. chars. cbn [N.eqb Pos.eqb].
    rewrite <- app_assoc. cbn [app].
    destruct d as [|[k x] d].
    + reflexivity.
    + cbn [length] in Hf. rewrite length_app in Hf. cbn [length] in Hf.
      pose proof (@object_items_dumps ((k, x) :: d) HP Hc ltac:(discriminate) f rest
                    ltac:(lia)) as Hobj.
      chars.
      rewrite dumps_members_cons in Hobj |- *. cbn [tl] in Hobj.
      cbn [app skip_ws]. chars. change (is_ws 34) with false. cbn iota.
      cbn [N.eqb Pos.eqb]. rewrite Hobj.
      now rewrite dict_of_pairs_distinct by exact Hkeys.
Qed.

(** *** The text is ASCII *)

Lemma ascii_text_codec s :
  forallb (fun c => (c <? 128)%N) s = true ->
  str_encode s = Ok s /\ bytes_decode s = Ok s.
Proof.
  induction s as [|c s IH]; [now split|].
  cbn [forallb]. intros H. apply andb_true_iff in H. destruct H as [Hc Hs].
  destruct (IH Hs) as [He Hd].
  split; cbn [str_encode bytes_decode]; unfold utf8_char; rewrite Hc.
  - now rewrite He.
  - now rewrite Hd.
Qed.

Lemma chars_of_uint_ascii u : forallb (fun c => (c <? 128)%N) (chars_of_uint u) = true.
Proof. induction u; cbn [chars_of_uint forallb]; try reflexivity; exact IHu. Qed.

Lemma u_escape_ascii n :
  (n < 65536)%N -> forallb (fun c => (c <? 128)%N) (u_escape n) = true.
Proof.
  intros H. destruct (hex_digits_of H) as (H1 & H2 & H3 & H4 & _).
  unfold u_escape. cbn [forallb].
  repeat (apply andb_true_iff; split); try reflexivity;
    apply N.ltb_lt; now apply hexdigit_ascii.
Qed.

Lemma escape_char_ascii c :
  is_scalar c = true -> forallb (fun c => (c <? 128)%N) (escape_char c) = true.
Proof.
  intros Hc. unfold is_scalar in Hc. unfold escape_char.
  repeat match goal with
         | |- context [if ?b then _ else _] => destruct b eqn:?
         end; try reflexivity.
  - cbn [forallb]. compare_chars.
    apply andb_true_iff. split; [apply N.ltb_lt; lia|reflexivity].
  - apply u_escape_ascii. compare_chars. lia.
  - compare_chars.
    assert (65536 <= c < 1114112)%N as Hr by lia.
    destruct (surrogate_pair_of Hr) as (Hhi & Hlo & _).
    rewrite forallb_app, !u_escape_ascii by lia. reflexivity.
Qed.

Lemma escaped_ascii s :
  forallb is_scalar s = true ->
  forallb (fun c => (c <? 128)%N) (flat_map escape_char s) = true.
Proof.
  induction s as [|c s IH]; [reflexivity|].
  cbn [forallb flat_map]. intros H. apply andb_true_iff in H. destruct H as [Hc Hs].
  now rewrite forallb_app, escape_char_ascii, IH.
Qed.

Lemma encode_basestring_ascii_is_ascii s :
  forallb is_scalar s = true ->
  forallb (fun c => (c <? 128)%N) (encode_basestring_ascii s) = true.
Proof.
  intros H. unfold encode_basestring_ascii. cbn [forallb].
  now rewrite forallb_app, escaped_ascii.
Qed.

Lemma dumps_items_ascii l :
  Forall (fun v => json_compatible v = true -> ascii_text (dumps v) = true) l ->
  forallb json_compatible l = true ->
  ascii_text (dumps_items l) = true.
Proof.
  unfold ascii_text.
  induction l as [|x l IH]; [reflexivity|]. intros HP Hc.
  inversion HP as [|? ? Hx HPl]; subst.
  cbn [forallb] in Hc. apply andb_true_iff in Hc. destruct Hc as [Hcx Hcl].
  specialize (IH HPl Hcl).
  destruct l as [|y l]; [now apply Hx|].
  change (dumps_items (x :: y :: l)) with (dumps x ++ ch "," :: dumps_items (y :: l)).
  rewrite forallb_app. cbn [forallb]. now rewrite (Hx Hcx), IH.
Qed.

Lemma dumps_members_ascii d :
  Forall (fun kv => json_compatible (snd kv) = true -> ascii_text (dumps (snd kv)) = true)
         d ->
  forallb (fun kv => forallb is_scalar (fst kv) && json_compatible (snd kv)) d = true ->
  ascii_text (dumps_members d) = true.
Proof.
  unfold ascii_text.
  induction d as [|[k x] d IH]; [reflexivity|]. intros HP Hc.
  inversion HP as [|? ? Hx HPd]; subst. cbn [snd] in Hx.
  cbn [forallb fst snd] in Hc. apply andb_true_iff in Hc. destruct Hc as [Hc Hcd].
  apply andb_true_iff in Hc. destruct Hc as [Hk Hcx].
  specialize (IH HPd Hcd).
  destruct d as [|kv d].
  - cbn [dumps_members]. rewrite forallb_app. cbn [forallb].
    now rewrite encode_basestring_ascii_is_ascii, (Hx Hcx).
  - change (dumps_members ((k, x) :: kv :: d))
      with (encode_basestring_ascii k ++ ch ":" :: dumps x
            ++ ch "," :: dumps_members (kv :: d)).
    rewrite forallb_app. cbn [forallb]. rewrite forallb_app. cbn [forallb].
    now rewrite encode_basestring_ascii_is_ascii, (Hx Hcx), IH.
Qed.

Lemma dumps_ascii : forall v,
  json_compatible v = true -> ascii_text (dumps v) = true.
Proof.
  refine (@json_induction
            (fun v => json_compatible v = true -> ascii_text (dumps v) = true)
            _ _ _ _ _ _ _).
  - reflexivity.
  - intros [|] _; reflexivity.
  - intros n _. cbn [dumps]. unfold int_repr, ascii_text.
    rewrite forallb_app, chars_of_uint_ascii. now destruct (n <? 0)%Z.
  - discriminate.
  - intros s Hs. now apply encode_basestring_ascii_is_ascii.
  - intros l HP Hc. cbn [json_compatible] in Hc. rewrite dumps_arr.
    pose proof (dumps_items_ascii HP Hc) as H. unfold ascii_text in *.
    cbn [forallb]. rewrite forallb_app, H. reflexivity.
  - intros d HP Hc. cbn [json_compatible] in Hc.
    apply andb_true_iff in Hc. destruct Hc as [_ Hc]. rewrite dumps_obj.
    pose proof (dumps_members_ascii HP Hc) as H. unfold ascii_text in *.
    cbn [forallb]. rewrite forallb_app, H. reflexivity.
Qed.

(** *** The text is compact *)

Lemma white_space_app a b : white_space (a ++ b) = white_space a ++ white_space b.
Proof. apply filter_app. Qed.

Lemma white_space_none s :
  forallb (fun c => negb (is_ws c)) s = true -> white_space s = [].
Proof.
  induction s as [|c s IH]; [reflexivity|]. cbn [forallb]. intros H.
  apply andb_true_iff in H. destruct H as [Hc Hs]. apply negb_true_iff in Hc.
  unfold white_space in *. cbn [filter]. rewrite Hc. now apply IH.
Qed.

Lemma chars_of_uint_no_space u : white_space (chars_of_uint u) = [].
Proof.
  apply white_space_none.
  induction u; cbn [chars_of_uint forallb]; try reflexivity; exact IHu.
Qed.

Lemma hexdigit_no_space n : (n < 16)%N -> is_ws (hexdigit n) = false.
Proof.
  intros H. unfold hexdigit, is_ws.
  destruct (n <? 10)%N; repeat (apply orb_false_iff; split); apply N.eqb_neq; lia.
Qed.

Lemma u_escape_no_space n : (n < 65536)%N -> white_space (u_escape n) = [].
Proof.
  intros H. destruct (hex_digits_of H) as (H1 & H2 & H3 & H4 & _).
  unfold u_escape, white_space. cbn [filter].
  rewrite !hexdigit_no_space by assumption. reflexivity.
Qed.

Lemma escape_char_white_space c :
  is_scalar c = true ->
  white_space (escape_char c) = if (32 =? c)%N then [32%N] else [].
Proof.
  intros Hc. unfold is_scalar in Hc. unfold escape_char. chars.
  destruct (c =? 34)%N eqn:E1; [apply N.eqb_eq in E1; subst c; reflexivity|].
  destruct (c =? 92)%N eqn:E2; [apply N.eqb_eq in E2; subst c; reflexivity|].
  destruct (c =? 8)%N eqn:E3; [apply N.eqb_eq in E3; subst c; reflexivity|].
  destruct (c =? 12)%N eqn:E4; [apply N.eqb_eq in E4; subst c; reflexivity|].
  destruct (c =? 10)%N eqn:E5; [apply N.eqb_eq in E5; subst c; reflexivity|].
  destruct (c =? 13)%N eqn:E6; [apply N.eqb_eq in E6; subst c; reflexivity|].
  destruct (c =? 9)%N eqn:E7; [apply N.eqb_eq in E7; subst c; reflexivity|].
  destruct ((32 <=? c)%N && (c <=? 126)%N) eqn:E8.
  - unfold white_space, is_ws. cbn [filter]. rewrite E5, E6, E7.
    rewrite N.eqb_sym. rewrite !orb_false_r.
    destruct (32 =? c)%N eqn:E; [|reflexivity].
    apply N.eqb_eq in E. now subst c.
  - replace (32 =? c)%N with false
      by (symmetry; apply N.eqb_neq; intros <-; discriminate).
    destruct (c <? 65536)%N eqn:E9.
    + apply u_escape_no_space. now apply N.ltb_lt.
    + compare_chars.
      assert (65536 <= c < 1114112)%N as Hr by lia.
      destruct (surrogate_pair_of Hr) as (Hhi & Hlo & _).
      rewrite white_space_app, !u_escape_no_space by lia. reflexivity.
Qed.

Lemma escaped_white_space s :
  forallb is_scalar s = true ->
  length (white_space (flat_map escape_char s)) = spaces s.
Proof.
  unfold spaces.
  induction s as [|c s IH]; [reflexivity|].
  cbn [forallb flat_map filter]. intros H. apply andb_true_iff in H.
  destruct H as [Hc Hs].
  rewrite white_space_app, length_app, (escape_char_white_space _ Hc), (IH Hs).
  now destruct (32 =? c)%N.
Qed.

Lemma encoded_string_white_space s :
  forallb is_scalar s = true ->
  length (white_space (encode_basestring_ascii s)) = spaces s.
Proof.
  intros H. unfold encode_basestring_ascii.
  change (dquote :: flat_map escape_char s ++ [dquote])
    with ([dquote] ++ flat_map escape_char s ++ [dquote]).
  rewrite !white_space_app, !length_app, (escaped_white_space _ H).
  cbn. lia.
Qed.

(** The encoded text has no white space of its own: what it has are the
    spaces of the strings of the value. *)
Lemma dumps_is_compact : forall v,
  json_compatible v = true -> length (white_space (dumps v)) = spaces_in v.
Proof.
  refine (@json_induction
            (fun v => json_compatible v = true ->
                      length (white_space (dumps v)) = spaces_in v)
            _ _ _ _ _ _ _).
  - reflexivity.
  - intros [|] _; reflexivity.
  - intros n _. cbn [dumps spaces_in]. unfold int_repr.
    rewrite white_space_app, chars_of_uint_no_space. now destruct (n <? 0)%Z.
  - discriminate.
  - intros s Hs. now apply encoded_string_white_space.
  - intros l HP Hc. cbn [json_compatible spaces_in] in *. rewrite dumps_arr.
    change (ch "[" :: dumps_items l ++ [ch "]"])
      with ([ch "["] ++ dumps_items l ++ [ch "]"]).
    rewrite !white_space_app, !length_app.
    change (length (white_space [ch "["])) with 0.
    change (length (white_space [ch "]"])) with 0.
    rewrite Nat.add_0_l, Nat.add_0_r.
    induction l as [|x l IH]; [reflexivity|].
    inversion HP as [|? ? Hx HPl]; subst.
    cbn [forallb] in Hc. apply andb_true_iff in Hc. destruct Hc as [Hcx Hcl].
    specialize (IH HPl Hcl). cbn [map list_sum fold_right] in *.
    destruct l as [|y l]; cbn [map list_sum fold_right] in *.
    + cbn [dumps_items]. rewrite (Hx Hcx). lia.
    + change (dumps_items (x :: y :: l))
        with (dumps x ++ [ch ","] ++ dumps_items (y :: l)).
      rewrite !white_space_app, !length_app, (Hx Hcx), IH. reflexivity.
  - intros d HP Hc. cbn [json_compatible spaces_in] in *.
    apply andb_true_iff in Hc. destruct Hc as [_ Hc]. rewrite dumps_obj.
    change (ch "{" :: dumps_members d ++ [ch "}"])
      with ([ch "{"] ++ dumps_members d ++ [ch "}"]).
    rewrite !white_space_app, !length_app.
    change (length (white_space [ch "{"])) with 0.
    change (length (white_space [ch "}"])) with 0.
    rewrite Nat.add_0_l, Nat.add_0_r.
    induction d as [|[k x] d IH]; [reflexivity|].
    inversion HP as [|? ? Hx HPd]; subst. cbn [snd] in Hx.
    cbn [forallb fst snd] in Hc. apply andb_true_iff in Hc. destruct Hc as [Hc Hcd].
    apply andb_true_iff in Hc. destruct Hc as [Hk Hcx].
    specialize (IH HPd Hcd). cbn [map list_sum fold_right fst snd] in *.
    destruct d as [|kv d]; cbn [map list_sum fold_right fst snd] in *.
    + cbn [dumps_members].
      change (encode_basestring_ascii k ++ ch ":" :: dumps x)
        with (encode_basestring_ascii k ++ [ch ":"] ++ dumps x).
      rewrite !white_space_app, !length_app, (encoded_string_white_space _ Hk),
        (Hx Hcx).
      cbn. lia.
    + change (dumps_members ((k, x) :: kv :: d))
        with (encode_basestring_ascii k ++ [ch ":"] ++ dumps x
              ++ [ch ","] ++ dumps_members (kv :: d)).
      rewrite !white_space_app, !length_app, (encoded_string_white_space _ Hk),
        (Hx Hcx), IH.
      cbn. lia.
Qed.

(** *** The codec *)

Lemma loads_dumps v : json_compatible v = true -> loads (dumps v) = Ok v.
Proof.
  intros Hv. unfold loads.
  destruct (dumps_head v Hv) as (c & t & Hd & Ho).
  destruct (opens_value_facts Ho) as (Hws & _ & Hascii).
  replace (is_prefix [65279%N] (dumps v)) with false.
  2:{ rewrite Hd. cbn [is_prefix]. apply N.ltb_lt in Hascii.
      replace (65279 =? c)%N with false by (symmetry; apply N.eqb_neq; lia).
      reflexivity. }
  pose proof (skip_ws_dumps v [] Hv) as Hskip. rewrite app_nil_r in Hskip.
  rewrite Hskip.
  pose proof (@dumps_reads_back v Hv (2 * length (dumps v) + 1) [] (le_n _) I) as Hscan.
  rewrite app_nil_r in Hscan. rewrite Hscan. reflexivity.
Qed.



(** ** The patch of a tile, in general *)

Lemma dict_get_set_other d k k' v :
  k <> k' -> dict_get (dict_set d k v) k' = dict_get d k'.
Proof.
  intros Hne. induction d as [|[k0 v0] d IH]; cbn [dict_set dict_get].
  - now replace (pystr_eqb k k') with false by (symmetry; now apply pystr_eqb_neq).
  - destruct (pystr_eqb k0 k) eqn:E; cbn [dict_get].
    + apply pystr_eqb_eq in E. subst k0.
      now replace (pystr_eqb k k') with false by (symmetry; now apply pystr_eqb_neq).
    + now rewrite IH.
Qed.

Lemma dict_get_set_same d k v : dict_get (dict_set d k v) k = Some v.
Proof.
  induction d as [|[k0 v0] d IH]; cbn [dict_set dict_get].
  - now rewrite pystr_eqb_refl.
  - destruct (pystr_eqb k0 k) eqn:E; cbn [dict_get]; now rewrite E.
Qed.

(** Keys that the patch does not name keep their value. *)
Lemma dict_update_survives other : forall d k,
  dict_get other k = None -> dict_get (dict_update d other) k = dict_get d k.
Proof.
  unfold dict_update.
  induction other as [|[k0 v0] other IH]; intros d k H; cbn [fold_left fst snd].
  - reflexivity.
  - cbn [dict_get] in H. destruct (pystr_eqb k0 k) eqn:E; [discriminate|].
    rewrite (IH _ _ H). apply dict_get_set_other. now apply pystr_eqb_neq.
Qed.

(** Keys that the patch names take the value the patch gives them. *)
Lemma dict_update_overrides other : forall d k v,
  distinct (map fst other) = true -> dict_get other k = Some v ->
  dict_get (dict_update d other) k = Some v.
Proof.
  unfold dict_update.
  induction other as [|[k0 v0] other IH]; intros d k v Hd H; [discriminate|].
  cbn [map fst distinct] in Hd. apply andb_true_iff in Hd. destruct Hd as [Hk0 Hd].
  cbn [fold_left fst snd]. cbn [dict_get] in H.
  destruct (pystr_eqb k0 k) eqn:E.
  - injection H as <-. apply pystr_eqb_eq in E. subst k0.
    fold (dict_update (dict_set d k v0) other).
    rewrite dict_update_survives; [apply dict_get_set_same|].
    apply negb_true_iff in Hk0. clear - Hk0.
    induction other as [|[k1 v1] other IH]; [reflexivity|].
    cbn [map fst existsb] in Hk0. apply orb_false_iff in Hk0. destruct Hk0 as [H1 H2].
    cbn [dict_get].
    replace (pystr_eqb k1 k) with false
      by (symmetry; apply pystr_eqb_neq; apply pystr_eqb_neq in H1; congruence).
    now apply IH.
  - now apply IH.
Qed.

Lemma kwargs_of_tile_update labels md au ad ac :
  kwarg (_create_tile_update labels md au ad ac) "metadata" = JNull
  /\ kwarg (_create_tile_update labels md au ad ac) "annotationUID" = JObj au
  /\ kwarg (_create_tile_update labels md au ad ac) "auditUID" = JObj ad
  /\ kwarg (_create_tile_update labels md au ad ac) "annotationComplete" = JObj ac
  /\ kwarg (_create_tile_update labels md au ad ac) "imageLabels"
     = match labels with
       | Some l => JArr (map JStr l)
       | None => JNull
       end.
Proof. destruct labels; repeat split; reflexivity. Qed.

(** What [update_tile] does with a patch built by [_create_tile_update]: the
    metadata of the patch does not occur in it. *)
Lemma update_tile_on_patch tile labels md au ad ac :
  update_tile tile (_create_tile_update labels md au ad ac)
  = (t1 <-- update_field tile "annotationUID" (JObj au) ;;
     t2 <-- update_field t1 "auditUID" (JObj ad) ;;
     t3 <-- update_field
              (if negb (dict_mem t2 (py "annotationComplete"))
               then dict_set t2 (py "annotationComplete") (JObj []) else t2)
              "annotationComplete" (JObj ac) ;;
     Ok (match labels with
         | Some l => dict_set t3 (py "imageLabels") (JArr (map JStr l))
         | None => t3
         end)).
Proof.
  unfold update_tile.
  destruct (kwargs_of_tile_update labels md au ad ac) as (-> & -> & -> & -> & ->).
  cbn [is_none negb rbind].
  destruct (update_field tile "annotationUID" (JObj au)) as [t1|]; [|reflexivity].
  cbn [rbind].
  destruct (update_field t1 "auditUID" (JObj ad)) as [t2|]; [|reflexivity].
  cbn [rbind].
  destruct (update_field _ "annotationComplete" (JObj ac)) as [t3|]; [|reflexivity].
  cbn [rbind]. now destruct labels.
Qed.

Lemma update_field_other tile field patch tile' k :
  update_field tile field patch = Ok tile' -> py field <> k ->
  dict_get tile' k = dict_get tile k.
Proof.
  unfold update_field. intros H Hne.
  destruct (getitem (JObj tile) (py field)) as [old|]; [|discriminate].
  cbn [rbind] in H. destruct (method_update old patch) as [new|]; [|discriminate].
  injection H as <-. now apply dict_get_set_other.
Qed.

(** The general form of the defect behind C3: whatever metadata a patch
    carries, the [fileInfo] of the tile is what it was. *)
Lemma update_tile_keeps_fileInfo tile labels md au ad ac tile' :
  update_tile tile (_create_tile_update labels md au ad ac) = Ok tile' ->
  dict_get tile' (py "fileInfo") = dict_get tile (py "fileInfo").
Proof.
  rewrite update_tile_on_patch. intros H.
  destruct (update_field tile "annotationUID" (JObj au)) as [t1|] eqn:E1;
    [|discriminate]. cbn [rbind] in H.
  destruct (update_field t1 "auditUID" (JObj ad)) as [t2|] eqn:E2;
    [|discriminate]. cbn [rbind] in H.
  destruct (update_field _ "annotationComplete" (JObj ac)) as [t3|] eqn:E3;
    [|discriminate]. cbn [rbind] in H. injection H as <-.
  assert (Hkey : forall field, In field ["annotationUID"; "auditUID"; "annotationComplete";
                                          "imageLabels"]%string ->
                               py field <> py "fileInfo").
  { intros field [<-|[<-|[<-|[<-|[]]]]]; vm_compute; discriminate. }
  assert (H3 : dict_get t3 (py "fileInfo") = dict_get tile (py "fileInfo")).
  { rewrite (@update_field_other _ _ _ _ (py "fileInfo") E3)
      by (apply Hkey; cbn; tauto).
    transitivity (dict_get t2 (py "fileInfo")).
    - destruct (negb (dict_mem t2 (py "annotationComplete"))); [|reflexivity].
      apply dict_get_set_other. apply (Hkey "annotationComplete"%string). cbn; tauto.
    - rewrite (@update_field_other _ _ _ _ (py "fileInfo") E2)
        by (apply Hkey; cbn; tauto).
      apply (@update_field_other _ _ _ _ (py "fileInfo") E1). apply Hkey; cbn; tauto. }
  destruct labels; [|exact H3].
  rewrite dict_get_set_other by (apply (Hkey "imageLabels"%string); cbn; tauto).
  exact H3.
Qed.

Lemma update_field_same tile field old patch tile' :
  dict_get tile (py field) = Some (JObj old) ->
  update_field tile field (JObj patch) = Ok tile' ->
  dict_get tile' (py field) = Some (JObj (dict_update old patch)).
Proof.
  unfold update_field. cbn [getitem]. intros -> H. cbn [rbind method_update] in H.
  injection H as <-. apply dict_get_set_same.
Qed.

(** The part of C3 that holds in general: the three other mappings of the
    tile are merged with those of the patch, by [dict.update]; by
    [dict_update_survives] and [dict_update_overrides] that is key by key. *)
Lemma update_tile_merges_mappings tile labels md au ad ac tile' au0 ad0 ac0 :
  dict_get tile (py "annotationUID") = Some (JObj au0) ->
  dict_get tile (py "auditUID") = Some (JObj ad0) ->
  dict_get tile (py "annotationComplete") = Some (JObj ac0) ->
  update_tile tile (_create_tile_update labels md au ad ac) = Ok tile' ->
  dict_get tile' (py "annotationUID") = Some (JObj (dict_update au0 au))
  /\ dict_get tile' (py "auditUID") = Some (JObj (dict_update ad0 ad))
  /\ dict_get tile' (py "annotationComplete") = Some (JObj (dict_update ac0 ac))
  /\ dict_get tile' (py "imageLabels")
     = match labels with
       | Some l => Some (JArr (map JStr l))
       | None => dict_get tile (py "imageLabels")
       end.
Proof.
  intros Hau Had Hac. rewrite update_tile_on_patch. intros H.
  destruct (update_field tile "annotationUID" (JObj au)) as [t1|] eqn:E1;
    [|discriminate]. cbn [rbind] in H.
  destruct (update_field t1 "auditUID" (JObj ad)) as [t2|] eqn:E2;
    [|discriminate]. cbn [rbind] in H.
  assert (Hne : forall a b, In (a, b)
            [("annotationUID", "auditUID"); ("annotationUID", "annotationComplete");
             ("annotationUID", "imageLabels"); ("auditUID", "annotationUID");
             ("auditUID", "annotationComplete"); ("auditUID", "imageLabels");
             ("annotationComplete", "annotationUID"); ("annotationComplete", "auditUID");
             ("annotationComplete", "imageLabels"); ("imageLabels", "annotationUID");
             ("imageLabels", "auditUID"); ("imageLabels", "annotationComplete")]%string ->
            py a <> py b).
  { intros a b Hin. cbn [In] in Hin.
    repeat (destruct Hin as [[= <- <-]|Hin]; [vm_compute; discriminate|]).
    destruct Hin. }
  assert (Hmem : dict_mem t2 (py "annotationComplete") = true).
  { unfold dict_mem.
    rewrite (@update_field_other _ _ _ _ (py "annotationComplete") E2)
      by (apply Hne; cbn; tauto).
    rewrite (@update_field_other _ _ _ _ (py "annotationComplete") E1)
      by (apply Hne; cbn; tauto).
    now rewrite Hac. }
  rewrite Hmem in H. cbn [negb] in H.
  destruct (update_field t2 "annotationComplete" (JObj ac)) as [t3|] eqn:E3;
    [|discriminate]. cbn [rbind] in H. injection H as <-.
  assert (H1 : dict_get t3 (py "annotationUID") = Some (JObj (dict_update au0 au))).
  { rewrite (@update_field_other _ _ _ _ (py "annotationUID") E3)
      by (apply Hne; cbn; tauto).
    rewrite (@update_field_other _ _ _ _ (py "annotationUID") E2)
      by (apply Hne; cbn; tauto).
    exact (@update_field_same _ _ _ _ _ Hau E1). }
  assert (H2 : dict_get t3 (py "auditUID") = Some (JObj (dict_update ad0 ad))).
  { rewrite (@update_field_other _ _ _ _ (py "auditUID") E3)
      by (apply Hne; cbn; tauto).
    apply (@update_field_same t1 _ ad0 ad t2); [|exact E2].
    rewrite (@update_field_other _ _ _ _ (py "auditUID") E1)
      by (apply Hne; cbn; tauto).
    exact Had. }
  assert (H3 : dict_get t3 (py "annotationComplete")
               = Some (JObj (dict_update ac0 ac))).
  { apply (@update_field_same t2 _ ac0 ac t3); [|exact E3].
    rewrite (@update_field_other _ _ _ _ (py "annotationComplete") E2)
      by (apply Hne; cbn; tauto).
    rewrite (@update_field_other _ _ _ _ (py "annotationComplete") E1)
      by (apply Hne; cbn; tauto).
    exact Hac. }
  assert (H4 : dict_get t3 (py "imageLabels") = dict_get tile (py "imageLabels")).
  { rewrite (@update_field_other _ _ _ _ (py "imageLabels") E3)
      by (apply Hne; cbn; tauto).
    rewrite (@update_field_other _ _ _ _ (py "imageLabels") E2)
      by (apply Hne; cbn; tauto).
    apply (@update_field_other _ _ _ _ (py "imageLabels") E1). apply Hne; cbn; tauto. }
  destruct labels as [l|]; [|now repeat split].
  rewrite !dict_get_set_other by (apply Hne; cbn; tauto).
  rewrite dict_get_set_same. now repeat split.
Qed.

(** ** The update of an annotation item, in general *)

(** The general form of the defect behind C1 and C2: for a stored record
    with a last element that has the fields of an annotation, empty or not,
    [_update_annotation_item] writes back the record without that element,
    followed by the new annotations. *)
Lemma update_annotation_item_pops_last :
  forall w c im image_item_uid u it s prev last empty annotations new_content,
    gliff_project w = Some (mkProject (Some c) (Some im)) ->
    find_item (items (server w)) im u = Some it ->
    bytes_decode (item_content it) = Ok s ->
    loads s = Ok (JArr (prev ++ [last])) ->
    is_empty_annotation last = Ok empty ->
    _encode_content (JArr (prev ++ annotations)) = Ok new_content ->
    _update_annotation_item (uid c) image_item_uid (JStr u) annotations [] w
    = (Ok (JStr (item_uid it)),
       mkWorld (gliff_project w)
               (mkEtebase (collections (server w))
                  (put_item (items (server w)) im
                     (mkItem (item_uid it)
                             (dict_set (meta it) (py "modifiedTime")
                                       (JInt (clock w (ticks w))))
                             new_content))
                  (fetched (server w)) (minted (server w)) (uid_source (server w)))
               (clock w) (S (ticks w)) (logged w)).
Proof.
  intros w c im image u it s prev last empty annotations new_content
         Hp Hit Hs Hl Hempty Henc.
  unfold _update_annotation_item.
  erewrite bind_ok by (eapply has_project_loaded; exact Hp). cbn [negb].
  erewrite bind_ok by (eapply fetch_project_data_hit; exact Hp).
  erewrite bind_ok by (eapply get_project_item_found; [exact Hp|exact Hit]).
  rewrite (@bind_ok _ _ (deref (Some it)) _ w it w) by reflexivity.
  erewrite bind_ok by (eapply decode_content_ok; [exact Hs|exact Hl]).
  cbn [py_len]. unfold lift at 1.
  rewrite (@bind_ok _ _ _ _ w (length (prev ++ [last])) w) by reflexivity.
  assert (Hlast : getitem_last (JArr (prev ++ [last])) = Ok last).
  { cbn [getitem_last]. now rewrite rev_app_distr. }
  rewrite Hlast. unfold lift at 1.
  rewrite (@bind_ok _ _ _ _ w last w) by reflexivity.
  rewrite Hempty. unfold lift at 1.
  rewrite (@bind_ok _ _ _ _ w empty w) by reflexivity.
  assert (Hcond : (Z.land 0 (Z.b2z empty) <? Z.of_nat (length (prev ++ [last])))%Z = true).
  { rewrite Z.land_0_l, length_app. cbn [length]. apply Z.ltb_lt. lia. }
  rewrite Hcond.
  assert (Hpop : method_pop (JArr (prev ++ [last])) = Ok (JArr prev)).
  { unfold method_pop. destruct (prev ++ [last]) eqn:E.
    - now destruct prev.
    - rewrite <- E. now rewrite removelast_last. }
  rewrite Hpop. unfold lift at 1.
  rewrite (@bind_ok _ _ _ _ w (JArr prev) w) by reflexivity.
  unfold get_current_time, Project.self, Client.transaction_item, put_world, set_server.
  unfold bind, get_world, deref, lift, ret. cbn [iterate]. rewrite Henc.
  cbn. rewrite Hp. reflexivity.
Qed.

(** ** The gallery in the store *)

Lemma encode_then_decode v w :
  json_compatible v = true ->
  _encode_content v = Ok (dumps v) /\ _decode_content (dumps v) w = (Ok v, w).
Proof.
  intros Hv. destruct (ascii_text_codec _ (dumps_ascii v Hv)) as [Henc Hdec].
  split; [exact Henc|].
  apply decode_content_ok with (dumps v); [exact Hdec|now apply loads_dumps].
Qed.

Lemma find_put_collection cs c : find_collection (put_collection cs c) (uid c) = Some c.
Proof.
  induction cs as [|c' cs IH]; cbn [put_collection find_collection].
  - now rewrite pystr_eqb_refl.
  - destruct (pystr_eqb (uid c') (uid c)) eqn:E; cbn [find_collection].
    + now rewrite pystr_eqb_refl.
    + now rewrite E.
Qed.

Lemma self_run w p : gliff_project w = Some p -> Project.self w = (Ok p, w).
Proof.
  intros H. unfold Project.self, bind, get_world, deref. now rewrite H.
Qed.

Lemma set_content_open w c im b :
  gliff_project w = Some (mkProject (Some c) im) ->
  Project.set_content b w = (Ok tt, committed w c im b).
Proof.
  intros H. unfold Project.set_content.
  erewrite bind_ok by (apply self_run; exact H). reflexivity.
Qed.

Lemma set_gallery_open w c im g :
  gliff_project w = Some (mkProject (Some c) im) ->
  json_compatible g = true ->
  _set_gallery g w = (Ok tt, committed w c im (dumps g)).
Proof.
  intros H Hg. unfold _set_gallery.
  destruct (encode_then_decode g w Hg) as [-> _].
  unfold lift at 1. erewrite bind_ok by reflexivity.
  now apply set_content_open.
Qed.

Lemma get_gallery_committed w c im g :
  json_compatible g = true ->
  _get_gallery (committed w c im (dumps g)) = (Ok g, committed w c im (dumps g)).
Proof.
  intros Hg.
  destruct (encode_then_decode g (committed w c im (dumps g)) Hg) as [_ Hdec].
  unfold _get_gallery, Project.content.
  erewrite bind_ok; [|erewrite bind_ok by (apply self_run; reflexivity); reflexivity].
  cbn [project Store.content]. unfold deref at 1.
  erewrite bind_ok by reflexivity. exact Hdec.
Qed.



(** With no project loaded the content setter does nothing: the gallery
    handed to [_set_gallery] is dropped without an error. *)
Theorem set_gallery_unloaded_is_dropped :
  forall w im g b,
    gliff_project w = Some (mkProject None im) ->
    _encode_content g = Ok b ->
    _set_gallery g w = (Ok tt, w).
Proof.
  intros w im g b Hp Hb. unfold _set_gallery. rewrite Hb.
  unfold lift at 1. erewrite bind_ok by reflexivity.
  unfold Project.set_content. erewrite bind_ok by (apply self_run; exact Hp).
  reflexivity.
Qed.

Lemma set_gallery_unloaded_is_dropped_witness :
  _set_gallery (JArr []) world0 = (Ok tt, world0).
Proof.
  apply (@set_gallery_unloaded_is_dropped world0 None (JArr []) (dumps (JArr [])));
    reflexivity.
Defined.

(** ** Finding a tile *)

Lemma find_tile_from_spec tiles id : forall i r,
  find_tile_from i tiles id = Ok r ->
  match r with
  | Some k =>
      exists before tile rest,
        tiles = before ++ tile :: rest /\ k = i + length before
        /\ Forall (other_tile id) before /\ tile_of id tile
  | None => Forall (other_tile id) tiles
  end.
Proof.
  induction tiles as [|t tiles IH]; intros i r; cbn [find_tile_from].
  - intros [= <-]. constructor.
  - destruct (getitem t (py "id")) as [tid|] eqn:Hid; [|discriminate].
    cbn [rbind]. destruct (eq_str tid id) eqn:Heq.
    + intros [= <-]. exists [], t, tiles. cbn [app length].
      repeat split; [lia|constructor|]. now exists tid.
    + intros H. specialize (IH _ _ H). destruct r as [k|].
      * destruct IH as (before & tile & rest & -> & -> & Hb & Ht).
        exists (t :: before), tile, rest. cbn [app length].
        repeat split; [lia| |exact Ht]. constructor; [now exists tid|exact Hb].
      * constructor; [now exists tid|exact IH].
Qed.

(** X2: [_find_gallery_tile] returns the position of the first tile with the
    requested id: every tile before it has another id; and it returns
    [None] only when every tile has another id.  Duplicates are not looked
    for: the first one wins. *)
Theorem find_gallery_tile_first_match :
  forall tiles id r,
    _find_gallery_tile (JArr tiles) id = Ok r ->
    match r with
    | Some k =>
        exists before tile rest,
          tiles = before ++ tile :: rest /\ k = length before
          /\ Forall (other_tile id) before /\ tile_of id tile
    | None => Forall (other_tile id) tiles
    end.
Proof.
  intros tiles id r H. unfold _find_gallery_tile in H. cbn [iterate rbind] in H.
  apply find_tile_from_spec in H. destruct r; [|exact H].
  destruct H as (before & tile & rest & H1 & H2 & H3 & H4).
  exists before, tile, rest. repeat split; assumption.
Qed.

Lemma find_gallery_tile_first_match_witness :
  exists before tile rest,
    [tile1; _create_new_tile (py "img2") (py "t") [] [] [] [] [];
     _create_new_tile (py "img2") (py "t2") [] [] [] [] []]
    = before ++ tile :: rest
    /\ 1 = length before
    /\ Forall (other_tile (py "img2")) before /\ tile_of (py "img2") tile.
Proof.
  apply (@find_gallery_tile_first_match
           [tile1; _create_new_tile (py "img2") (py "t") [] [] [] [] [];
            _create_new_tile (py "img2") (py "t2") [] [] [] [] []]
           (py "img2") (Some 1)).
  reflexivity.
Defined.

Lemma find_tile_from_found before tile rest id i :
  Forall (other_tile id) before -> tile_of id tile ->
  find_tile_from i (before ++ tile :: rest) id = Ok (Some (i + length before)).
Proof.
  intros Hb (tid & Hid & Heq). revert i.
  induction Hb as [|t before (tj & Hj & Hne) _ IH]; intros i;
    cbn [app find_tile_from length].
  - rewrite Hid. cbn [rbind]. rewrite Heq. f_equal. f_equal. lia.
  - rewrite Hj. cbn [rbind]. rewrite Hne, IH. f_equal. f_equal. lia.
Qed.

Lemma find_gallery_tile_found before tile rest id :
  Forall (other_tile id) before -> tile_of id tile ->
  _find_gallery_tile (JArr (before ++ tile :: rest)) id = Ok (Some (length before)).
Proof.
  intros Hb Ht. unfold _find_gallery_tile. cbn [iterate rbind].
  now rewrite (find_tile_from_found rest 0 Hb Ht).
Qed.

Lemma find_gallery_tile_absent tiles id :
  Forall (other_tile id) tiles -> _find_gallery_tile (JArr tiles) id = Ok None.
Proof.
  intros H. unfold _find_gallery_tile. cbn [iterate rbind].
  now apply find_tile_from_absent.
Qed.

(** ** Adding a tile *)

Lemma create_gallery_tile_run w c im s tiles tile :
  gliff_project w = Some (mkProject (Some c) im) ->
  bytes_decode (content c) = Ok s ->
  loads s = Ok (JArr tiles) ->
  json_compatible (JArr (tiles ++ [tile])) = true ->
  _create_gallery_tile tile w
  = (Ok tt, committed w c im (dumps (JArr (tiles ++ [tile])))).
Proof.
  intros Hp Hs Hl Hc. unfold _create_gallery_tile. apply try_except_ok.
  erewrite bind_ok by (eapply get_gallery_ok; eassumption).
  cbn [method_append]. unfold lift at 1. erewrite bind_ok by reflexivity.
  now apply set_gallery_open.
Qed.





(** ** Reading the metadata and the labels of an image *)

Lemma getitem_index_found before tile rest :
  getitem_index (JArr (before ++ tile :: rest)) (Some (length before)) = Ok tile.
Proof.
  cbn [getitem_index getitem_nat].
  rewrite nth_error_app2 by lia. now rewrite Nat.sub_diag.
Qed.

Lemma get_metadata_and_labels_found w c im s before tile rest id fi il :
  gliff_project w = Some (mkProject (Some c) im) ->
  bytes_decode (content c) = Ok s ->
  loads s = Ok (JArr (before ++ tile :: rest)) ->
  Forall (other_tile id) before -> tile_of id tile ->
  getitem tile (py "fileInfo") = Ok fi ->
  getitem tile (py "imageLabels") = Ok il ->
  get_metadata_and_labels (uid c) id w = (Ok (Some (fi, il)), w).
Proof.
  intros Hp Hs Hl Hb Ht Hfi Hil. unfold get_metadata_and_labels.
  erewrite bind_ok by (eapply has_project_loaded; exact Hp). cbn [negb].
  erewrite bind_ok by (eapply fetch_project_data_hit; exact Hp).
  apply try_except_ok.
  erewrite bind_ok by (eapply get_gallery_ok; eassumption).
  rewrite (find_gallery_tile_found rest Hb Ht).
  unfold lift at 1. erewrite bind_ok by reflexivity.
  rewrite getitem_index_found.
  unfold lift at 1. erewrite bind_ok by reflexivity.
  rewrite Hfi. unfold lift at 1. erewrite bind_ok by reflexivity.
  unfold lift at 1. erewrite bind_ok by reflexivity.
  rewrite Hil. unfold lift at 1. erewrite bind_ok by reflexivity.
  reflexivity.
Qed.

(** X5: [get_metadata_and_labels] answers from the first tile with the
    requested id, with that tile's [fileInfo] and [imageLabels], and changes
    nothing; when no tile has the id, the miss is logged and the answer is
    [None]. *)
Theorem get_metadata_and_labels_reads_first_tile :
  forall w c im s tiles id,
    gliff_project w = Some (mkProject (Some c) im) ->
    bytes_decode (content c) = Ok s ->
    loads s = Ok (JArr tiles) ->
    (forall before tile rest fi il,
        tiles = before ++ tile :: rest ->
        Forall (other_tile id) before -> tile_of id tile ->
        getitem tile (py "fileInfo") = Ok fi ->
        getitem tile (py "imageLabels") = Ok il ->
        get_metadata_and_labels (uid c) id w = (Ok (Some (fi, il)), w))
    /\ (Forall (other_tile id) tiles ->
        get_metadata_and_labels (uid c) id w
        = (Ok None,
           logging (LogError "error while retrieving image item's metadata"
                             (Some TypeError)) w)).
Proof.
  intros w c im s tiles id Hp Hs Hl. split.
  - intros before tile rest fi il -> Hb Ht Hfi Hil.
    eapply get_metadata_and_labels_found; eassumption.
  - intros Habs. unfold get_metadata_and_labels.
    erewrite bind_ok by (eapply has_project_loaded; exact Hp). cbn [negb].
    erewrite bind_ok by (eapply fetch_project_data_hit; exact Hp).
    erewrite try_except_raise; [reflexivity|].
    erewrite bind_ok by (eapply get_gallery_ok; eassumption).
    rewrite (find_gallery_tile_absent Habs). reflexivity.
Qed.

Lemma get_metadata_and_labels_reads_first_tile_witness :
  (forall before tile rest fi il,
      [tile1] = before ++ tile :: rest ->
      Forall (other_tile (py "img2")) before -> tile_of (py "img2") tile ->
      getitem tile (py "fileInfo") = Ok fi ->
      getitem tile (py "imageLabels") = Ok il ->
      get_metadata_and_labels (uid (mkCollection proj (encoded (JArr [tile1]))))
        (py "img2") world_open
      = (Ok (Some (fi, il)), world_open))
  /\ (Forall (other_tile (py "img2")) [tile1] ->
      get_metadata_and_labels (uid (mkCollection proj (encoded (JArr [tile1]))))
        (py "img2") world_open
      = (Ok None,
         logging (LogError "error while retrieving image item's metadata"
                           (Some TypeError)) world_open)).
Proof.
  apply (@get_metadata_and_labels_reads_first_tile world_open
           (mkCollection proj (encoded (JArr [tile1]))) (Some proj)
           (dumps (JArr [tile1])) [tile1] (py "img2")); vm_compute; reflexivity.
Defined.

Lemma dumps_decodes g :
  json_compatible g = true ->
  bytes_decode (dumps g) = Ok (dumps g) /\ loads (dumps g) = Ok g.
Proof.
  intros Hg. destruct (ascii_text_codec _ (dumps_ascii g Hg)) as [_ Hdec].
  split; [exact Hdec|now apply loads_dumps].
Qed.

Lemma new_tile_fields id thumb labels md au ad ac :
  tile_of id (_create_new_tile id thumb labels md au ad ac)
  /\ getitem (_create_new_tile id thumb labels md au ad ac) (py "fileInfo") = Ok (JObj md)
  /\ getitem (_create_new_tile id thumb labels md au ad ac) (py "imageLabels")
     = Ok (JArr (map JStr labels))
  /\ getitem (_create_new_tile id thumb labels md au ad ac) (py "annotationUID")
     = Ok (JObj au).
Proof.
  split; [|repeat split; reflexivity].
  exists (JStr id). split; [reflexivity|]. cbn [eq_str]. apply pystr_eqb_refl.
Qed.



(** ** What the writes to the gallery leave alone *)

Lemma same_items_refl w : same_items w w.
Proof. now repeat split. Qed.

Lemma same_items_trans w1 w2 w3 :
  same_items w1 w2 -> same_items w2 w3 -> same_items w1 w3.
Proof.
  intros (a1 & a2 & a3 & a4 & a5 & a6) (b1 & b2 & b3 & b4 & b5 & b6).
  repeat split; congruence.
Qed.

Lemma gallery_only_ret {A} (a : A) : gallery_only (ret a).
Proof. intros w. apply same_items_refl. Qed.

Lemma gallery_only_raise {A} e : gallery_only (@raise A e).
Proof. intros w. apply same_items_refl. Qed.

Lemma gallery_only_lift {A} (r : result A) : gallery_only (lift r).
Proof. intros w. apply same_items_refl. Qed.

Lemma gallery_only_log e : gallery_only (log e).
Proof. intros w. now repeat split. Qed.

Lemma gallery_only_deref {A} (o : option A) : gallery_only (deref o).
Proof. destruct o; [apply gallery_only_ret|apply gallery_only_raise]. Qed.

Lemma gallery_only_get_world : gallery_only get_world.
Proof. intros w. apply same_items_refl. Qed.

Lemma gallery_only_set_gliff_project p : gallery_only (set_gliff_project p).
Proof. intros w. now repeat split. Qed.

Lemma gallery_only_bind {A B} (c : M A) (k : A -> M B) :
  gallery_only c -> (forall a, gallery_only (k a)) -> gallery_only (bind c k).
Proof.
  intros Hc Hk w. unfold bind. specialize (Hc w).
  destruct (c w) as [[a|e] w1]; cbn [snd] in *; [|exact Hc].
  eapply same_items_trans; [exact Hc|apply Hk].
Qed.

Lemma gallery_only_try_except {A} (c : M A) h :
  gallery_only c -> (forall e, gallery_only (h e)) -> gallery_only (try_except c h).
Proof.
  intros Hc Hh w. unfold try_except. specialize (Hc w).
  destruct (c w) as [[a|e] w1]; cbn [snd] in *; [exact Hc|].
  eapply same_items_trans; [exact Hc|apply Hh].
Qed.

Lemma gallery_only_transaction_collection c :
  gallery_only (Client.transaction_collection c).
Proof. intros w. now repeat split. Qed.

Create HintDb gallery discriminated.

#[local] Hint Resolve gallery_only_ret gallery_only_raise gallery_only_lift
  gallery_only_log gallery_only_deref gallery_only_get_world
  gallery_only_set_gliff_project gallery_only_transaction_collection : gallery.

#[local] Hint Extern 2 (gallery_only (bind _ _)) =>
  apply gallery_only_bind; [|intro] : gallery.
#[local] Hint Extern 2 (gallery_only (try_except _ _)) =>
  apply gallery_only_try_except; [|intro] : gallery.
#[local] Hint Extern 3 (gallery_only (match ?x with _ => _ end)) => destruct x : gallery.

Lemma gallery_only_self : gallery_only Project.self.
Proof. unfold Project.self. auto with gallery. Qed.

Lemma gallery_only_content : gallery_only Project.content.
Proof. unfold Project.content. pose proof gallery_only_self. auto with gallery. Qed.

Lemma gallery_only_set_content b : gallery_only (Project.set_content b).
Proof. unfold Project.set_content. pose proof gallery_only_self. auto with gallery. Qed.

Lemma gallery_only_decode_content b : gallery_only (_decode_content b).
Proof. unfold _decode_content. auto 6 with gallery. Qed.

Lemma gallery_only_get_gallery : gallery_only _get_gallery.
Proof.
  unfold _get_gallery.
  pose proof gallery_only_content. pose proof gallery_only_decode_content.
  auto with gallery.
Qed.

Lemma gallery_only_set_gallery g : gallery_only (_set_gallery g).
Proof. unfold _set_gallery. pose proof gallery_only_set_content. auto with gallery. Qed.

(** X7: [_create_gallery_tile] and [_update_gallery_tile] raise nothing,
    whatever the state of the session and of the gallery, and all they can
    change is the project's content and the log: the items of the store,
    the uids handed out, the fetches served and the clock are as before. *)
Theorem gallery_writes_raise_nothing_and_keep_items :
  forall tile item_uid tile_data w,
    (exists w', _create_gallery_tile tile w = (Ok tt, w') /\ same_items w w')
    /\ (exists w', _update_gallery_tile item_uid tile_data w = (Ok tt, w')
                   /\ same_items w w').
Proof.
  intros tile item_uid tile_data w.
  pose proof gallery_only_get_gallery as Hg.
  pose proof gallery_only_set_gallery as Hs.
  split.
  - assert (Hc : gallery_only (_create_gallery_tile tile))
      by (unfold _create_gallery_tile; auto 8 with gallery).
    specialize (Hc w). revert Hc. unfold _create_gallery_tile, try_except.
    destruct (bind _ _ w) as [[[]|e] w1]; cbn [snd]; intros Hc; eexists; split;
      try reflexivity; exact Hc.
  - assert (Hc : gallery_only (_update_gallery_tile item_uid tile_data))
      by (unfold _update_gallery_tile; auto 12 with gallery).
    specialize (Hc w). revert Hc. unfold _update_gallery_tile, try_except.
    destruct (bind _ _ w) as [[[]|e] w1]; cbn [snd]; intros Hc; eexists; split;
      try reflexivity; exact Hc.
Qed.

(** ** Patching a tile that is there *)

Lemma list_set_found before tile rest x :
  list_set (before ++ tile :: rest) (length before) x = Some (before ++ x :: rest).
Proof.
  induction before as [|y before IH]; cbn [app length list_set]; [reflexivity|].
  now rewrite IH.
Qed.

Lemma update_gallery_tile_found w c im s before d rest id tile_data d' :
  gliff_project w = Some (mkProject (Some c) im) ->
  bytes_decode (content c) = Ok s ->
  loads s = Ok (JArr (before ++ JObj d :: rest)) ->
  Forall (other_tile id) before -> tile_of id (JObj d) ->
  update_tile d tile_data = Ok d' ->
  json_compatible (JArr (before ++ JObj d' :: rest)) = true ->
  _update_gallery_tile id tile_data w
  = (Ok tt, committed w c im (dumps (JArr (before ++ JObj d' :: rest)))).
Proof.
  intros Hp Hs Hl Hb Ht Hu Hc. unfold _update_gallery_tile.
  apply try_except_ok.
  erewrite bind_ok by (eapply get_gallery_ok; eassumption).
  rewrite (find_gallery_tile_found rest Hb Ht).
  unfold lift at 1. erewrite bind_ok by reflexivity.
  rewrite getitem_index_found.
  unfold lift at 1. erewrite bind_ok by reflexivity.
  cbn [dict_copy]. unfold lift at 1. erewrite bind_ok by reflexivity.
  rewrite Hu. unfold lift at 1. erewrite bind_ok by reflexivity.
  cbn [setitem_index]. rewrite list_set_found.
  unfold lift at 1. erewrite bind_ok by reflexivity.
  now apply set_gallery_open.
Qed.

(** ** Values that stay JSON-compatible *)

Lemma compatible_dict d :
  json_compatible (JObj d) = true <->
  distinct (map fst d) = true
  /\ Forall (fun kv => forallb is_scalar (fst kv) = true
                       /\ json_compatible (snd kv) = true) d.
Proof.
  cbn [json_compatible]. rewrite andb_true_iff, forallb_forall, Forall_forall.
  split; intros [H1 H2]; (split; [exact H1|]); intros kv Hin; specialize (H2 kv Hin).
  - now apply andb_true_iff in H2.
  - now apply andb_true_iff.
Qed.

Lemma compatible_list l :
  json_compatible (JArr l) = true <-> Forall (fun v => json_compatible v = true) l.
Proof. cbn [json_compatible]. now rewrite forallb_forall, Forall_forall. Qed.

Lemma dict_set_keeps_absent k' : forall d k v,
  existsb (pystr_eqb k') (map fst d) = false -> pystr_eqb k' k = false ->
  existsb (pystr_eqb k') (map fst (dict_set d k v)) = false.
Proof.
  induction d as [|[k0 v0] d IH]; intros k v Hd Hk; cbn [dict_set map fst existsb] in *.
  - now rewrite Hk.
  - apply orb_false_iff in Hd. destruct Hd as [H0 Hd].
    destruct (pystr_eqb k0 k); cbn [map fst existsb].
    + now rewrite H0, Hd.
    + rewrite H0. cbn [orb]. now apply IH.
Qed.

Lemma dict_set_compatible : forall d k v,
  json_compatible (JObj d) = true -> forallb is_scalar k = true ->
  json_compatible v = true -> json_compatible (JObj (dict_set d k v)) = true.
Proof.
  induction d as [|[k0 v0] d IH]; intros k v Hd Hk Hv.
  - apply compatible_dict. split; [reflexivity|]. now repeat constructor.
  - apply compatible_dict in Hd. destruct Hd as [Hdist Hall].
    cbn [map fst distinct] in Hdist. apply andb_true_iff in Hdist.
    destruct Hdist as [Hk0 Hdist]. inversion Hall as [|? ? [Hs0 Hv0] Hall']; subst.
    cbn [fst snd] in *.
    assert (Hrest : json_compatible (JObj d) = true) by now apply compatible_dict.
    cbn [dict_set]. destruct (pystr_eqb k0 k) eqn:E; apply compatible_dict.
    + split; [cbn [map fst distinct]; now rewrite Hk0, Hdist|].
      constructor; [now split|exact Hall'].
    + specialize (IH k v Hrest Hk Hv). apply compatible_dict in IH.
      destruct IH as [Hdist' Hall'']. split.
      * cbn [map fst distinct]. rewrite Hdist', andb_true_r.
        apply negb_true_iff. apply negb_true_iff in Hk0. now apply dict_set_keeps_absent.
      * constructor; [now split|exact Hall''].
Qed.

Lemma dict_update_compatible other : forall d,
  json_compatible (JObj d) = true ->
  Forall (fun kv => forallb is_scalar (fst kv) = true
                    /\ json_compatible (snd kv) = true) other ->
  json_compatible (JObj (dict_update d other)) = true.
Proof.
  unfold dict_update.
  induction other as [|[k v] other IH]; intros d Hd Ho; cbn [fold_left fst snd].
  - exact Hd.
  - inversion Ho as [|? ? [Hk Hv] Ho']; subst. apply IH; [|exact Ho'].
    now apply dict_set_compatible.
Qed.

Lemma dict_get_compatible : forall d k v,
  json_compatible (JObj d) = true -> dict_get d k = Some v ->
  json_compatible v = true.
Proof.
  intros d k v Hd. apply compatible_dict in Hd. destruct Hd as [_ Hall].
  induction Hall as [|[k0 v0] d [_ Hv0] _ IH]; cbn [dict_get]; [discriminate|].
  destruct (pystr_eqb k0 k); [now intros [= <-]|exact IH].
Qed.

Lemma update_field_compatible tile field patch tile' :
  json_compatible (JObj tile) = true ->
  forallb is_scalar (py field) = true ->
  json_compatible (JObj patch) = true ->
  update_field tile field (JObj patch) = Ok tile' ->
  json_compatible (JObj tile') = true.
Proof.
  intros Ht Hf Hp. unfold update_field. cbn [getitem].
  destruct (dict_get tile (py field)) as [old|] eqn:E; [|discriminate].
  cbn [rbind]. destruct old; try discriminate. cbn [method_update rbind].
  intros [= <-]. apply dict_set_compatible; [exact Ht|exact Hf|].
  apply dict_update_compatible; [now apply (dict_get_compatible _ _ Ht E)|].
  now apply compatible_dict in Hp.
Qed.

Lemma update_tile_compatible tile labels md au ad ac tile' :
  json_compatible (JObj tile) = true ->
  json_compatible (JObj au) = true ->
  json_compatible (JObj ad) = true ->
  json_compatible (JObj ac) = true ->
  match labels with
  | Some l => json_compatible (JArr (map JStr l)) = true
  | None => True
  end ->
  update_tile tile (_create_tile_update labels md au ad ac) = Ok tile' ->
  json_compatible (JObj tile') = true.
Proof.
  intros Ht Hau Had Hac Hl. rewrite update_tile_on_patch.
  destruct (update_field tile "annotationUID" (JObj au)) as [t1|] eqn:E1;
    [|discriminate]. cbn [rbind].
  destruct (update_field t1 "auditUID" (JObj ad)) as [t2|] eqn:E2;
    [|discriminate]. cbn [rbind].
  destruct (update_field _ "annotationComplete" (JObj ac)) as [t3|] eqn:E3;
    [|discriminate]. cbn [rbind]. intros [= <-].
  assert (H1 : json_compatible (JObj t1) = true)
    by (eapply update_field_compatible; [exact Ht| |exact Hau|exact E1]; reflexivity).
  assert (H2 : json_compatible (JObj t2) = true)
    by (eapply update_field_compatible; [exact H1| |exact Had|exact E2]; reflexivity).
  assert (H3 : json_compatible (JObj t3) = true).
  { eapply update_field_compatible; [| |exact Hac|exact E3]; [|reflexivity].
    destruct (negb (dict_mem t2 (py "annotationComplete"))); [|exact H2].
    apply dict_set_compatible; [exact H2|reflexivity|reflexivity]. }
  destruct labels as [l|]; [|exact H3].
  apply dict_set_compatible; [exact H3|reflexivity|exact Hl].
Qed.

Lemma compatible_middle before t rest t' :
  json_compatible (JArr (before ++ t :: rest)) = true ->
  json_compatible t' = true ->
  json_compatible (JArr (before ++ t' :: rest)) = true.
Proof.
  cbn [json_compatible]. rewrite !forallb_app. cbn [forallb].
  intros H Ht'. apply andb_true_iff in H. destruct H as [-> H].
  apply andb_true_iff in H. destruct H as [_ ->]. now rewrite Ht'.
Qed.

Lemma compatible_at before t rest :
  json_compatible (JArr (before ++ t :: rest)) = true -> json_compatible t = true.
Proof.
  cbn [json_compatible]. rewrite !forallb_app. cbn [forallb].
  intros H. apply andb_true_iff in H. destruct H as [_ H].
  now apply andb_true_iff in H.
Qed.

(** Fields that [update_tile] does not name keep their value. *)
Lemma update_tile_keeps tile labels md au ad ac tile' k :
  update_tile tile (_create_tile_update labels md au ad ac) = Ok tile' ->
  py "annotationUID" <> k -> py "auditUID" <> k ->
  py "annotationComplete" <> k -> py "imageLabels" <> k ->
  dict_get tile' k = dict_get tile k.
Proof.
  rewrite update_tile_on_patch. intros H K1 K2 K3 K4.
  destruct (update_field tile "annotationUID" (JObj au)) as [t1|] eqn:E1;
    [|discriminate]. cbn [rbind] in H.
  destruct (update_field t1 "auditUID" (JObj ad)) as [t2|] eqn:E2;
    [|discriminate]. cbn [rbind] in H.
  destruct (update_field _ "annotationComplete" (JObj ac)) as [t3|] eqn:E3;
    [|discriminate]. cbn [rbind] in H. injection H as <-.
  assert (H3 : dict_get t3 k = dict_get tile k).
  { rewrite (@update_field_other _ _ _ _ k E3) by exact K3.
    transitivity (dict_get t2 k).
    - destruct (negb (dict_mem t2 (py "annotationComplete"))); [|reflexivity].
      now apply dict_get_set_other.
    - rewrite (@update_field_other _ _ _ _ k E2) by exact K2.
      now apply (@update_field_other _ _ _ _ k E1). }
  destruct labels; [|exact H3].
  now rewrite dict_get_set_other.
Qed.

(** A patch built by [_create_tile_update] applies to any tile that has
    its three mappings. *)
Lemma update_tile_applies tile labels md au ad ac au0 ad0 ac0 :
  dict_get tile (py "annotationUID") = Some (JObj au0) ->
  dict_get tile (py "auditUID") = Some (JObj ad0) ->
  dict_get tile (py "annotationComplete") = Some (JObj ac0) ->
  exists tile', update_tile tile (_create_tile_update labels md au ad ac) = Ok tile'.
Proof.
  intros Hau Had Hac. rewrite update_tile_on_patch.
  assert (Hstep : forall t field old patch,
             dict_get t (py field) = Some (JObj old) ->
             update_field t field (JObj patch)
             = Ok (dict_set t (py field) (JObj (dict_update old patch)))).
  { intros t field old patch Hf. unfold update_field. cbn [getitem]. now rewrite Hf. }
  rewrite (Hstep _ _ _ _ Hau). cbn [rbind].
  assert (Had1 : dict_get (dict_set tile (py "annotationUID") (JObj (dict_update au0 au)))
                          (py "auditUID") = Some (JObj ad0)).
  { rewrite dict_get_set_other by (vm_compute; discriminate). exact Had. }
  rewrite (Hstep _ _ _ _ Had1). cbn [rbind].
  set (t2 := dict_set (dict_set tile _ _) _ _).
  assert (Hac2 : dict_get t2 (py "annotationComplete") = Some (JObj ac0)).
  { unfold t2. rewrite !dict_get_set_other by (vm_compute; discriminate). exact Hac. }
  unfold dict_mem. rewrite Hac2. cbn [negb].
  rewrite (Hstep _ _ _ _ Hac2). cbn [rbind]. eexists. reflexivity.
Qed.

(** ** The annotation item of a user for an image *)

Lemma find_put_item its owner it :
  find_item (put_item its owner it) owner (item_uid it) = Some it.
Proof.
  induction its as [|[o it'] its IH]; cbn [put_item find_item].
  - now rewrite !pystr_eqb_refl.
  - destruct (pystr_eqb o owner && pystr_eqb (item_uid it') (item_uid it)) eqn:E;
      cbn [find_item].
    + apply andb_true_iff in E. destruct E as [-> _]. now rewrite pystr_eqb_refl.
    + now rewrite E.
Qed.

Lemma find_annotation_uid_skips id username before : forall tiles,
  Forall (other_tile id) before ->
  find_annotation_uid (before ++ tiles) id username
  = find_annotation_uid tiles id username.
Proof.
  intros tiles. induction 1 as [|t before (tid & Hid & Hne) _ IH];
    cbn [app find_annotation_uid]; [reflexivity|].
  rewrite Hid. cbn [rbind]. now rewrite Hne.
Qed.

Lemma find_annotation_uid_absent id username tiles :
  Forall (other_tile id) tiles -> find_annotation_uid tiles id username = Ok JNull.
Proof.
  intros H. rewrite <- (app_nil_r tiles). now rewrite find_annotation_uid_skips.
Qed.

Lemma find_annotation_uid_here id username tile rest au :
  tile_of id tile -> getitem tile (py "annotationUID") = Ok (JObj au) ->
  find_annotation_uid (tile :: rest) id username
  = match dict_get au username with
    | Some v => Ok v
    | None => find_annotation_uid rest id username
    end.
Proof.
  intros (tid & Hid & He) Hau. cbn [find_annotation_uid].
  rewrite Hid. cbn [rbind]. rewrite He, Hau. cbn [rbind contains_str getitem].
  unfold dict_mem. now destruct (dict_get au username).
Qed.

Lemma get_annotation_uid_run w c im s tiles id username :
  gliff_project w = Some (mkProject (Some c) im) ->
  bytes_decode (content c) = Ok s ->
  loads s = Ok (JArr tiles) ->
  _get_annotation_uid (uid c) id username w
  = (find_annotation_uid tiles id username, w).
Proof.
  intros Hp Hs Hl. unfold _get_annotation_uid.
  erewrite bind_ok by (eapply has_project_loaded; exact Hp). cbn [negb].
  erewrite bind_ok by (eapply fetch_project_data_hit; exact Hp).
  erewrite bind_ok by (eapply get_gallery_ok; eassumption).
  cbn [iterate]. unfold lift at 1. erewrite bind_ok by reflexivity. reflexivity.
Qed.

Lemma get_current_time_run w :
  get_current_time w
  = (Ok (clock w (ticks w)),
     mkWorld (gliff_project w) (server w) (clock w) (S (ticks w)) (logged w)).
Proof. reflexivity. Qed.

Lemma create_item_run im m b w :
  Client.create_item im m b w
  = (Ok (mkItem (next_uid w) m b),
     mkWorld (gliff_project w)
             (mkEtebase (collections (server w)) (items (server w))
                        (fetched (server w)) (S (minted (server w)))
                        (uid_source (server w)))
             (clock w) (ticks w) (logged w)).
Proof. reflexivity. Qed.

Lemma transaction_item_run im it w :
  Client.transaction_item im it w
  = (Ok tt,
     mkWorld (gliff_project w)
             (mkEtebase (collections (server w)) (put_item (items (server w)) im it)
                        (fetched (server w)) (minted (server w))
                        (uid_source (server w)))
             (clock w) (ticks w) (logged w)).
Proof. reflexivity. Qed.

Lemma create_annotation_item_run
    w c im s before d rest id username annotations md d' :
  gliff_project w = Some (mkProject (Some c) (Some im)) ->
  bytes_decode (content c) = Ok s ->
  loads s = Ok (JArr (before ++ JObj d :: rest)) ->
  Forall (other_tile id) before -> tile_of id (JObj d) ->
  json_compatible (JArr annotations) = true ->
  update_tile d (_create_tile_update None md [(username, JStr (next_uid w))] []
                                     [(username, JBool false)]) = Ok d' ->
  json_compatible (JArr (before ++ JObj d' :: rest)) = true ->
  _create_annotation_item (uid c) id username annotations md w
  = (Ok (JStr (next_uid w)),
     committed
       (with_new_item w im (mkItem (next_uid w) (annotation_meta (clock w (ticks w)))
                                   (dumps (JArr annotations))))
       c (Some im) (dumps (JArr (before ++ JObj d' :: rest)))).
Proof.
  intros Hp Hs Hl Hb Ht Ha Hu Hc. unfold _create_annotation_item.
  erewrite bind_ok by (eapply has_project_loaded; exact Hp). cbn [negb].
  erewrite bind_ok by (eapply fetch_project_data_hit; exact Hp).
  erewrite bind_ok by apply get_current_time_run.
  destruct (encode_then_decode (JArr annotations) w Ha) as [-> _].
  unfold lift at 1. erewrite bind_ok by reflexivity.
  erewrite bind_ok by (apply self_run; exact Hp).
  cbn [item_manager deref]. unfold ret at 1. erewrite bind_ok by reflexivity.
  erewrite bind_ok by apply create_item_run.
  erewrite bind_ok by apply transaction_item_run.
  erewrite bind_ok.
  2:{ eapply (@update_gallery_tile_found _ c (Some im) s before d rest id _ d');
        eassumption. }
  reflexivity.
Qed.

Lemma tile_of_kept id d d' :
  dict_get d' (py "id") = dict_get d (py "id") ->
  tile_of id (JObj d) -> tile_of id (JObj d').
Proof.
  intros H (tid & Hid & He). exists tid. split; [|exact He].
  cbn [getitem] in *. now rewrite H.
Qed.

Lemma compatible_entry k v :
  forallb is_scalar k = true -> json_compatible v = true ->
  json_compatible (JObj [(k, v)]) = true.
Proof.
  intros Hk Hv. apply compatible_dict. split; [reflexivity|]. now repeat constructor.
Qed.



(** ** Base64: what the encoder writes, the decoder reads *)

Lemma all_below_spec n p :
  all_below n p = true -> forall x, (x < N.of_nat n)%N -> p x = true.
Proof.
  unfold all_below. rewrite forallb_forall. intros H x Hx. apply H.
  apply in_map_iff. exists (N.to_nat x). split; [apply N2Nat.id|].
  apply in_seq. lia.
Qed.

Lemma regroups_octets x y : (x < 256)%N -> (y < 256)%N -> regroups x y = true.
Proof.
  assert (H : all_below 256 (fun x => all_below 256 (regroups x)) = true)
    by (vm_compute; reflexivity).
  intros Hx Hy.
  apply (@all_below_spec 256 (regroups x)); [|exact Hy].
  apply (@all_below_spec 256 (fun x => all_below 256 (regroups x)) H). exact Hx.
Qed.

Lemma b64char_decodes v :
  (v < 64)%N ->
  (Base64.b64char v =? 61)%N = false
  /\ Base64.b64val (Base64.b64char v) = Some v.
Proof.
  assert (H : all_below 64
                (fun v => negb (Base64.b64char v =? 61)%N
                          && match Base64.b64val (Base64.b64char v) with
                             | Some v' => (v' =? v)%N
                             | None => false
                             end) = true) by (vm_compute; reflexivity).
  intros Hv. pose proof (@all_below_spec 64 _ H v Hv) as Hc. cbn beta in Hc.
  apply andb_true_iff in Hc. destruct Hc as [H1 H2].
  apply negb_true_iff in H1. split; [exact H1|].
  destruct (Base64.b64val (Base64.b64char v)) as [v'|]; [|discriminate].
  apply N.eqb_eq in H2. now subst.
Qed.

Lemma b64char_ascii v : (Base64.b64char v <? 128)%N = true.
Proof.
  unfold Base64.b64char.
  destruct (v <? 26)%N eqn:E1; [apply N.ltb_lt in E1; apply N.ltb_lt; lia|].
  destruct (v <? 52)%N eqn:E2; [apply N.ltb_lt in E2; apply N.ltb_lt; lia|].
  destruct (v <? 62)%N eqn:E3; [apply N.ltb_lt in E3; apply N.ltb_lt; lia|].
  now destruct (v =? 62)%N.
Qed.

(** One character of the alphabet in front of the decoder. *)
Lemma a2b_base64_char v r quad_pos leftchar pads :
  (v < 64)%N ->
  Base64.a2b_base64 (Base64.b64char v :: r) quad_pos leftchar pads
  = match quad_pos with
    | 0 => Base64.a2b_base64 r 1 v 0
    | 1 => tl <-- Base64.a2b_base64 r 2 (N.land v 0x0f) 0 ;;
           Ok (N.land (N.lor (N.shiftl leftchar 2) (N.shiftr v 4)) 0xff :: tl)
    | 2 => tl <-- Base64.a2b_base64 r 3 (N.land v 0x03) 0 ;;
           Ok (N.land (N.lor (N.shiftl leftchar 4) (N.shiftr v 2)) 0xff :: tl)
    | _ => tl <-- Base64.a2b_base64 r 0 0%N 0 ;;
           Ok (N.land (N.lor (N.shiftl leftchar 6) v) 0xff :: tl)
    end.
Proof.
  intros Hv. destruct (b64char_decodes Hv) as [H61 Hval].
  cbn [Base64.a2b_base64]. now rewrite H61, Hval.
Qed.

Lemma regroups_facts x y :
  (x < 256)%N -> (y < 256)%N ->
  (sextet1 x < 64)%N /\ (sextet2 x y < 64)%N /\ (sextet3 x y < 64)%N
  /\ (sextet4 x < 64)%N
  /\ N.land (N.lor (N.shiftl (sextet1 x) 2) (N.shiftr (sextet2 x y) 4)) 0xff = x
  /\ N.land (sextet2 x y) 0x0f = N.shiftr y 4
  /\ N.land (N.lor (N.shiftl (N.shiftr x 4) 4) (N.shiftr (sextet3 x y) 2)) 0xff = x
  /\ N.land (sextet3 x y) 0x03 = N.shiftr y 6
  /\ N.land (N.lor (N.shiftl (N.shiftr x 6) 6) (sextet4 x)) 0xff = x
  /\ N.shiftl (N.land x 3) 4 = sextet2 x 0
  /\ N.shiftl (N.land x 15) 2 = sextet3 x 0.
Proof.
  intros Hx Hy. pose proof (regroups_octets Hx Hy) as H. unfold regroups in H.
  repeat (apply andb_true_iff in H; destruct H as [H ?]).
  repeat match goal with
         | E : (_ <? _)%N = true |- _ => apply N.ltb_lt in E
         | E : (_ =? _)%N = true |- _ => apply N.eqb_eq in E
         end.
  repeat split; assumption.
Qed.

Lemma octets_cons x b : octets (x :: b) = true <-> (x < 256)%N /\ octets b = true.
Proof.
  unfold octets. cbn [forallb]. rewrite andb_true_iff, N.ltb_lt. tauto.
Qed.

Lemma a2b_base64_b64encode : forall n b,
  length b < n -> octets b = true ->
  Base64.a2b_base64 (Base64.b64encode b) 0 0%N 0 = Ok b.
Proof.
  induction n as [|n IH]; intros b Hn Hb; [lia|].
  destruct b as [|x [|y [|z rest]]].
  - reflexivity.
  - apply octets_cons in Hb. destruct Hb as [Hx _].
    destruct (regroups_facts Hx Hx) as (S1 & _ & _ & _ & _ & _ & _ & _ & _ & E2 & _).
    destruct (@regroups_facts x 0%N Hx) as (_ & S2 & _ & _ & B1 & _); [lia|].
    cbn [Base64.b64encode]. rewrite E2.
    fold (sextet1 x). rewrite (a2b_base64_char _ _ _ _ S1), (a2b_base64_char _ _ _ _ S2).
    cbn [Base64.a2b_base64 N.eqb Pos.eqb Nat.leb Nat.add rbind]. now rewrite B1.
  - apply octets_cons in Hb. destruct Hb as [Hx Hb].
    apply octets_cons in Hb. destruct Hb as [Hy _].
    destruct (regroups_facts Hx Hy) as (S1 & S2 & _ & _ & B1 & L2 & _).
    destruct (@regroups_facts y 0%N Hy) as (_ & _ & S3 & _ & _ & _ & B2 & _ & _ & _ & E3);
      [lia|].
    cbn [Base64.b64encode]. rewrite E3.
    fold (sextet1 x). fold (sextet2 x y).
    rewrite (a2b_base64_char _ _ _ _ S1), (a2b_base64_char _ _ _ _ S2),
      (a2b_base64_char _ _ _ _ S3).
    cbn [Base64.a2b_base64 N.eqb Pos.eqb Nat.leb Nat.add rbind].
    now rewrite B1, L2, B2.
  - apply octets_cons in Hb. destruct Hb as [Hx Hb].
    apply octets_cons in Hb. destruct Hb as [Hy Hb].
    apply octets_cons in Hb. destruct Hb as [Hz Hb].
    destruct (regroups_facts Hx Hy) as (S1 & S2 & _ & _ & B1 & L2 & _).
    destruct (regroups_facts Hy Hz) as (_ & _ & S3 & _ & _ & _ & B2 & L3 & _).
    destruct (regroups_facts Hz Hz) as (_ & _ & _ & S4 & _ & _ & _ & _ & B3 & _).
    cbn [Base64.b64encode].
    fold (sextet1 x). fold (sextet2 x y). fold (sextet3 y z). fold (sextet4 z).
    rewrite (a2b_base64_char _ _ _ _ S1), (a2b_base64_char _ _ _ _ S2),
      (a2b_base64_char _ _ _ _ S3), (a2b_base64_char _ _ _ _ S4).
    assert (Hrest : Base64.a2b_base64 (Base64.b64encode rest) 0 0%N 0 = Ok rest)
      by (apply IH; [cbn [length] in Hn; lia|exact Hb]).
    rewrite Hrest.
    cbn [rbind]. now rewrite B1, L2, B2, L3, B3.
Qed.

Lemma b64encode_ascii : forall n b,
  length b < n -> forallb (fun c => (c <? 128)%N) (Base64.b64encode b) = true.
Proof.
  induction n as [|n IH]; intros b Hn; [lia|].
  destruct b as [|x [|y [|z rest]]]; cbn [Base64.b64encode forallb];
    rewrite ?b64char_ascii; try reflexivity.
  cbn [length] in Hn. apply IH. lia.
Qed.

Lemma b64decode_b64encode b :
  octets b = true -> Base64.b64decode (Base64.b64encode b) = Ok b.
Proof.
  intros Hb. unfold Base64.b64decode.
  rewrite (b64encode_ascii (n:=S (length b))) by lia.
  apply (a2b_base64_b64encode (n:=S (length b))); [lia|exact Hb].
Qed.

(** ** Images in and out *)

Section ImageLibrary.

Variable image_open : bytes -> result Image.
Variable save_png : Image -> bytes.
Variable shrink : Image -> Image.

Lemma base64_of_saved_image img :
  octets (save_png img) = true ->
  base64_to_pil_image image_open (pil_to_base64_image save_png img false)
  = (opened <-- image_open (save_png img) ;; Ok (convert_rgb opened)).
Proof.
  intros Ho. unfold base64_to_pil_image, pil_to_base64_image.
  now rewrite (b64decode_b64encode _ Ho).
Qed.

Lemma pil_to_base64_image_round_trip img :
  octets (save_png img) = true ->
  image_open (save_png img) = Ok img ->
  base64_to_pil_image image_open (pil_to_base64_image save_png img false)
  = Ok (convert_rgb img).
Proof.
  intros Ho Hopen. rewrite (base64_of_saved_image _ Ho). now rewrite Hopen.
Qed.

(** X9: what [pil_to_base64_image] writes, [base64_to_pil_image] reads:
    for an image whose PNG file the decoder opens as the same image, the
    string made without the thumbnail header decodes to that image converted
    to RGB. *)
Theorem pil_to_base64_image_then_base64_to_pil_image :
  forall img,
    octets (save_png img) = true ->
    image_open (save_png img) = Ok img ->
    base64_to_pil_image image_open (pil_to_base64_image save_png img false)
    = Ok (convert_rgb img).
Proof.
  intros img Ho Hopen. now apply pil_to_base64_image_round_trip.
Qed.

End ImageLibrary.

Lemma pil_to_base64_image_then_base64_to_pil_image_witness :
  base64_to_pil_image row_open
    (pil_to_base64_image row_save (ImageL (3, 1)%N [10; 200; 255]%N) false)
  = Ok (convert_rgb (ImageL (3, 1)%N [10; 200; 255]%N)).
Proof.
  apply (@pil_to_base64_image_then_base64_to_pil_image row_open row_save
           (ImageL (3, 1)%N [10; 200; 255]%N)); reflexivity.
Defined.

(** ** Uploading an image *)

Lemma ascii_is_scalar s :
  forallb (fun c => (c <? 128)%N) s = true -> forallb is_scalar s = true.
Proof.
  rewrite !forallb_forall. intros H c Hc. specialize (H c Hc).
  apply N.ltb_lt in H. unfold is_scalar, is_surrogate.
  apply andb_true_iff. split; [apply N.ltb_lt; lia|].
  apply negb_true_iff, andb_false_iff. left. apply N.leb_gt. lia.
Qed.

Lemma b64encode_scalar b : forallb is_scalar (Base64.b64encode b) = true.
Proof. apply ascii_is_scalar. apply (b64encode_ascii (n:=S (length b))). lia. Qed.

Lemma get_image_data_single image_open w c im u it s rgb :
  gliff_project w = Some (mkProject (Some c) (Some im)) ->
  find_item (items (server w)) im u = Some it ->
  item_content it = dumps (JArr [JArr [JStr s]]) ->
  forallb is_scalar s = true ->
  base64_to_pil_image image_open s = Ok rgb ->
  get_image_data image_open (uid c) u w = (Ok (Some rgb), w).
Proof.
  intros Hp Hit Hcontent Hs Hrgb. unfold get_image_data.
  erewrite bind_ok by (eapply has_project_loaded; exact Hp). cbn [negb].
  erewrite bind_ok by (eapply fetch_project_data_hit; exact Hp).
  apply try_except_ok.
  erewrite bind_ok by (eapply get_project_item_found; [exact Hp|exact Hit]).
  cbn [deref]. unfold ret at 1. erewrite bind_ok by reflexivity.
  rewrite Hcontent.
  assert (Hc : json_compatible (JArr [JArr [JStr s]]) = true)
    by (cbn [json_compatible forallb]; now rewrite Hs).
  destruct (encode_then_decode (JArr [JArr [JStr s]]) w Hc) as [_ Hdec].
  erewrite bind_ok by exact Hdec.
  cbn [py_len length rbind for_range decode_slice getitem_nat nth_error
       decode_channel].
  rewrite Hrgb. reflexivity.
Qed.

Section Uploads.

Variable image_open : bytes -> result Image.
Variable save_png : Image -> bytes.
Variable shrink : Image -> Image.

Lemma process_image_data_pil img w :
  _process_image_data image_open save_png shrink (PilImage img) w
  = (Ok (Some (mkImageData (fst (size_of img)) (snd (size_of img))
                 (pil_to_base64_image save_png (shrink img) true)
                 (dumps (JArr [JArr [JStr (pil_to_base64_image save_png img false)]])))),
     w).
Proof.
  unfold _process_image_data. unfold ret at 1. erewrite bind_ok by reflexivity.
  cbn iota beta. destruct (size_of img) as [wd ht].
  assert (Hc : json_compatible
                 (JArr [JArr [JStr (pil_to_base64_image save_png img false)]]) = true).
  { cbn [json_compatible forallb]. unfold pil_to_base64_image.
    now rewrite b64encode_scalar. }
  destruct (encode_then_decode _ w Hc) as [-> _].
  unfold lift at 1. erewrite bind_ok by reflexivity. reflexivity.
Qed.

(** The tile of a new image can be written and read back. *)
Lemma new_image_tile_compatible u thumb labels md :
  forallb is_scalar u = true -> forallb is_scalar thumb = true ->
  json_compatible (JArr (map JStr labels)) = true ->
  json_compatible (JObj md) = true ->
  json_compatible (_create_new_tile u thumb labels md [] [] []) = true.
Proof.
  intros Hu Hthumb Hlabels Hmd. unfold _create_new_tile.
  apply compatible_dict. split; [vm_compute; reflexivity|].
  repeat constructor; cbn [fst snd json_compatible]; assumption || reflexivity.
Qed.

Lemma image_file_info_compatible name size md :
  forallb is_scalar name = true -> json_compatible (JObj md) = true ->
  json_compatible (JObj (image_file_info name size md)) = true.
Proof.
  intros Hname Hmd. unfold image_file_info.
  apply dict_update_compatible; [|now apply compatible_dict in Hmd].
  apply compatible_dict. split; [vm_compute; reflexivity|].
  repeat constructor; cbn [fst snd json_compatible]; assumption || reflexivity.
Qed.

Lemma thumbnail_scalar img :
  forallb is_scalar (pil_to_base64_image save_png img true) = true.
Proof.
  unfold pil_to_base64_image. rewrite forallb_app, b64encode_scalar.
  now rewrite andb_true_r.
Qed.

Lemma compatible_snoc tiles tile :
  json_compatible (JArr tiles) = true -> json_compatible tile = true ->
  json_compatible (JArr (tiles ++ [tile])) = true.
Proof.
  cbn [json_compatible]. rewrite forallb_app. cbn [forallb].
  intros -> ->. reflexivity.
Qed.

Lemma upload_image_run w c im s tiles name img labels md :
  gliff_project w = Some (mkProject (Some c) (Some im)) ->
  bytes_decode (content c) = Ok s ->
  loads s = Ok (JArr tiles) ->
  json_compatible (JArr tiles) = true ->
  forallb is_scalar (next_uid w) = true ->
  forallb is_scalar name = true ->
  json_compatible (JArr (map JStr labels)) = true ->
  json_compatible (JObj md) = true ->
  upload_image image_open save_png shrink (uid c) name (PilImage img) labels md w
  = (Ok (JStr (next_uid w)),
     committed
       (with_new_item w im
          (mkItem (next_uid w) (image_meta name (clock w (ticks w)))
             (dumps (JArr [JArr [JStr (pil_to_base64_image save_png img false)]]))))
       c (Some im)
       (dumps (JArr (tiles ++ [_create_new_tile (next_uid w)
                                 (pil_to_base64_image save_png (shrink img) true)
                                 labels (image_file_info name (size_of img) md)
                                 [] [] []])))).
Proof.
  intros Hp Hs Hl Hg Hu Hname Hlabels Hmd. unfold upload_image.
  erewrite bind_ok by (eapply has_project_loaded; exact Hp). cbn [negb].
  erewrite bind_ok by (eapply fetch_project_data_hit; exact Hp).
  erewrite bind_ok by apply process_image_data_pil.
  cbn iota beta.
  erewrite bind_ok by apply get_current_time_run.
  erewrite bind_ok by (apply self_run; exact Hp).
  cbn [item_manager deref]. unfold ret at 1. erewrite bind_ok by reflexivity.
  erewrite bind_ok by apply create_item_run.
  erewrite bind_ok by apply transaction_item_run.
  cbn [width height thumbnail encoded_image item_uid].
  erewrite bind_ok.
  2:{ apply (@create_gallery_tile_run _ c (Some im) s tiles); try eassumption.
      apply compatible_snoc; [exact Hg|].
      apply new_image_tile_compatible; try assumption.
      - apply thumbnail_scalar.
      - now apply (image_file_info_compatible name (size_of img)). }
  reflexivity.
Qed.


End Uploads.


(** X11: what [upload_image] does with an image it cannot use.  With a
    project open, an argument that is neither a PIL image nor a string is
    logged and answered with [None]; a string that
    [base64_to_pil_image] cannot turn into an image makes the call raise
    what that raised.  Either way no item is created and the gallery is
    as it was. *)
Theorem upload_image_rejects :
  forall (image_open : bytes -> result Image) (save_png : Image -> bytes)
         (shrink : Image -> Image) w c im name labels md,
    gliff_project w = Some (mkProject (Some c) im) ->
    upload_image image_open save_png shrink (uid c) name OtherObject labels md w
    = (Ok JNull,
       logging (LogError "image should be of type PIL.Image.Image or str" None) w)
    /\ forall s e,
        base64_to_pil_image image_open s = Raise e ->
        upload_image image_open save_png shrink (uid c) name (Base64Str s) labels md w
        = (Raise e, w).
Proof.
  intros image_open save_png shrink w c im name labels md Hp. split.
  - unfold upload_image.
    erewrite bind_ok by (eapply has_project_loaded; exact Hp). cbn [negb].
    erewrite bind_ok by (eapply fetch_project_data_hit; exact Hp).
    reflexivity.
  - intros s e He. unfold upload_image.
    erewrite bind_ok by (eapply has_project_loaded; exact Hp). cbn [negb].
    erewrite bind_ok by (eapply fetch_project_data_hit; exact Hp).
    erewrite bind_raise; [reflexivity|].
    unfold _process_image_data. erewrite bind_raise; [reflexivity|].
    erewrite bind_raise; [reflexivity|]. unfold lift. now rewrite He.
Qed.

Lemma upload_image_rejects_witness :
  upload_image row_open row_save (fun i => i)
    (uid (mkCollection proj (encoded (JArr [tile1])))) (py "a.png") OtherObject [] []
    world_open
  = (Ok JNull,
     logging (LogError "image should be of type PIL.Image.Image or str" None) world_open)
  /\ forall s e,
      base64_to_pil_image row_open s = Raise e ->
      upload_image row_open row_save (fun i => i)
        (uid (mkCollection proj (encoded (JArr [tile1])))) (py "a.png") (Base64Str s)
        [] [] world_open
      = (Raise e, world_open).
Proof.
  apply (@upload_image_rejects row_open row_save (fun i => i) world_open
           (mkCollection proj (encoded (JArr [tile1]))) (Some proj)).
  reflexivity.
Defined.

(** ** Annotations for an image that has no tile *)

Lemma update_gallery_tile_missing w c im s tiles id tile_data :
  gliff_project w = Some (mkProject (Some c) im) ->
  bytes_decode (content c) = Ok s ->
  loads s = Ok (JArr tiles) ->
  Forall (other_tile id) tiles ->
  _update_gallery_tile id tile_data w
  = (Ok tt, logging (LogError "Error while updating a gallery's tile" (Some TypeError)) w).
Proof.
  intros Hp Hs Hl Habs. unfold _update_gallery_tile.
  erewrite try_except_raise; [reflexivity|].
  erewrite bind_ok by (eapply get_gallery_ok; eassumption).
  rewrite (find_gallery_tile_absent Habs). reflexivity.
Qed.

Lemma create_annotation_item_steps w c im id username annotations md :
  gliff_project w = Some (mkProject (Some c) (Some im)) ->
  json_compatible (JArr annotations) = true ->
  _create_annotation_item (uid c) id username annotations md w
  = (_update_gallery_tile id
       (_create_tile_update None md [(username, JStr (next_uid w))] []
                            [(username, JBool false)]) ;;;
     ret (JStr (next_uid w)))
      (with_new_item w im (mkItem (next_uid w) (annotation_meta (clock w (ticks w)))
                                  (dumps (JArr annotations)))).
Proof.
  intros Hp Ha. unfold _create_annotation_item.
  erewrite bind_ok by (eapply has_project_loaded; exact Hp). cbn [negb].
  erewrite bind_ok by (eapply fetch_project_data_hit; exact Hp).
  erewrite bind_ok by apply get_current_time_run.
  destruct (encode_then_decode (JArr annotations) w Ha) as [-> _].
  unfold lift at 1. erewrite bind_ok by reflexivity.
  erewrite bind_ok by (apply self_run; exact Hp).
  cbn [item_manager deref]. unfold ret at 1. erewrite bind_ok by reflexivity.
  erewrite bind_ok by apply create_item_run.
  erewrite bind_ok by apply transaction_item_run.
  reflexivity.
Qed.



(** ** A second upload for the same user and image *)

Lemma find_item_uid its owner u it :
  find_item its owner u = Some it -> item_uid it = u.
Proof.
  induction its as [|[o it'] its IH]; cbn [find_item]; [discriminate|].
  destruct (pystr_eqb o owner && pystr_eqb (item_uid it') u) eqn:E; [|exact IH].
  intros [= <-]. apply andb_true_iff in E. now apply pystr_eqb_eq.
Qed.



(** ** Without a session, and with a project the store does not have *)

Lemma has_project_none w :
  gliff_project w = None -> _has_project w = (Ok false, logging please_log_in w).
Proof.
  intros H. unfold _has_project, bind, get_world. now rewrite H.
Qed.

(** X14: without a session no operation raises or reaches the store.
    Each of them returns [None] and leaves the world as it was, but for the
    warning of [_has_project]; [upload_annotation] asks twice and so warns
    twice. *)
Theorem without_session_nothing_happens :
  forall (image_open : bytes -> result Image) (save_png : Image -> bytes)
         (shrink : Image -> Image)
         w project_uid item_uid username name image label labels metadata annotations,
    gliff_project w = None ->
    let warned := logging please_log_in w in
    get_project_item project_uid (JStr item_uid) w = (Ok None, warned)
    /\ upload_image image_open save_png shrink project_uid name image labels metadata w
       = (Ok JNull, warned)
    /\ get_image_data image_open project_uid item_uid w = (Ok None, warned)
    /\ get_metadata_and_labels project_uid item_uid w = (Ok None, warned)
    /\ update_metadata_and_labels project_uid item_uid (Some (label :: labels)) metadata w
       = (Ok tt, warned)
    /\ _get_annotation_uid project_uid item_uid username w = (Ok JNull, warned)
    /\ get_annotations project_uid item_uid username w = (Ok JNull, warned)
    /\ upload_annotation project_uid item_uid username annotations metadata w
       = (Ok JNull, logging please_log_in warned).
Proof.
  intros image_open save_png shrink w project_uid item_uid username name image label
         labels metadata annotations Hw. cbn zeta.
  assert (Hw' : gliff_project (logging please_log_in w) = None) by exact Hw.
  repeat split.
  - unfold get_project_item. now erewrite bind_ok by (apply has_project_none; exact Hw).
  - unfold upload_image. now erewrite bind_ok by (apply has_project_none; exact Hw).
  - unfold get_image_data. now erewrite bind_ok by (apply has_project_none; exact Hw).
  - unfold get_metadata_and_labels.
    now erewrite bind_ok by (apply has_project_none; exact Hw).
  - unfold update_metadata_and_labels. rewrite andb_false_r.
    now erewrite bind_ok by (apply has_project_none; exact Hw).
  - unfold _get_annotation_uid.
    now erewrite bind_ok by (apply has_project_none; exact Hw).
  - unfold get_annotations. now erewrite bind_ok by (apply has_project_none; exact Hw).
  - unfold upload_annotation.
    erewrite bind_ok.
    2:{ unfold _get_annotation_uid.
        now erewrite bind_ok by (apply has_project_none; exact Hw). }
    cbn [is_none]. unfold _create_annotation_item.
    now erewrite bind_ok by (apply has_project_none; exact Hw').
Qed.

Lemma without_session_nothing_happens_witness :
  let w := mkWorld None (server world0) (clock world0) 0 [] in
  let warned := logging please_log_in w in
  get_project_item proj (JStr img1) w = (Ok None, warned)
  /\ upload_image row_open row_save (fun i => i) proj (py "a.png") OtherObject [] [] w
     = (Ok JNull, warned)
  /\ get_image_data row_open proj img1 w = (Ok None, warned)
  /\ get_metadata_and_labels proj img1 w = (Ok None, warned)
  /\ update_metadata_and_labels proj img1 (Some [py "cat"]) [] w = (Ok tt, warned)
  /\ _get_annotation_uid proj img1 bob w = (Ok JNull, warned)
  /\ get_annotations proj img1 bob w = (Ok JNull, warned)
  /\ upload_annotation proj img1 bob [ann1] [] w
     = (Ok JNull, logging please_log_in warned).
Proof.
  apply (@without_session_nothing_happens row_open row_save (fun i => i)
           (mkWorld None (server world0) (clock world0) 0 [])
           proj img1 bob (py "a.png") OtherObject (py "cat") [] [] [ann1]).
  reflexivity.
Defined.

Lemma fetch_project_data_unknown w p u :
  gliff_project w = Some p ->
  match project p with
  | None => True
  | Some c => pystr_eqb (uid c) u = false
  end ->
  find_collection (collections (server w)) u = None ->
  Project._fetch_project_data u w = (Raise RemoteError, fetching u w).
Proof.
  intros Hp Hc Hu. unfold Project._fetch_project_data.
  erewrite bind_ok by (apply self_run; exact Hp).
  assert (Hmiss : match project p with
                  | None => true
                  | Some c => negb (pystr_eqb (uid c) u)
                  end = true).
  { destruct (project p); [now rewrite Hc|reflexivity]. }
  rewrite Hmiss. erewrite bind_raise; [reflexivity|].
  unfold Project._fetch_project, Client.fetch_collection.
  erewrite bind_ok by reflexivity. erewrite bind_ok by reflexivity.
  cbn [server]. now rewrite Hu.
Qed.

(** X15: a project that the store does not have.  The fetch of
    [_fetch_project_data] comes before every [try], so its exception leaves
    each operation as it is; the project that was open stays open, and
    nothing but the request reaches the store. *)
Theorem unknown_project_raises :
  forall (image_open : bytes -> result Image) (save_png : Image -> bytes)
         (shrink : Image -> Image)
         w p u item_uid username name image label labels metadata annotations,
    gliff_project w = Some p ->
    match project p with
    | None => True
    | Some c => pystr_eqb (uid c) u = false
    end ->
    find_collection (collections (server w)) u = None ->
    let failed := fetching u w in
    get_project_item u (JStr item_uid) w = (Raise RemoteError, failed)
    /\ upload_image image_open save_png shrink u name image labels metadata w
       = (Raise RemoteError, failed)
    /\ get_image_data image_open u item_uid w = (Raise RemoteError, failed)
    /\ get_metadata_and_labels u item_uid w = (Raise RemoteError, failed)
    /\ update_metadata_and_labels u item_uid (Some (label :: labels)) metadata w
       = (Raise RemoteError, failed)
    /\ get_annotations u item_uid username w = (Raise RemoteError, failed)
    /\ upload_annotation u item_uid username annotations metadata w
       = (Raise RemoteError, failed).
Proof.
  intros image_open save_png shrink w p u item_uid username name image label labels
         metadata annotations Hp Hc Hu. cbn zeta.
  pose proof (@fetch_project_data_unknown w p u Hp Hc Hu) as Hf.
  repeat split.
  - unfold get_project_item.
    erewrite bind_ok by (eapply has_project_loaded; exact Hp). cbn [negb].
    now erewrite bind_raise by exact Hf.
  - unfold upload_image.
    erewrite bind_ok by (eapply has_project_loaded; exact Hp). cbn [negb].
    now erewrite bind_raise by exact Hf.
  - unfold get_image_data.
    erewrite bind_ok by (eapply has_project_loaded; exact Hp). cbn [negb].
    now erewrite bind_raise by exact Hf.
  - unfold get_metadata_and_labels.
    erewrite bind_ok by (eapply has_project_loaded; exact Hp). cbn [negb].
    now erewrite bind_raise by exact Hf.
  - unfold update_metadata_and_labels. rewrite andb_false_r.
    erewrite bind_ok by (eapply has_project_loaded; exact Hp). cbn [negb].
    now erewrite bind_raise by exact Hf.
  - unfold get_annotations.
    erewrite bind_ok by (eapply has_project_loaded; exact Hp). cbn [negb].
    now erewrite bind_raise by exact Hf.
  - unfold upload_annotation. erewrite bind_raise; [reflexivity|].
    unfold _get_annotation_uid.
    erewrite bind_ok by (eapply has_project_loaded; exact Hp). cbn [negb].
    now erewrite bind_raise by exact Hf.
Qed.

Lemma unknown_project_raises_witness :
  let u := py "nowhere" in
  let failed := fetching u world_open in
  get_project_item u (JStr img1) world_open = (Raise RemoteError, failed)
  /\ upload_image row_open row_save (fun i => i) u (py "a.png") OtherObject [] []
       world_open
     = (Raise RemoteError, failed)
  /\ get_image_data row_open u img1 world_open = (Raise RemoteError, failed)
  /\ get_metadata_and_labels u img1 world_open = (Raise RemoteError, failed)
  /\ update_metadata_and_labels u img1 (Some [py "cat"]) [] world_open
     = (Raise RemoteError, failed)
  /\ get_annotations u img1 bob world_open = (Raise RemoteError, failed)
  /\ upload_annotation u img1 bob [ann1] [] world_open = (Raise RemoteError, failed).
Proof.
  apply (@unknown_project_raises row_open row_save (fun i => i) world_open
           (mkProject (Some (mkCollection proj (encoded (JArr [tile1])))) (Some proj))
           (py "nowhere") img1 bob (py "a.png") OtherObject (py "cat") [] [] [ann1]);
    vm_compute; reflexivity.
Defined.

(** ** Updating the metadata and the labels of an image *)

Lemma get_project_item_missing w c im u :
  gliff_project w = Some (mkProject (Some c) (Some im)) ->
  find_item (items (server w)) im u = None ->
  get_project_item (uid c) (JStr u) w
  = (Ok None, logging (LogError "error while fetching image" (Some RemoteError)) w).
Proof.
  intros Hp Hit. unfold get_project_item.
  erewrite bind_ok by (eapply has_project_loaded; exact Hp). cbn [negb].
  erewrite bind_ok by (eapply fetch_project_data_hit; exact Hp).
  erewrite try_except_raise; [reflexivity|].
  erewrite bind_ok by (apply self_run; exact Hp).
  cbn [item_manager deref]. unfold ret at 1. erewrite bind_ok by reflexivity.
  unfold lift at 1. erewrite bind_ok by reflexivity.
  erewrite bind_raise; [reflexivity|].
  unfold Client.fetch_item. erewrite bind_ok by reflexivity. now rewrite Hit.
Qed.

Lemma something_to_update (labels : option (list pystr)) (md : dict) :
  md <> [] \/ (exists l ls, labels = Some (l :: ls)) ->
  Nat.eqb (length md) 0
  && match labels with
     | None | Some [] => true
     | Some (_ :: _) => false
     end = false.
Proof.
  intros [Hmd|(l & ls & ->)]; [|apply andb_false_r].
  destruct md; [contradiction|reflexivity].
Qed.





(** ** Fetching an item *)

(** X18: [get_project_item] returns the item that the store has under the
    uid for the open project and changes nothing; when the store has none,
    the failed fetch is logged and the answer is [None]. *)
Theorem get_project_item_fetches_or_logs :
  forall w c im u,
    gliff_project w = Some (mkProject (Some c) (Some im)) ->
    match find_item (items (server w)) im u with
    | Some it =>
        item_uid it = u /\ get_project_item (uid c) (JStr u) w = (Ok (Some it), w)
    | None =>
        get_project_item (uid c) (JStr u) w
        = (Ok None, logging (LogError "error while fetching image" (Some RemoteError)) w)
    end.
Proof.
  intros w c im u Hp.
  destruct (find_item (items (server w)) im u) as [it|] eqn:Hit.
  - split; [exact (find_item_uid _ _ _ Hit)|].
    now apply get_project_item_found with im.
  - now apply get_project_item_missing with im.
Qed.

Lemma get_project_item_fetches_or_logs_witness :
  match find_item (items (server world_uploaded)) proj (item_name 0) with
  | Some it =>
      item_uid it = item_name 0
      /\ get_project_item
           (uid (mkCollection proj (dumps (JArr [tile1; JObj uploaded_tile]))))
           (JStr (item_name 0)) world_uploaded
         = (Ok (Some it), world_uploaded)
  | None =>
      get_project_item
        (uid (mkCollection proj (dumps (JArr [tile1; JObj uploaded_tile]))))
        (JStr (item_name 0)) world_uploaded
      = (Ok None,
         logging (LogError "error while fetching image" (Some RemoteError))
                 world_uploaded)
  end.
Proof.
  apply (@get_project_item_fetches_or_logs world_uploaded
           (mkCollection proj (dumps (JArr [tile1; JObj uploaded_tile]))) proj
           (item_name 0)).
  vm_compute; reflexivity.
Defined.

(** ** Annotations made with the constructors *)

(** X19: an annotation made by [create_annotation] from a spline made by
    [create_spline] and a bounding box made by [create_bounding_box] and
    [create_xypoint] is empty exactly when the spline has no coordinates,
    there are no brush strokes and the x of the top-left corner is [None];
    so the annotation made with the defaults, which the source calls empty
    by default, is empty whatever its toolbox, labels and parameters. *)
Theorem created_annotation_is_empty_by_default :
  forall toolbox labels parameters coordinates space_time_info is_closed
         x y bottom_right box_space_time_info strokes,
    is_empty_annotation
      (create_annotation toolbox labels
         (create_spline (JArr coordinates) space_time_info is_closed)
         (create_bounding_box (create_xypoint x y) bottom_right box_space_time_info)
         (JArr strokes) parameters)
    = Ok (Nat.eqb (length coordinates) 0 && Nat.eqb (length strokes) 0 && is_none x)
    /\ is_empty_annotation
         (create_annotation toolbox labels default_spline default_bounding_box
                            (JArr []) parameters)
       = Ok true.
Proof. intros. split; reflexivity. Qed.

(** ** Where an annotation uid comes from *)

Lemma find_annotation_uid_sound id username : forall tiles v,
  find_annotation_uid tiles id username = Ok v ->
  v = JNull
  \/ exists tile uids,
       In tile tiles /\ tile_of id tile
       /\ getitem tile (py "annotationUID") = Ok uids
       /\ getitem uids username = Ok v.
Proof.
  induction tiles as [|t tiles IH]; intros v; cbn [find_annotation_uid].
  - intros [= <-]. now left.
  - assert (Hrest : find_annotation_uid tiles id username = Ok v ->
                    v = JNull
                    \/ exists tile uids,
                         In tile (t :: tiles) /\ tile_of id tile
                         /\ getitem tile (py "annotationUID") = Ok uids
                         /\ getitem uids username = Ok v).
    { intros H. destruct (IH v H) as [->|(tile & uids & Hin & Hrest)]; [now left|].
      right. exists tile, uids. split; [now right|exact Hrest]. }
    destruct (getitem t (py "id")) as [tid|] eqn:Hid; [|discriminate]. cbn [rbind].
    destruct (eq_str tid id) eqn:He; [|exact Hrest].
    destruct (getitem t (py "annotationUID")) as [uids|] eqn:Hu; [|discriminate].
    cbn [rbind]. destruct (contains_str uids username) as [[|]|]; cbn [rbind];
      [|exact Hrest|discriminate].
    intros Hv. right. exists t, uids. split; [now left|]. split; [|now split].
    exists tid. now split.
Qed.

(** X20: what [_get_annotation_uid] can answer.  With the project open
    and its gallery read, a result that is not [None] is the entry for the
    user in the [annotationUID] of a tile of the gallery whose id is the
    image's; the call changes nothing. *)
Theorem get_annotation_uid_is_recorded :
  forall w c im s tiles id username v w',
    gliff_project w = Some (mkProject (Some c) im) ->
    bytes_decode (content c) = Ok s ->
    loads s = Ok (JArr tiles) ->
    _get_annotation_uid (uid c) id username w = (Ok v, w') ->
    w' = w
    /\ (v = JNull
        \/ exists tile uids,
             In tile tiles /\ tile_of id tile
             /\ getitem tile (py "annotationUID") = Ok uids
             /\ getitem uids username = Ok v).
Proof.
  intros w c im s tiles id username v w' Hp Hs Hl.
  rewrite (@get_annotation_uid_run w c im s tiles id username Hp Hs Hl).
  intros [= Hv <-]. split; [reflexivity|]. now apply find_annotation_uid_sound.
Qed.

Lemma get_annotation_uid_is_recorded_witness :
  world1 = world1
  /\ (JStr (item_name 0) = JNull
      \/ exists tile uids,
           In tile [_create_new_tile img1 (py "data:image/png;base64,AAAA") [py "cat"]
                      [(py "b", JInt 2)] [(bob, JStr (item_name 0))] []
                      [(bob, JBool false)]]
           /\ tile_of img1 tile
           /\ getitem tile (py "annotationUID") = Ok uids
           /\ getitem uids bob = Ok (JStr (item_name 0))).
Proof.
  apply (@get_annotation_uid_is_recorded world1
           (mkCollection proj
              (dumps (JArr [_create_new_tile img1 (py "data:image/png;base64,AAAA")
                              [py "cat"] [(py "b", JInt 2)] [(bob, JStr (item_name 0))]
                              [] [(bob, JBool false)]])))
           (Some proj)
           (dumps (JArr [_create_new_tile img1 (py "data:image/png;base64,AAAA")
                           [py "cat"] [(py "b", JInt 2)] [(bob, JStr (item_name 0))]
                           [] [(bob, JBool false)]]))
           _ img1 bob (JStr (item_name 0)) world1); vm_compute; reflexivity.
Defined.

(** ** Patching a tile in place *)


